(** * Byte the Dealer: wire codec, deck, round state machine and client

    A shallow embedding of [constants.py], [protocol.py], the game and the
    connection handler of [server.py] and the game part of [client.py], with
    the properties of the protocol specification, and further properties of
    the code, proved about it.

    Conventions.
    - A Python [int] is a [Z]; a [bytes] object is a [list byte]; a [str] is
      the list of its code points ([list N]).
    - A function that can raise returns a [res]: [Ok v] or [Raise e].  Python's
      [None] return value is the [None] of an [option] inside [Ok].
    - [print] calls are left out: they write to the terminal only.
    - [random.shuffle] is a parameter [shuffle] of the deck and of the round;
      the properties that need it assume that it permutes its argument.
    - What the socket delivers is a list of [recv_event]s; when the server
      needs one and none is left, it is blocked in [recv].
    - The player's loop recurses on that list.  The dealer's loop takes a
      bound [fuel] on its number of iterations and yields [None] when the
      bound is reached, which a bound of 17 or more never is (see
      [dealer_draw_runs] and [play_round_runs]).
    - The client reads the player's choices from a list of lines; the end
      of the list is the end of the input.  Its discovery socket delivers a
      list of [udp_event]s.
    - Both sides log what they do on the connection.  Where client and
      server are put together, each reads what the other has sent, one
      message for each [recv]. *)

From Stdlib Require Import String Ascii.
From Stdlib.Strings Require Import Byte.
From Stdlib Require Import ZArith NArith List Bool Lia.
From Stdlib Require Import Permutation.
Import ListNotations.

Local Open Scope Z_scope.

(* ================================================================== *)
(** ** Python values, exceptions *)

Definition bytes := list byte.
Definition pystr := list N.

Inductive exn :=
| StructError | ValueError | UnicodeDecodeError | UnicodeEncodeError
| IndexError | TypeError.

Inductive res (A : Type) :=
| Ok (a : A)
| Raise (e : exn).
Arguments Ok {A} a.
Arguments Raise {A} e.

Definition bind {A B} (c : res A) (k : A -> res B) : res B :=
  match c with
  | Ok a => k a
  | Raise e => Raise e
  end.

Declare Scope res_scope.
Delimit Scope res_scope with res.
Notation "x <- c ;; k" := (bind c (fun x => k))
  (at level 61, c at next level, right associativity) : res_scope.
Notation "' p <- c ;; k" := (bind c (fun x => let 'p := x in k))
  (at level 61, p pattern, c at next level, right associativity) : res_scope.
Local Open Scope res_scope.

Definition exn_eqb (a b : exn) : bool :=
  match a, b with
  | StructError, StructError | ValueError, ValueError
  | UnicodeDecodeError, UnicodeDecodeError
  | UnicodeEncodeError, UnicodeEncodeError
  | IndexError, IndexError | TypeError, TypeError => true
  | _, _ => false
  end.

(** [isinstance(e, cls)]: the two Unicode errors derive from [ValueError]. *)
Definition exn_isinstance (e cls : exn) : bool :=
  exn_eqb e cls ||
  match e, cls with
  | UnicodeDecodeError, ValueError | UnicodeEncodeError, ValueError => true
  | _, _ => false
  end.

(** [try: body  except classes: handler] *)
Definition try_except {A} (body : res A) (classes : list exn)
    (handler : res A) : res A :=
  match body with
  | Ok a => Ok a
  | Raise e => if existsb (exn_isinstance e) classes then handler else Raise e
  end.

(* ================================================================== *)
(** ** Bytes and integers *)

Definition byte_of_N (n : N) : byte :=
  match Byte.of_N (n mod 256) with
  | Some b => b
  | None => x00
  end.

Definition Z_of_byte (b : byte) : Z := Z.of_N (Byte.to_N b).
Definition byte_of_Z (z : Z) : byte := byte_of_N (Z.to_N (z mod 256)).

(** A [bytes] or [str] literal written as a Rocq string. *)
Definition b_lit (s : string) : bytes := list_byte_of_string s.
Definition s_lit (s : string) : pystr := map N_of_ascii (list_ascii_of_string s).

Definition bytes_eqb (a b : bytes) : bool :=
  if list_eq_dec Byte.byte_eq_dec a b then true else false.

Definition pystr_eqb (a b : pystr) : bool :=
  if list_eq_dec N.eq_dec a b then true else false.

(** Big-endian encoding on [n] bytes, and its inverse. *)
Fixpoint be_bytes (n : nat) (z : Z) : bytes :=
  match n with
  | O => []
  | S k => be_bytes k (z / 256) ++ [byte_of_Z z]
  end.

Definition be_int (b : bytes) : Z :=
  fold_left (fun acc x => acc * 256 + Z_of_byte x) b 0.

(** [b.ljust(n, fill)], [b.rstrip(c)] for a one-byte [c]. *)
Definition ljust (n : nat) (fill : byte) (b : bytes) : bytes :=
  b ++ repeat fill (n - length b).

Fixpoint rstrip (c : byte) (b : bytes) : bytes :=
  match b with
  | [] => []
  | x :: r =>
      match rstrip c r with
      | [] => if Byte.eqb x c then [] else [x]
      | r' => x :: r'
      end
  end.

(* ================================================================== *)
(** ** The [struct] module, for the formats the protocol uses

    All formats start with ['>']: big-endian, standard sizes, no padding. *)

Inductive fmt_item :=
| fmt_I               (* 'I': unsigned, 4 bytes *)
| fmt_H               (* 'H': unsigned, 2 bytes *)
| fmt_B               (* 'B': unsigned, 1 byte *)
| fmt_s (n : nat).    (* 'ns': n bytes *)

Inductive pyval :=
| VInt (z : Z)
| VBytes (b : bytes).

Definition item_size (it : fmt_item) : nat :=
  match it with
  | fmt_I => 4
  | fmt_H => 2
  | fmt_B => 1
  | fmt_s n => n
  end.

Definition calcsize (fmt : list fmt_item) : nat :=
  list_sum (map item_size fmt).

Definition pack_uint (n : nat) (z : Z) : res bytes :=
  if (0 <=? z) && (z <? 256 ^ Z.of_nat n) then Ok (be_bytes n z)
  else Raise StructError.

Definition pack_item (it : fmt_item) (v : pyval) : res bytes :=
  match it, v with
  | fmt_s n, VBytes b => Ok (firstn n b ++ repeat x00 (n - length b))
  | fmt_s _, VInt _ => Raise StructError
  | _, VInt z => pack_uint (item_size it) z
  | _, VBytes _ => Raise StructError
  end.

Fixpoint struct_pack (fmt : list fmt_item) (args : list pyval) : res bytes :=
  match fmt, args with
  | [], [] => Ok []
  | it :: fmt', v :: args' =>
      b <- pack_item it v ;;
      r <- struct_pack fmt' args' ;;
      Ok (b ++ r)
  | _, _ => Raise StructError
  end.

Definition unpack_item (it : fmt_item) (b : bytes) : pyval :=
  match it with
  | fmt_s _ => VBytes b
  | _ => VInt (be_int b)
  end.

Fixpoint unpack_items (fmt : list fmt_item) (data : bytes) : list pyval :=
  match fmt with
  | [] => []
  | it :: fmt' =>
      unpack_item it (firstn (item_size it) data)
        :: unpack_items fmt' (skipn (item_size it) data)
  end.

Definition struct_unpack (fmt : list fmt_item) (data : bytes)
    : res (list pyval) :=
  if Nat.eqb (length data) (calcsize fmt) then Ok (unpack_items fmt data)
  else Raise StructError.

(* ================================================================== *)
(** ** Text codecs: [str.encode], [bytes.decode], [int], [format] *)

Local Open Scope N_scope.

Definition is_surrogate (c : N) : bool := (0xD800 <=? c) && (c <=? 0xDFFF).

(** UTF-8 form of one code point; a lone surrogate cannot be encoded. *)
Definition utf8_encode_cp (c : N) : res bytes :=
  if c <? 0x80 then Ok [byte_of_N c]
  else if c <? 0x800 then
    Ok [byte_of_N (0xC0 + c / 64); byte_of_N (0x80 + c mod 64)]
  else if c <? 0x10000 then
    if is_surrogate c then Raise UnicodeEncodeError
    else Ok [byte_of_N (0xE0 + c / 4096);
             byte_of_N (0x80 + (c / 64) mod 64);
             byte_of_N (0x80 + c mod 64)]
  else if c <? 0x110000 then
    Ok [byte_of_N (0xF0 + c / 262144);
        byte_of_N (0x80 + (c / 4096) mod 64);
        byte_of_N (0x80 + (c / 64) mod 64);
        byte_of_N (0x80 + c mod 64)]
  else Raise UnicodeEncodeError.

(** [s.encode('utf-8')] *)
Fixpoint utf8_encode (s : pystr) : res bytes :=
  match s with
  | [] => Ok []
  | c :: s' =>
      b <- utf8_encode_cp c ;;
      r <- utf8_encode s' ;;
      Ok (b ++ r)
  end.

Definition is_cont (b : N) : bool := (0x80 <=? b) && (b <? 0xC0).

(** [b.decode('utf-8', errors='ignore')].  An ill-formed sequence is dropped
    up to its longest well-formed prefix (one byte for a bad lead byte), a
    sequence cut short by the end of the data is dropped whole, and decoding
    goes on after it. *)
Fixpoint utf8_decode_ignore (b : bytes) : pystr :=
  match b with
  | [] => []
  | x1 :: r1 =>
      let c1 := Byte.to_N x1 in
      if c1 <? 0x80 then c1 :: utf8_decode_ignore r1
      else if c1 <? 0xC2 then utf8_decode_ignore r1
      else if c1 <? 0xE0 then
        match r1 with
        | [] => []
        | x2 :: r2 =>
            let c2 := Byte.to_N x2 in
            if is_cont c2
            then ((c1 - 0xC0) * 64 + (c2 - 0x80)) :: utf8_decode_ignore r2
            else utf8_decode_ignore r1
        end
      else if c1 <? 0xF0 then
        match r1 with
        | [] => []
        | x2 :: r2 =>
            let c2 := Byte.to_N x2 in
            if negb (is_cont c2)
               || ((c1 =? 0xE0) && (c2 <? 0xA0))
               || ((c1 =? 0xED) && (0xA0 <=? c2))
            then utf8_decode_ignore r1
            else
              match r2 with
              | [] => []
              | x3 :: r3 =>
                  let c3 := Byte.to_N x3 in
                  if is_cont c3
                  then ((c1 - 0xE0) * 4096 + (c2 - 0x80) * 64 + (c3 - 0x80))
                         :: utf8_decode_ignore r3
                  else utf8_decode_ignore r2
              end
        end
      else if c1 <? 0xF5 then
        match r1 with
        | [] => []
        | x2 :: r2 =>
            let c2 := Byte.to_N x2 in
            if negb (is_cont c2)
               || ((c1 =? 0xF0) && (c2 <? 0x90))
               || ((c1 =? 0xF4) && (0x90 <=? c2))
            then utf8_decode_ignore r1
            else
              match r2 with
              | [] => []
              | x3 :: r3 =>
                  let c3 := Byte.to_N x3 in
                  if negb (is_cont c3) then utf8_decode_ignore r2
                  else
                    match r3 with
                    | [] => []
                    | x4 :: r4 =>
                        let c4 := Byte.to_N x4 in
                        if is_cont c4
                        then ((c1 - 0xF0) * 262144 + (c2 - 0x80) * 4096
                              + (c3 - 0x80) * 64 + (c4 - 0x80))
                               :: utf8_decode_ignore r4
                        else utf8_decode_ignore r3
                    end
              end
        end
      else utf8_decode_ignore r1
  end.

(** [s.encode('ascii')] and [b.decode('ascii')] *)
Fixpoint ascii_encode (s : pystr) : res bytes :=
  match s with
  | [] => Ok []
  | c :: s' =>
      if c <? 0x80 then r <- ascii_encode s' ;; Ok (byte_of_N c :: r)
      else Raise UnicodeEncodeError
  end.

Fixpoint ascii_decode (b : bytes) : res pystr :=
  match b with
  | [] => Ok []
  | x :: b' =>
      if Byte.to_N x <? 0x80 then r <- ascii_decode b' ;; Ok (Byte.to_N x :: r)
      else Raise UnicodeDecodeError
  end.

Local Close Scope N_scope.

(** [int(s)] for an ASCII [s] (the codec only calls it on the result of
    [decode('ascii')]): optional white space, an optional sign, decimal
    digits that may be separated by single underscores, optional white
    space.  Anything else raises [ValueError]. *)
Definition is_space (c : N) : bool :=
  (((9 <=? c) && (c <=? 13)) || (c =? 32))%N.

Definition is_digit (c : N) : bool := ((48 <=? c) && (c <=? 57))%N.

Definition digit_val (c : N) : Z := Z.of_N (c - 48).

Fixpoint lstrip_space (s : pystr) : pystr :=
  match s with
  | [] => []
  | c :: r => if is_space c then lstrip_space r else s
  end.

Fixpoint int_digits (acc : Z) (s : pystr) : option (Z * pystr) :=
  match s with
  | [] => Some (acc, [])
  | c :: r =>
      if is_digit c then int_digits (acc * 10 + digit_val c) r
      else if (c =? 95)%N then
        match r with
        | [] => None
        | d :: r' =>
            if is_digit d then int_digits (acc * 10 + digit_val d) r'
            else None
        end
      else Some (acc, s)
  end.

Definition int_unsigned (s : pystr) : option Z :=
  match s with
  | [] => None
  | c :: r =>
      if is_digit c then
        match int_digits (digit_val c) r with
        | Some (v, rest) =>
            match lstrip_space rest with
            | [] => Some v
            | _ :: _ => None
            end
        | None => None
        end
      else None
  end.

Definition py_int (s : pystr) : res Z :=
  let parsed :=
    match lstrip_space s with
    | [] => None
    | c :: r =>
        if (c =? 45)%N then option_map Z.opp (int_unsigned r)
        else if (c =? 43)%N then int_unsigned r
        else int_unsigned (c :: r)
    end in
  match parsed with
  | Some v => Ok v
  | None => Raise ValueError
  end.

(** [f"{z:02d}"]: decimal digits, zero-padded after the sign to width 2. *)
Fixpoint uint_digits (u : Decimal.uint) : pystr :=
  match u with
  | Decimal.Nil => []
  | Decimal.D0 u' => 48%N :: uint_digits u'
  | Decimal.D1 u' => 49%N :: uint_digits u'
  | Decimal.D2 u' => 50%N :: uint_digits u'
  | Decimal.D3 u' => 51%N :: uint_digits u'
  | Decimal.D4 u' => 52%N :: uint_digits u'
  | Decimal.D5 u' => 53%N :: uint_digits u'
  | Decimal.D6 u' => 54%N :: uint_digits u'
  | Decimal.D7 u' => 55%N :: uint_digits u'
  | Decimal.D8 u' => 56%N :: uint_digits u'
  | Decimal.D9 u' => 57%N :: uint_digits u'
  end.

Definition format_02d (z : Z) : pystr :=
  let ds := uint_digits (N.to_uint (Z.abs_N z)) in
  if z <? 0 then 45%N :: repeat 48%N (2 - 1 - length ds) ++ ds
  else repeat 48%N (2 - length ds) ++ ds.

(** [str.lower()], as far as a comparison with an ASCII literal can see it:
    exact on ASCII and on the only two other code points whose lower-case
    form contains an ASCII character (U+0130 and U+212A); every other code
    point maps to non-ASCII text and is kept as it is. *)
Definition lower_cp (c : N) : pystr :=
  (if (65 <=? c) && (c <=? 90) then [c + 32]
   else if c =? 0x130 then [0x69; 0x307]
   else if c =? 0x212A then [0x6B]
   else [c])%N.

Definition lower (s : pystr) : pystr := flat_map lower_cp s.

(** [l[i]] on a Python list: a negative index counts from the end. *)
Definition py_index {A} (l : list A) (i : Z) : res A :=
  let n := Z.of_nat (length l) in
  let j := if i <? 0 then i + n else i in
  if (0 <=? j) && (j <? n) then
    match nth_error l (Z.to_nat j) with
    | Some a => Ok a
    | None => Raise IndexError
    end
  else Raise IndexError.

(* ================================================================== *)
(** ** constants.py *)

Definition MAGIC_COOKIE : Z := 0xabcddcba.

Definition MSG_TYPE_OFFER : Z := 0x2.
Definition MSG_TYPE_REQUEST : Z := 0x3.
Definition MSG_TYPE_PAYLOAD : Z := 0x4.

Definition RESULT_ROUND_NOT_OVER : Z := 0x0.
Definition RESULT_TIE : Z := 0x1.
Definition RESULT_LOSS : Z := 0x2.
Definition RESULT_WIN : Z := 0x3.

Definition ACTION_HIT : bytes := b_lit "Hittt".
Definition ACTION_STAND : bytes := b_lit "Stand".

Definition NAME_LENGTH : nat := 32.

Definition SUITS : list pystr := [s_lit "H"; s_lit "D"; s_lit "C"; s_lit "S"].

Definition get_card_value (rank : Z) : Z :=
  if rank =? 1 then 11
  else if rank >=? 11 then 10
  else rank.

(* ================================================================== *)
(** ** protocol.py *)

Definition pad_name (name : pystr) : res bytes :=
  enc <- utf8_encode name ;;
  let name_bytes := firstn NAME_LENGTH enc in
  Ok (ljust NAME_LENGTH x00 name_bytes).

Definition unpad_name (name_bytes : bytes) : pystr :=
  utf8_decode_ignore (rstrip x00 name_bytes).

Definition OFFER_FORMAT : list fmt_item := [fmt_I; fmt_B; fmt_H; fmt_s 32].
Definition OFFER_SIZE : nat := calcsize OFFER_FORMAT.

Definition pack_offer (tcp_port : Z) (server_name : pystr) : res bytes :=
  name <- pad_name server_name ;;
  struct_pack OFFER_FORMAT
    [VInt MAGIC_COOKIE; VInt MSG_TYPE_OFFER; VInt tcp_port; VBytes name].

Definition unpack_offer (data : bytes) : res (option (Z * pystr)) :=
  if (length data <? OFFER_SIZE)%nat then Ok None
  else
    try_except
      (fields <- struct_unpack OFFER_FORMAT (firstn OFFER_SIZE data) ;;
       match fields with
       | [VInt magic; VInt msg_type; VInt tcp_port; VBytes name_bytes] =>
           if negb (magic =? MAGIC_COOKIE) then Ok None
           else if negb (msg_type =? MSG_TYPE_OFFER) then Ok None
           else Ok (Some (tcp_port, unpad_name name_bytes))
       | _ => Raise TypeError
       end)
      [StructError] (Ok None).

Definition REQUEST_FORMAT : list fmt_item := [fmt_I; fmt_B; fmt_B; fmt_s 32].
Definition REQUEST_SIZE : nat := calcsize REQUEST_FORMAT.

Definition pack_request (num_rounds : Z) (client_name : pystr) : res bytes :=
  name <- pad_name client_name ;;
  struct_pack REQUEST_FORMAT
    [VInt MAGIC_COOKIE; VInt MSG_TYPE_REQUEST; VInt num_rounds; VBytes name].

Definition unpack_request (data : bytes) : res (option (Z * pystr)) :=
  if (length data <? REQUEST_SIZE)%nat then Ok None
  else
    try_except
      (fields <- struct_unpack REQUEST_FORMAT (firstn REQUEST_SIZE data) ;;
       match fields with
       | [VInt magic; VInt msg_type; VInt num_rounds; VBytes name_bytes] =>
           if negb (magic =? MAGIC_COOKIE) then Ok None
           else if negb (msg_type =? MSG_TYPE_REQUEST) then Ok None
           else Ok (Some (num_rounds, unpad_name name_bytes))
       | _ => Raise TypeError
       end)
      [StructError] (Ok None).

Definition CLIENT_PAYLOAD_FORMAT : list fmt_item := [fmt_I; fmt_B; fmt_s 5].
Definition CLIENT_PAYLOAD_SIZE : nat := calcsize CLIENT_PAYLOAD_FORMAT.

Definition SERVER_PAYLOAD_FORMAT : list fmt_item :=
  [fmt_I; fmt_B; fmt_B; fmt_s 2; fmt_s 1].
Definition SERVER_PAYLOAD_SIZE : nat := calcsize SERVER_PAYLOAD_FORMAT.

Definition pack_client_payload (action : pystr) : res bytes :=
  let action_bytes :=
    if pystr_eqb (lower action) (s_lit "hit") then ACTION_HIT
    else ACTION_STAND in
  struct_pack CLIENT_PAYLOAD_FORMAT
    [VInt MAGIC_COOKIE; VInt MSG_TYPE_PAYLOAD; VBytes action_bytes].

Definition unpack_client_payload (data : bytes) : res (option pystr) :=
  if (length data <? CLIENT_PAYLOAD_SIZE)%nat then Ok None
  else
    try_except
      (fields <- struct_unpack CLIENT_PAYLOAD_FORMAT
                   (firstn CLIENT_PAYLOAD_SIZE data) ;;
       match fields with
       | [VInt magic; VInt msg_type; VBytes action_bytes] =>
           if negb (magic =? MAGIC_COOKIE) then Ok None
           else if negb (msg_type =? MSG_TYPE_PAYLOAD) then Ok None
           else if bytes_eqb action_bytes ACTION_HIT then
             Ok (Some (s_lit "hit"))
           else if bytes_eqb action_bytes ACTION_STAND then
             Ok (Some (s_lit "stand"))
           else Ok None
       | _ => Raise TypeError
       end)
      [StructError] (Ok None).

(** The suit argument of [pack_server_payload] is an index into [SUITS] or
    a one-character string. *)
Inductive suit_arg :=
| SuitInt (i : Z)
| SuitStr (s : pystr).

Definition pack_server_payload (result card_rank : Z) (card_suit : suit_arg)
    : res bytes :=
  rank_str <- ascii_encode (format_02d card_rank) ;;
  suit_char <-
    match card_suit with
    | SuitInt i => s <- py_index SUITS i ;; ascii_encode s
    | SuitStr s => ascii_encode s
    end ;;
  struct_pack SERVER_PAYLOAD_FORMAT
    [VInt MAGIC_COOKIE; VInt MSG_TYPE_PAYLOAD; VInt result;
     VBytes rank_str; VBytes suit_char].

Definition unpack_server_payload (data : bytes)
    : res (option (Z * Z * pystr)) :=
  if (length data <? SERVER_PAYLOAD_SIZE)%nat then Ok None
  else
    try_except
      (fields <- struct_unpack SERVER_PAYLOAD_FORMAT
                   (firstn SERVER_PAYLOAD_SIZE data) ;;
       match fields with
       | [VInt magic; VInt msg_type; VInt result;
          VBytes rank_bytes; VBytes suit_byte] =>
           if negb (magic =? MAGIC_COOKIE) then Ok None
           else if negb (msg_type =? MSG_TYPE_PAYLOAD) then Ok None
           else
             rank_text <- ascii_decode rank_bytes ;;
             card_rank <- py_int rank_text ;;
             card_suit <- ascii_decode suit_byte ;;
             Ok (Some (result, card_rank, card_suit))
       | _ => Raise TypeError
       end)
      [StructError; ValueError] (Ok None).

(* ================================================================== *)
(** ** server.py: the deck *)

Definition card : Type := Z * suit_arg.

(** [range(a, b)] *)
Definition py_range (a b : Z) : list Z :=
  map (fun i => a + Z.of_nat i) (seq 0 (Z.to_nat (b - a))).

(** [[(rank, suit) for rank in range(1, 14) for suit in range(4)]] *)
Definition full_deck : list card :=
  flat_map (fun rank => map (fun suit => (rank, SuitInt suit)) (py_range 0 4))
           (py_range 1 14).

(** [l.pop()]: removes and returns the last item. *)
Definition list_pop {A} (l : list A) : res (A * list A) :=
  match rev l with
  | [] => Raise IndexError
  | x :: r => Ok (x, rev r)
  end.

Module Deck.

(** The deck is its list of cards; [shuffles] counts the calls to
    [random.shuffle] made so far, which is all the model keeps of the
    state of the random generator. *)
Record t := mk { cards : list card; shuffles : nat }.

Section WithShuffle.
(** [random.shuffle]: the [n]-th call turns a list into [shuffle n l]. *)
Variable shuffle : nat -> list card -> list card.

Definition reset (d : t) : t :=
  {| cards := shuffle (shuffles d) full_deck;
     shuffles := S (shuffles d) |}.

Definition draw (d : t) : res (card * t) :=
  let d := if (length (cards d) =? 0)%nat then reset d else d in
  match list_pop (cards d) with
  | Ok (c, rest) => Ok (c, {| cards := rest; shuffles := shuffles d |})
  | Raise e => Raise e
  end.

(** [n] calls of [draw] in a row, with the cards in the order drawn. *)
Fixpoint draw_many (n : nat) (d : t) : res (list card * t) :=
  match n with
  | O => Ok ([], d)
  | S k =>
      match draw d with
      | Ok (c, d') =>
          match draw_many k d' with
          | Ok (cs, d'') => Ok (c :: cs, d'')
          | Raise e => Raise e
          end
      | Raise e => Raise e
      end
  end.
End WithShuffle.

End Deck.

(* ================================================================== *)
(** ** server.py: one round of the game

    The TCP socket is modelled by what [recv] yields, in order, and by the
    log of what the server does on it.  [send] is taken to succeed. *)

Inductive recv_event :=
| RecvData (data : bytes)     (* [recv] returns [data]; [b''] when closed *)
| RecvReset                   (* [recv] raises [ConnectionResetError] *)
| RecvFail.                   (* [recv] raises another exception *)

Inductive event :=
| EvRecv                      (* a call of [recv] that returned or raised *)
| EvSend (payload : bytes).

(** How a loop body ends. *)
Inductive step_end :=
| Return (r : option pystr)   (* [return r] *)
| Break                       (* [break] *)
| Again.                      (* falls through to the loop test *)

(** How the player's loop ends. *)
Inductive turn_end :=
| TurnReturn (r : option pystr)   (* [play_round] returned [r] *)
| TurnOver                        (* the loop was left: dealer's turn *)
| AwaitAction.                    (* blocked in [recv]; no input left *)

(** How [play_round] ends. *)
Inductive round_end :=
| Finished (r : option pystr)     (* its return value *)
| Waiting.                        (* blocked in [recv]; no input left *)

Module BlackjackGame.

Record t := mk {
  deck : Deck.t;
  player_cards : list card;
  dealer_cards : list card;
  player_sum : Z;
  dealer_sum : Z;
  wire : list event
}.

Definition set_deck (d : Deck.t) (g : t) : t :=
  mk d (player_cards g) (dealer_cards g) (player_sum g) (dealer_sum g)
     (wire g).
Definition set_player_cards (l : list card) (g : t) : t :=
  mk (deck g) l (dealer_cards g) (player_sum g) (dealer_sum g) (wire g).
Definition set_dealer_cards (l : list card) (g : t) : t :=
  mk (deck g) (player_cards g) l (player_sum g) (dealer_sum g) (wire g).
Definition set_player_sum (s : Z) (g : t) : t :=
  mk (deck g) (player_cards g) (dealer_cards g) s (dealer_sum g) (wire g).
Definition set_dealer_sum (s : Z) (g : t) : t :=
  mk (deck g) (player_cards g) (dealer_cards g) (player_sum g) s (wire g).
Definition log (e : event) (g : t) : t :=
  mk (deck g) (player_cards g) (dealer_cards g) (player_sum g)
     (dealer_sum g) (wire g ++ [e]).

(** [sum(get_card_value(rank) for rank, suit in cards)] *)
Definition calculate_sum (cards : list card) : Z :=
  fold_left (fun acc c => acc + get_card_value (fst c)) cards 0.

Definition send_card (c : card) (result : Z) (g : t) : res t :=
  payload <- pack_server_payload result (fst c) (snd c) ;;
  Ok (log (EvSend payload) g).

(** [receive_action], given what [recv] does this time. *)
Definition receive_action (ev : recv_event) (g : t) : option pystr * t :=
  let g := log EvRecv g in
  match ev with
  | RecvData data =>
      match data with
      | [] => (None, g)
      | _ :: _ =>
          match unpack_client_payload data with
          | Ok action => (action, g)
          | Raise _ => (None, g)
          end
      end
  | RecvReset => (None, g)
  | RecvFail => (None, g)
  end.

(** The "# Determine winner" part of [play_round]: the value returned
    and the result code sent. *)
Definition determine_winner (g : t) : pystr * Z :=
  if dealer_sum g >? 21 then (s_lit "win", RESULT_WIN)
  else if player_sum g >? dealer_sum g then (s_lit "win", RESULT_WIN)
  else if dealer_sum g >? player_sum g then (s_lit "loss", RESULT_LOSS)
  else (s_lit "tie", RESULT_TIE).

Section WithShuffle.
Variable shuffle : nat -> list card -> list card.

Definition draw (g : t) : res (card * t) :=
  match Deck.draw shuffle (deck g) with
  | Ok (c, d) => Ok (c, set_deck d g)
  | Raise e => Raise e
  end.

(** The initial deal of [play_round], up to the player's loop. *)
Definition deal_initial (g : t) : res (card * t) :=
  let g := set_deck (Deck.reset shuffle (deck g)) g in
  let g := set_player_cards [] g in
  let g := set_dealer_cards [] g in
  '(card1, g) <- draw g ;;
  '(card2, g) <- draw g ;;
  let g := set_player_cards [card1; card2] g in
  let g := set_player_sum (calculate_sum (player_cards g)) g in
  '(dealer_card1, g) <- draw g ;;
  '(dealer_card2, g) <- draw g ;;
  let g := set_dealer_cards [dealer_card1; dealer_card2] g in
  g <- send_card card1 RESULT_ROUND_NOT_OVER g ;;
  g <- send_card card2 RESULT_ROUND_NOT_OVER g ;;
  g <- send_card dealer_card1 RESULT_ROUND_NOT_OVER g ;;
  Ok (dealer_card2, g).

(** One run of the body of [while self.player_sum < 21]. *)
Definition player_step (ev : recv_event) (g : t) : res (step_end * t) :=
  let '(action, g) := receive_action ev g in
  match action with
  | None => Ok (Return None, g)
  | Some action =>
      if pystr_eqb action (s_lit "stand") then
        g <- send_card (0, SuitStr (s_lit "H")) RESULT_ROUND_NOT_OVER g ;;
        Ok (Break, g)
      else if pystr_eqb action (s_lit "hit") then
        '(new_card, g) <- draw g ;;
        let g := set_player_cards (player_cards g ++ [new_card]) g in
        let g := set_player_sum (calculate_sum (player_cards g)) g in
        if player_sum g >? 21 then
          g <- send_card new_card RESULT_LOSS g ;;
          Ok (Return (Some (s_lit "loss")), g)
        else
          g <- send_card new_card RESULT_ROUND_NOT_OVER g ;;
          Ok (Again, g)
      else Ok (Again, g)
  end.

(** The player's loop.  When the loop needs an action and the input has
    run out, the server is blocked in [recv]. *)
Fixpoint player_turn (inbox : list recv_event) (g : t)
    : res (turn_end * list recv_event * t) :=
  if player_sum g <? 21 then
    match inbox with
    | [] => Ok (AwaitAction, [], g)
    | ev :: rest =>
        match player_step ev g with
        | Ok (Return r, g') => Ok (TurnReturn r, rest, g')
        | Ok (Break, g') => Ok (TurnOver, rest, g')
        | Ok (Again, g') => player_turn rest g'
        | Raise e => Raise e
        end
    end
  else Ok (TurnOver, inbox, g).

(** [while self.dealer_sum < 17]; [None] when [fuel] iterations were
    not enough. *)
Fixpoint dealer_draw (fuel : nat) (g : t) : option (res t) :=
  if dealer_sum g <? 17 then
    match fuel with
    | O => None
    | S fuel' =>
        let body :=
          '(new_card, g) <- draw g ;;
          let g := set_dealer_cards (dealer_cards g ++ [new_card]) g in
          let g := set_dealer_sum (calculate_sum (dealer_cards g)) g in
          send_card new_card RESULT_ROUND_NOT_OVER g in
        match body with
        | Ok g' => dealer_draw fuel' g'
        | Raise e => Some (Raise e)
        end
    end
  else Some (Ok g).

(** [play_round] from "# Player didn't bust - dealer's turn" on. *)
Definition dealer_turn (fuel : nat) (dealer_card2 : card) (g : t)
    : option (res (option pystr * t)) :=
  let g := set_dealer_sum (calculate_sum (dealer_cards g)) g in
  match send_card dealer_card2 RESULT_ROUND_NOT_OVER g with
  | Raise e => Some (Raise e)
  | Ok g =>
      match dealer_draw fuel g with
      | None => None
      | Some (Raise e) => Some (Raise e)
      | Some (Ok g) =>
          let '(result, result_code) := determine_winner g in
          match send_card (0, SuitStr (s_lit "H")) result_code g with
          | Raise e => Some (Raise e)
          | Ok g => Some (Ok (Some result, g))
          end
      end
  end.

(** [play_round] after the initial deal. *)
Definition play_hand (fuel : nat) (dealer_card2 : card)
    (inbox : list recv_event) (g : t)
    : option (res (round_end * list recv_event * t)) :=
  match player_turn inbox g with
  | Raise e => Some (Raise e)
  | Ok (TurnReturn r, inbox, g) => Some (Ok (Finished r, inbox, g))
  | Ok (AwaitAction, inbox, g) => Some (Ok (Waiting, inbox, g))
  | Ok (TurnOver, inbox, g) =>
      match dealer_turn fuel dealer_card2 g with
      | None => None
      | Some (Raise e) => Some (Raise e)
      | Some (Ok (r, g)) => Some (Ok (Finished r, inbox, g))
      end
  end.

Definition play_round (fuel : nat) (inbox : list recv_event) (g : t)
    : option (res (round_end * list recv_event * t)) :=
  match deal_initial g with
  | Raise e => Some (Raise e)
  | Ok (dealer_card2, g) => play_hand fuel dealer_card2 inbox g
  end.
(** [BlackjackGame.__init__]: the deck is built, and shuffled, with the
    game. *)
Definition init : t :=
  mk (Deck.reset shuffle (Deck.mk [] 0)) [] [] 0 0 [].

(** How [run] ends. *)
Inductive run_end :=
| RunDone         (* the loop over the rounds was left *)
| RunWaiting.     (* blocked in [recv] in the middle of a round *)

(** The dealer's statistics: wins, losses, ties. *)
Definition tally : Type := Z * Z * Z.

(** The body of the loop of [run] after [play_round]: the player's result
    counted from the dealer's side. *)
Definition count_result (result : pystr) (s : tally) : tally :=
  let '(wins, losses, ties) := s in
  if pystr_eqb result (s_lit "win") then (wins, losses + 1, ties)
  else if pystr_eqb result (s_lit "loss") then (wins + 1, losses, ties)
  else (wins, losses, ties + 1).

(** The loop of [run] over the round numbers that are left. *)
Fixpoint run_rounds (fuel : nat) (rounds : list Z) (s : tally)
    (inbox : list recv_event) (g : t)
    : option (res (run_end * tally * list recv_event * t)) :=
  match rounds with
  | [] => Some (Ok (RunDone, s, inbox, g))
  | _ :: rounds' =>
      match play_round fuel inbox g with
      | None => None
      | Some (Raise e) => Some (Raise e)
      | Some (Ok (Waiting, inbox, g)) => Some (Ok (RunWaiting, s, inbox, g))
      | Some (Ok (Finished None, inbox, g)) => Some (Ok (RunDone, s, inbox, g))
      | Some (Ok (Finished (Some result), inbox, g)) =>
          run_rounds fuel rounds' (count_result result s) inbox g
      end
  end.

(** [run], with the statistics it prints as its value. *)
Definition run (fuel : nat) (num_rounds : Z) (inbox : list recv_event)
    (g : t) : option (res (run_end * tally * list recv_event * t)) :=
  run_rounds fuel (py_range 1 (num_rounds + 1)) (0, 0, 0) inbox g.

End WithShuffle.

End BlackjackGame.

(* ================================================================== *)
(** ** server.py: one connection *)

(** How [handle_client] ends. *)
Inductive session_end :=
| AwaitRequest                    (* blocked in the first [recv] *)
| Dropped                         (* the first [recv] raised *)
| NoRequest                       (* nothing, or no request, was received *)
| Played (e : BlackjackGame.run_end) (s : BlackjackGame.tally).

Module BlackjackServer.

Section WithShuffle.
Variable shuffle : nat -> list card -> list card.

(** [handle_client]: the request is read with one [recv] and a game of
    the requested number of rounds is run on the same socket.  The value
    is how it ended, what is left of the input, and what was done on the
    socket; [Raise e] stands for an exception of the game, which
    [handle_client] catches and reports. *)
Definition handle_client (fuel : nat) (inbox : list recv_event)
    : option (res (session_end * list recv_event * list event)) :=
  match inbox with
  | [] => Some (Ok (AwaitRequest, [], []))
  | ev :: inbox =>
      match ev with
      | RecvReset => Some (Ok (Dropped, inbox, [EvRecv]))
      | RecvFail => Some (Ok (Dropped, inbox, [EvRecv]))
      | RecvData [] => Some (Ok (NoRequest, inbox, [EvRecv]))
      | RecvData data =>
          match unpack_request data with
          | Raise e => Some (Raise e)
          | Ok None => Some (Ok (NoRequest, inbox, [EvRecv]))
          | Ok (Some (num_rounds, client_name)) =>
              let game :=
                BlackjackGame.log EvRecv (BlackjackGame.init shuffle) in
              match BlackjackGame.run shuffle fuel num_rounds inbox game with
              | None => None
              | Some (Raise e) => Some (Raise e)
              | Some (Ok (e, s, inbox, g)) =>
                  Some (Ok (Played e s, inbox, BlackjackGame.wire g))
              end
          end
      end
  end.
End WithShuffle.

End BlackjackServer.

(* ================================================================== *)
(** ** client.py *)

(** [s.strip()]: white space is what [str.isspace] says. *)
Definition is_py_space (c : N) : bool :=
  (((9 <=? c) && (c <=? 13)) || ((28 <=? c) && (c <=? 32))
   || (c =? 133) || (c =? 160) || (c =? 5760)
   || ((8192 <=? c) && (c <=? 8202))
   || (c =? 8232) || (c =? 8233) || (c =? 8239) || (c =? 8287)
   || (c =? 12288))%N.

Fixpoint lstrip (s : pystr) : pystr :=
  match s with
  | [] => []
  | c :: r => if is_py_space c then lstrip r else s
  end.

Definition strip (s : pystr) : pystr := rev (lstrip (rev (lstrip s))).

(** [x in l] for a list of strings. *)
Definition str_in (x : pystr) (l : list pystr) : bool :=
  existsb (pystr_eqb x) l.


(** How the client's [play_round] leaves its first loop. *)
Inductive client_turn_end :=
| ClientReturn (r : option pystr)
| ClientOver
| ClientAwait.

Module BlackjackClient.

(** A card as the client holds it: the rank and the suit character. *)
Definition card : Type := Z * pystr.

(** The local variables of [play_round]. *)
Record hands := mk_hands {
  player_cards : list card;
  dealer_visible_cards : list card;
  player_sum : Z;
  dealer_sum : Z
}.

(** The standard input, line by line, and what was done on the socket. *)
Record world := mk_world {
  stdin : list pystr;
  wire : list event
}.

Definition log (e : event) (w : world) : world :=
  mk_world (stdin w) (wire w ++ [e]).

(** [sum(get_card_value(r) for r, s in cards)] *)
Definition card_sum (cards : list card) : Z :=
  fold_left (fun acc c => acc + get_card_value (fst c)) cards 0.




(** [receive_card], given what [recv] does this time. *)
Definition receive_card (ev : recv_event) : option (Z * Z * pystr) :=
  match ev with
  | RecvData data =>
      match data with
      | [] => None
      | _ :: _ =>
          if (length data <? SERVER_PAYLOAD_SIZE)%nat then None
          else
            match unpack_server_payload data with
            | Ok payload => payload
            | Raise _ => None
            end
      end
  | RecvReset => None
  | RecvFail => None
  end.

Definition send_action (action : pystr) (w : world) : res world :=
  payload <- pack_client_payload action ;;
  Ok (log (EvSend payload) w).

(** [get_player_decision]: the first line that is a choice decides; at
    the end of the input the total does. *)
Fixpoint get_player_decision (player_sum : Z) (lines : list pystr)
    : pystr * list pystr :=
  match lines with
  | [] => (if player_sum >=? 17 then s_lit "stand" else s_lit "hit", [])
  | line :: rest =>
      let choice := lower (strip line) in
      if str_in choice [s_lit "h"; s_lit "hit"] then (s_lit "hit", rest)
      else if str_in choice [s_lit "s"; s_lit "stand"]
           then (s_lit "stand", rest)
      else get_player_decision player_sum rest
  end.

(** [player_cards.append((rank, suit))] and the new total, when
    [rank > 0]. *)
Definition take_player_card (rank : Z) (suit : pystr) (h : hands) : hands :=
  if rank >? 0 then
    let cards := player_cards h ++ [(rank, suit)] in
    mk_hands cards (dealer_visible_cards h) (card_sum cards) (dealer_sum h)
  else h.

Definition take_dealer_card (rank : Z) (suit : pystr) (h : hands) : hands :=
  if rank >? 0 then
    mk_hands (player_cards h) (dealer_visible_cards h ++ [(rank, suit)])
      (player_sum h) (dealer_sum h)
  else h.

Definition set_dealer_sum (h : hands) : hands :=
  mk_hands (player_cards h) (dealer_visible_cards h) (player_sum h)
    (card_sum (dealer_visible_cards h)).

(** [while player_sum < 21] of [play_round]. *)
Fixpoint player_loop (incoming : list recv_event) (w : world) (h : hands)
    : res (client_turn_end * list recv_event * world * hands) :=
  if player_sum h <? 21 then
    let '(action, lines) := get_player_decision (player_sum h) (stdin w) in
    match send_action action (mk_world lines (wire w)) with
    | Raise e => Raise e
    | Ok w =>
        match incoming with
        | [] => Ok (ClientAwait, [], w, h)
        | ev :: rest =>
            let w := log EvRecv w in
            if pystr_eqb action (s_lit "stand") then
              Ok (ClientOver, rest, w, h)
            else
              match receive_card ev with
              | None => Ok (ClientReturn None, rest, w, h)
              | Some (result, rank, suit) =>
                  let h := take_player_card rank suit h in
                  if result =? RESULT_LOSS then
                    Ok (ClientReturn (Some (s_lit "loss")), rest, w, h)
                  else if result =? RESULT_WIN then
                    Ok (ClientReturn (Some (s_lit "win")), rest, w, h)
                  else if result =? RESULT_TIE then
                    Ok (ClientReturn (Some (s_lit "tie")), rest, w, h)
                  else player_loop rest w h
              end
        end
    end
  else Ok (ClientOver, incoming, w, h).

(** [while result == RESULT_ROUND_NOT_OVER] of [play_round], and the
    final result. *)
Fixpoint dealer_loop (result : Z) (incoming : list recv_event) (w : world)
    (h : hands) : round_end * list recv_event * world * hands :=
  if result =? RESULT_ROUND_NOT_OVER then
    match incoming with
    | [] => (Waiting, [], w, h)
    | ev :: rest =>
        let w := log EvRecv w in
        match receive_card ev with
        | None => (Finished None, rest, w, h)
        | Some (result, rank, suit) =>
            let h :=
              if rank >? 0
              then set_dealer_sum (take_dealer_card rank suit h)
              else h in
            dealer_loop result rest w h
        end
    end
  else
    let r :=
      if result =? RESULT_WIN then s_lit "win"
      else if result =? RESULT_LOSS then s_lit "loss"
      else s_lit "tie" in
    (Finished (Some r), incoming, w, h).

(** [play_round] from "# Receive dealer's hidden card" on. *)
Definition dealer_phase (incoming : list recv_event) (w : world) (h : hands)
    : round_end * list recv_event * world * hands :=
  match incoming with
  | [] => (Waiting, [], w, h)
  | ev :: rest =>
      let w := log EvRecv w in
      match receive_card ev with
      | None => (Finished None, rest, w, h)
      | Some (result, rank, suit) =>
          let h := set_dealer_sum (take_dealer_card rank suit h) in
          dealer_loop result rest w h
      end
  end.

(** [n] cards received in a row, as at the start of [play_round]; a
    failed [receive_card] makes [play_round] return [None]. *)
Fixpoint receive_cards (n : nat) (incoming : list recv_event) (w : world)
    (cards : list card)
    : client_turn_end * list recv_event * world * list card :=
  match n with
  | O => (ClientOver, incoming, w, cards)
  | S n' =>
      match incoming with
      | [] => (ClientAwait, [], w, cards)
      | ev :: rest =>
          let w := log EvRecv w in
          match receive_card ev with
          | None => (ClientReturn None, rest, w, cards)
          | Some (result, rank, suit) =>
              receive_cards n' rest w (cards ++ [(rank, suit)])
          end
      end
  end.

Definition play_round (incoming : list recv_event) (w : world)
    : res (round_end * list recv_event * world * hands) :=
  let no_hands := mk_hands [] [] 0 0 in
  match receive_cards 2 incoming w [] with
  | (ClientAwait, incoming, w, _) => Ok (Waiting, incoming, w, no_hands)
  | (ClientReturn r, incoming, w, _) =>
      Ok (Finished r, incoming, w, no_hands)
  | (ClientOver, incoming, w, player_cards) =>
      match receive_cards 1 incoming w [] with
      | (ClientAwait, incoming, w, _) => Ok (Waiting, incoming, w, no_hands)
      | (ClientReturn r, incoming, w, _) =>
          Ok (Finished r, incoming, w, no_hands)
      | (ClientOver, incoming, w, dealer_visible_cards) =>
          let h :=
            mk_hands player_cards dealer_visible_cards
              (card_sum player_cards) 0 in
          match player_loop incoming w h with
          | Raise e => Raise e
          | Ok (ClientReturn r, incoming, w, h) =>
              Ok (Finished r, incoming, w, h)
          | Ok (ClientAwait, incoming, w, h) => Ok (Waiting, incoming, w, h)
          | Ok (ClientOver, incoming, w, h) => Ok (dealer_phase incoming w h)
          end
      end
  end.

(** The outcome of [play_game]: its return value, and the rounds won,
    lost and tied when it was left. *)
Inductive game_end :=
| GameOver (ok : bool) (wins losses ties : Z)
| GameWaiting.

(** The loop of [play_game] over the round numbers that are left. *)
Fixpoint play_rounds (rounds : list Z) (wins losses ties : Z)
    (incoming : list recv_event) (w : world)
    : game_end * list recv_event * world :=
  match rounds with
  | [] => (GameOver true wins losses ties, incoming, w)
  | _ :: rounds' =>
      match play_round incoming w with
      | Raise _ => (GameOver false wins losses ties, incoming, w)
      | Ok (Waiting, incoming, w, _) => (GameWaiting, incoming, w)
      | Ok (Finished None, incoming, w, _) =>
          (GameOver false wins losses ties, incoming, w)
      | Ok (Finished (Some result), incoming, w, _) =>
          if pystr_eqb result (s_lit "win") then
            play_rounds rounds' (wins + 1) losses ties incoming w
          else if pystr_eqb result (s_lit "loss") then
            play_rounds rounds' wins (losses + 1) ties incoming w
          else play_rounds rounds' wins losses (ties + 1) incoming w
      end
  end.

(** [play_game] once the connection is made: the request is sent and the
    rounds are played. *)
Definition play_game (team_name : pystr) (num_rounds : Z)
    (incoming : list recv_event) (w : world)
    : game_end * list recv_event * world :=
  match pack_request num_rounds team_name with
  | Raise _ => (GameOver false 0 0 0, incoming, w)
  | Ok request =>
      play_rounds (py_range 1 (num_rounds + 1)) 0 0 0 incoming
        (log (EvSend request) w)
  end.

End BlackjackClient.

(** [get_menu_choice] and the first loop of [run]: how many rounds to ask
    for.  [int] is Python's [int] on a string, which raises [ValueError]
    or returns; the end of the input is [EOFError]. *)
Module ClientMenu.

Section WithInt.
Variable int : pystr -> res Z.

(** The first loop of [run]: no input left, three rounds. *)
Fixpoint initial_rounds (lines : list pystr) : res (Z * list pystr) :=
  match lines with
  | [] => Ok (3, [])
  | line :: rest =>
      match int line with
      | Ok num_rounds =>
          if (1 <=? num_rounds) && (num_rounds <=? 255)
          then Ok (num_rounds, rest)
          else initial_rounds rest
      | Raise ValueError => initial_rounds rest
      | Raise e => Raise e
      end
  end.

(** The inner loop of [get_menu_choice]; [None] is [EOFError]. *)
Fixpoint ask_rounds (lines : list pystr) : res (option Z * list pystr) :=
  match lines with
  | [] => Ok (None, [])
  | line :: rest =>
      let rounds_input := strip line in
      let parsed :=
        if pystr_eqb rounds_input [] then Ok 3 else int rounds_input in
      match parsed with
      | Ok num_rounds =>
          if (1 <=? num_rounds) && (num_rounds <=? 255)
          then Ok (Some num_rounds, rest)
          else ask_rounds rest
      | Raise ValueError => ask_rounds rest
      | Raise e => Raise e
      end
  end.

Fixpoint get_menu_choice (lines : list pystr)
    : res (pystr * Z * list pystr) :=
  match lines with
  | [] => Ok (s_lit "quit", 0, [])
  | line :: rest =>
      let choice := lower (strip line) in
      if str_in choice [s_lit "q"; s_lit "quit"; s_lit "exit"] then
        Ok (s_lit "quit", 0, rest)
      else if str_in choice [s_lit "p"; s_lit "play"; []] then
        match ask_rounds rest with
        | Ok (Some num_rounds, rest') => Ok (s_lit "play", num_rounds, rest')
        | Ok (None, rest') => Ok (s_lit "quit", 0, rest')
        | Raise e => Raise e
        end
      else get_menu_choice rest
  end.

End WithInt.

End ClientMenu.

(* ================================================================== *)
(** ** Vocabulary of the statements

    Definitions the properties below are stated with; none of them is part
    of the program. *)

(** What [unpack] gives back for a packed argument: a ['ns'] field comes
    back cut or NUL-padded to [n] bytes. *)
Definition norm_val (it : fmt_item) (v : pyval) : pyval :=
  match it, v with
  | fmt_s n, VBytes b => VBytes (firstn n b ++ repeat x00 (n - length b))
  | _, _ => v
  end.

Fixpoint norm_vals (fmt : list fmt_item) (args : list pyval) : list pyval :=
  match fmt, args with
  | it :: fmt', v :: args' => norm_val it v :: norm_vals fmt' args'
  | _, _ => []
  end.

(** The name ends with the code point U+0000. *)
Definition ends_with_nul (s : pystr) : bool :=
  match rev s with
  | 0%N :: _ => true
  | _ => false
  end.

(** A name the 32-byte field can hold as it is: it has a UTF-8 form, of at
    most [NAME_LENGTH] bytes, and no trailing NUL. *)
Definition fits_name_field (name : pystr) : Prop :=
  exists enc, utf8_encode name = Ok enc
              /\ (length enc <= NAME_LENGTH)%nat
              /\ ends_with_nul name = false.

(** The text fields of a server payload as they come back: the two bytes
    of the rank go through [decode('ascii')] and [int], the suit byte
    through [decode('ascii')]. *)
Definition decode_card (rank_str suit_char : bytes) : res (Z * pystr) :=
  rank_text <-
    ascii_decode (firstn 2 rank_str ++ repeat x00 (2 - length rank_str)) ;;
  card_rank <- py_int rank_text ;;
  card_suit <-
    ascii_decode (firstn 1 suit_char ++ repeat x00 (1 - length suit_char)) ;;
  Ok (card_rank, card_suit).

(** The suit argument of [pack_server_payload] as bytes. *)
Definition suit_bytes (card_suit : suit_arg) : res bytes :=
  match card_suit with
  | SuitInt i => s <- py_index SUITS i ;; ascii_encode s
  | SuitStr s => ascii_encode s
  end.

(** The rank is written on two bytes and read back as the same number. *)
Definition rank_field_ok (r : Z) : bool :=
  match ascii_encode (format_02d r) with
  | Ok rs =>
      match
        (t <- ascii_decode (firstn 2 rs ++ repeat x00 (2 - length rs)) ;;
         py_int t)
      with
      | Ok v => (v =? r) && (length rs =? 2)%nat
      | Raise _ => false
      end
  | Raise _ => false
  end.

(** A team name with a two-byte, a three-byte and a four-byte character:
    "Byte" followed by U+00E9, U+20AC and U+1F0A1. *)
Definition sample_name : pystr :=
  s_lit "Byte" ++ [0xE9; 0x20AC; 0x1F0A1]%N.

(** Encoded messages: an offer for port 50000, a hit, a request for three
    rounds, and the queen of clubs sent with NOT_OVER. *)
Definition sample_offer : bytes :=
  Eval vm_compute in
    match pack_offer 50000 (s_lit "Byte the Dealer") with
    | Ok b => b
    | Raise _ => []
    end.

Definition sample_hit : bytes :=
  Eval vm_compute in
    match pack_client_payload (s_lit "hit") with
    | Ok b => b
    | Raise _ => []
    end.

Definition sample_request : bytes :=
  Eval vm_compute in
    match pack_request 3 (s_lit "Byte the Dealer") with
    | Ok b => b
    | Raise _ => []
    end.

Definition sample_card : bytes :=
  Eval vm_compute in
    match pack_server_payload 0 12 (SuitInt 2) with
    | Ok b => b
    | Raise _ => []
    end.

(** The five bytes every payload starts with: the magic cookie and the
    payload type. *)
Definition payload_header : bytes := [xab; xcd; xdc; xba; x04].

(** [c] is the lower-case ASCII letter [l] or its upper-case form. *)
Definition letter_ci (c l : N) : bool := ((c =? l) || (c =? l - 32))%N.

(** The string is "hit", in any mix of upper and lower case. *)
Definition is_hit_ci (action : pystr) : bool :=
  match action with
  | [c1; c2; c3] =>
      letter_ci c1 104 && letter_ci c2 105 && letter_ci c3 116
  | _ => false
  end.

(** The [len] bytes of [data] from offset [off]. *)
Definition fld (off len : nat) (data : bytes) : bytes :=
  firstn len (skipn off data).

Definition too_short (n : nat) (data : bytes) : Prop := (length data < n)%nat.

Definition bad_magic (data : bytes) : Prop :=
  be_int (fld 0 4 data) <> MAGIC_COOKIE.

Definition bad_type (msg_type : Z) (data : bytes) : Prop :=
  be_int (fld 4 1 data) <> msg_type.

(** The rank field as the decoder reads it. *)
Definition parse_rank (rank_bytes : bytes) : res Z :=
  t <- ascii_decode rank_bytes ;; py_int t.

Definition is_ok {A} (r : res A) : bool :=
  match r with
  | Ok _ => true
  | Raise _ => false
  end.

Definition is_sign (c : N) : bool := ((c =? 43) || (c =? 45))%N.

(** The two-byte rank fields that [int] accepts: two digits, or one digit
    after a sign or a white-space byte, or one digit before a white-space
    byte. *)
Definition rank_field_accepted (rank_bytes : bytes) : bool :=
  match rank_bytes with
  | [a; b] =>
      let a := Byte.to_N a in
      let b := Byte.to_N b in
      (is_digit a && is_digit b)
      || ((is_sign a || is_space a) && is_digit b)
      || (is_digit a && is_space b)
  | _ => false
  end.

(** The rank field is a pair of ASCII digits. *)
Definition is_digit_pair (rank_bytes : bytes) : bool :=
  match rank_bytes with
  | [a; b] => is_digit (Byte.to_N a) && is_digit (Byte.to_N b)
  | _ => false
  end.

(** The suit byte is the ASCII form of one of [SUITS]. *)
Definition is_suit_symbol (suit_byte : bytes) : bool :=
  existsb (fun s => match ascii_encode s with
                    | Ok e => bytes_eqb e suit_byte
                    | Raise _ => false
                    end) SUITS.

Definition is_ascii_bytes (b : bytes) : bool :=
  forallb (fun x => (Byte.to_N x <? 0x80)%N) b.

Definition all_bytes : list byte :=
  map (fun n => byte_of_N (N.of_nat n)) (seq 0 256).

(** A server payload whose suit byte is "X", and one whose rank field is
    "+7": neither is rejected. *)
Definition payload_suit_X : bytes := payload_header ++ [x00] ++ b_lit "05X".

Definition payload_rank_plus7 : bytes :=
  payload_header ++ [x00] ++ b_lit "+7H".

(** The sum of the values of the cards, the first card first. *)
Definition hand_value (cards : list card) : Z :=
  fold_right (fun c acc => get_card_value (fst c) + acc) 0 cards.

(** Cards as numbers, to tell them apart by computation. *)
Definition card_code (c : card) : Z :=
  match snd c with
  | SuitInt i => fst c * 4 + i
  | SuitStr _ => -1
  end.

Fixpoint nodupb (l : list Z) : bool :=
  match l with
  | [] => true
  | x :: r => negb (existsb (Z.eqb x) r) && nodupb r
  end.

(** A deterministic stand-in for [random.shuffle]: the list reversed on
    even calls and unchanged on odd ones. *)
Definition flip_shuffle (n : nat) (l : list card) : list card :=
  if Nat.even n then rev l else l.

(** The payload that carries [c] with the result code [result]. *)
Definition card_payload (result : Z) (c : card) : bytes :=
  match pack_server_payload result (fst c) (snd c) with
  | Ok b => b
  | Raise _ => []
  end.

(** The "no card" of acknowledgements and of the final result. *)
Definition no_card : card := (0, SuitStr (s_lit "H")).

(** The event of sending [c] with the result code [result]. *)
Definition sent (result : Z) (c : card) : event :=
  EvSend (card_payload result c).

(** Every card left in the deck is one of the 52. *)
Definition deck_ok (d : Deck.t) : Prop :=
  Forall (fun c => In c full_deck) (Deck.cards d).

(** Cards by suit, in the order of [SUITS]: hearts, diamonds, clubs,
    spades. *)
Definition card_H (rank : Z) : card := (rank, SuitInt 0).

Definition card_D (rank : Z) : card := (rank, SuitInt 1).

Definition card_C (rank : Z) : card := (rank, SuitInt 2).

Definition card_S (rank : Z) : card := (rank, SuitInt 3).

(** The state of a game before its first round. *)
Definition new_game : BlackjackGame.t :=
  BlackjackGame.mk (Deck.mk [] 0) [] [] 0 0 [].

(** The player stands on 19 with the ten of spades and the nine of
    diamonds; the dealer shows the six of clubs over the five of hearts,
    and the eight of diamonds is the next card of the deck. *)
Definition stand_on_19 : BlackjackGame.t :=
  BlackjackGame.mk (Deck.mk [card_D 8] 1)
    [card_S 10; card_D 9] [card_C 6; card_H 5] 19 0 [].

(** The same, once the hole card is revealed. *)
Definition dealer_on_11 : BlackjackGame.t :=
  BlackjackGame.mk (Deck.mk [card_D 8] 1)
    [card_S 10; card_D 9] [card_C 6; card_H 5] 19 11 [].

(** The player holds 15 and the seven of diamonds is the next card. *)
Definition player_on_15 : BlackjackGame.t :=
  BlackjackGame.mk (Deck.mk [card_C 2; card_D 7] 1)
    [card_S 10; card_H 5] [card_C 6; card_H 9] 15 0 [].

(** The player holds 21 on two cards, and so does the dealer. *)
Definition both_on_21 : BlackjackGame.t :=
  BlackjackGame.mk (Deck.mk [card_C 2] 1)
    [card_H 1; card_C 13] [card_S 13; card_D 1] 21 0 [].

(** The bytes an offer and a request start with. *)
Definition offer_header : bytes := [xab; xcd; xdc; xba; x02].

Definition request_header : bytes := [xab; xcd; xdc; xba; x03].

(** What the decoder makes of the rank field written for [r]. *)
Definition rank_decoded (r : Z) : option Z :=
  match ascii_encode (format_02d r) with
  | Ok rs =>
      match parse_rank (firstn 2 rs ++ repeat x00 (2 - length rs)) with
      | Ok v => Some v
      | Raise _ => None
      end
  | Raise _ => None
  end.

Definition rank_decodes_to (f : Z -> Z) (r : Z) : bool :=
  match rank_decoded r with
  | Some v => v =? f r
  | None => false
  end.

(** The rank that comes back for a rank from -99 to 9999 sent as it is:
    the field holds the first two characters of its decimal form. *)
Definition rank_on_wire (r : Z) : Z :=
  if r <? -9 then - (- r / 10)
  else if r <? 100 then r
  else if r <? 1000 then r / 10
  else r / 100.

(** A code point that has a UTF-8 form: any but a surrogate. *)
Definition has_utf8 (c : N) : bool :=
  ((c <? 0x110000) && negb (is_surrogate c))%N.

(** The suit of a card as a character, and the card as it travels: the
    rank with the suit character. *)
Definition suit_char (c : card) : pystr :=
  match snd c with
  | SuitInt i => nth (Z.to_nat (i mod 4)) SUITS []
  | SuitStr s => s
  end.

Definition wire_card (c : card) : BlackjackClient.card :=
  (fst c, suit_char c).

(** The payloads sent, in order, among the events of a socket, and a list
    of payloads as the other side receives them, one for each [recv]. *)
Definition sends (l : list event) : list bytes :=
  flat_map (fun e => match e with
                     | EvSend p => [p]
                     | EvRecv => []
                     end) l.

Definition as_received (l : list bytes) : list recv_event :=
  map RecvData l.

(** What a round added to the events of a socket. *)
Definition added {A} (before after : list A) : list A :=
  skipn (length before) after.

(** A card of the deck, or no card. *)
Definition card_or_none (c : card) : Prop := In c full_deck \/ c = no_card.

(** An event of the server's side of a round: a [recv], or a card of the
    deck or no card sent with one of the four result codes. *)
Definition server_event (e : event) : Prop :=
  e = EvRecv
  \/ exists code c, e = sent code c /\ 0 <= code <= 3 /\ card_or_none c.

(** Deck and hands together hold the 52 cards, each once. *)
Definition cards_accounted (g : BlackjackGame.t) : Prop :=
  Permutation
    (Deck.cards (BlackjackGame.deck g)
     ++ BlackjackGame.player_cards g ++ BlackjackGame.dealer_cards g)
    full_deck.


(** The state of a game in a round that began with the [k]-th shuffle:
    deck and hands hold the 52 cards, the deck has been shuffled [k] times,
    the player's total is the sum of the player's cards, and the totals are
    what a hand can reach. *)
Definition in_round (k : nat) (g : BlackjackGame.t) : Prop :=
  cards_accounted g
  /\ Deck.shuffles (BlackjackGame.deck g) = k
  /\ BlackjackGame.player_sum g
     = BlackjackGame.calculate_sum (BlackjackGame.player_cards g)
  /\ BlackjackGame.player_sum g <= 31
  /\ BlackjackGame.calculate_sum (BlackjackGame.dealer_cards g) <= 27.

(** The state after a hit that drew [c] and left [rest] in the deck. *)
Definition after_hit (c : card) (rest : list card) (g : BlackjackGame.t)
    : BlackjackGame.t :=
  BlackjackGame.set_player_sum
    (BlackjackGame.calculate_sum (BlackjackGame.player_cards g ++ [c]))
    (BlackjackGame.set_player_cards (BlackjackGame.player_cards g ++ [c])
       (BlackjackGame.set_deck
          (Deck.mk rest (Deck.shuffles (BlackjackGame.deck g)))
          (BlackjackGame.log EvRecv g))).

(** The state after the dealer drew [c] and left [rest] in the deck. *)
Definition after_dealer_draw (c : card) (rest : list card)
    (g : BlackjackGame.t) : BlackjackGame.t :=
  BlackjackGame.log (sent RESULT_ROUND_NOT_OVER c)
    (BlackjackGame.set_dealer_sum
       (BlackjackGame.calculate_sum (BlackjackGame.dealer_cards g ++ [c]))
       (BlackjackGame.set_dealer_cards (BlackjackGame.dealer_cards g ++ [c])
          (BlackjackGame.set_deck
             (Deck.mk rest (Deck.shuffles (BlackjackGame.deck g))) g))).

(** A payload of the server as the client expects it: nine bytes that
    decode to a result code, a rank from 0 to 13 and one of the four
    suits. *)
Definition card_message (p : bytes) : Prop :=
  length p = SERVER_PAYLOAD_SIZE
  /\ exists code rank suit,
       unpack_server_payload p = Ok (Some (code, rank, suit))
       /\ 0 <= code <= 3 /\ 0 <= rank <= 13 /\ In suit SUITS.

(** What [recv] yields when it does not yield an action: an exception, or
    data that is no client payload. *)
Definition no_action (ev : recv_event) : Prop :=
  match ev with
  | RecvData data =>
      too_short CLIENT_PAYLOAD_SIZE data \/ bad_magic data
      \/ bad_type MSG_TYPE_PAYLOAD data
      \/ (fld 5 5 data <> ACTION_HIT /\ fld 5 5 data <> ACTION_STAND)
  | RecvReset | RecvFail => True
  end.

(** What [recv] yields when it does not yield a request. *)
Definition no_request (ev : recv_event) : Prop :=
  match ev with
  | RecvData data =>
      too_short REQUEST_SIZE data \/ bad_magic data
      \/ bad_type MSG_TYPE_REQUEST data
  | RecvReset | RecvFail => True
  end.

(** The rounds counted in the statistics. *)
Definition rounds_counted (s : BlackjackGame.tally) : Z :=
  let '(wins, losses, ties) := s in wins + losses + ties.

(** No count of [s] is above the one of [s']. *)
Definition tally_le (s s' : BlackjackGame.tally) : Prop :=
  let '(wins, losses, ties) := s in
  let '(wins', losses', ties') := s' in
  wins <= wins' /\ losses <= losses' /\ ties <= ties'.

(** The payload that carries the action [a]. *)
Definition action_payload (a : pystr) : bytes :=
  match pack_client_payload a with
  | Ok b => b
  | Raise _ => []
  end.

(** The client holds the player's hand of the server. *)
Definition hands_agree (h : BlackjackClient.hands) (g : BlackjackGame.t)
    : Prop :=
  BlackjackClient.player_cards h
  = map wire_card (BlackjackGame.player_cards g)
  /\ BlackjackClient.player_sum h = BlackjackGame.player_sum g.

(** The result a final code stands for at the client. *)
Definition result_name (code : Z) : pystr :=
  if code =? RESULT_WIN then s_lit "win"
  else if code =? RESULT_LOSS then s_lit "loss"
  else s_lit "tie".

(** A line that is a choice of the player: hit, or stand. *)
Definition says_hit (line : pystr) : bool :=
  str_in (lower (strip line)) [s_lit "h"; s_lit "hit"].

Definition says_stand (line : pystr) : bool :=
  str_in (lower (strip line)) [s_lit "s"; s_lit "stand"].



(** A payload of the client: the header and one of the two actions. *)
Definition action_message (p : bytes) : Prop :=
  p = payload_header ++ ACTION_HIT \/ p = payload_header ++ ACTION_STAND.

(** [l'] is what is left of [l]. *)
Definition rest_of {A} (l l' : list A) : Prop := exists used, l = used ++ l'.

(** A game whose next shuffle leaves the deck in order: the round is
    dealt from the kings down, 20 against 20. *)
Definition kings_game : BlackjackGame.t :=
  BlackjackGame.mk (Deck.mk [] 1) [] [] 0 0 [].

(** What the server does in that round when the player stands, and what
    it does in a round dealt from the aces down. *)
Definition kings_round : list event :=
  [sent RESULT_ROUND_NOT_OVER (card_S 13);
   sent RESULT_ROUND_NOT_OVER (card_C 13);
   sent RESULT_ROUND_NOT_OVER (card_D 13);
   EvRecv;
   sent RESULT_ROUND_NOT_OVER no_card;
   sent RESULT_ROUND_NOT_OVER (card_H 13);
   sent RESULT_TIE no_card].

Definition aces_round : list event :=
  [sent RESULT_ROUND_NOT_OVER (card_H 1);
   sent RESULT_ROUND_NOT_OVER (card_D 1);
   sent RESULT_ROUND_NOT_OVER (card_C 1);
   sent RESULT_ROUND_NOT_OVER (card_S 1);
   sent RESULT_WIN no_card].

(** What the client does in a round in which it stands at once. *)
Definition stand_round : list event :=
  [EvRecv; EvRecv; EvRecv; EvSend (action_payload (s_lit "stand"));
   EvRecv; EvRecv; EvRecv].

(** The end of the round of kings on both sides. *)
Definition kings_game_end : BlackjackGame.t :=
  BlackjackGame.mk (Deck.mk (firstn 48 full_deck) 2)
    [card_S 13; card_C 13] [card_D 13; card_H 13] 20 20 kings_round.

Definition kings_hands : BlackjackClient.hands :=
  BlackjackClient.mk_hands
    [(13, s_lit "S"); (13, s_lit "C")] [(13, s_lit "D"); (13, s_lit "H")]
    20 20.

(** A game of three rounds on both sides: kings, aces, kings. *)
Definition demo_server_wire : list event :=
  EvRecv :: kings_round ++ aces_round ++ kings_round.

Definition demo_client_wire : list event :=
  EvSend sample_request :: stand_round ++ repeat EvRecv 5 ++ stand_round.

Definition demo_lines : list pystr :=
  [s_lit "s"; s_lit "x"; s_lit " Stand "].


(** What [recv] yields when it does not yield a card payload: an
    exception, or data that the decoder of server payloads rejects. *)
Definition no_card_message (ev : recv_event) : Prop :=
  match ev with
  | RecvData data =>
      too_short SERVER_PAYLOAD_SIZE data \/ bad_magic data
      \/ bad_type MSG_TYPE_PAYLOAD data
      \/ rank_field_accepted (fld 6 2 data) = false
      \/ is_ascii_bytes (fld 8 1 data) = false
  | RecvReset | RecvFail => True
  end.

(* ================================================================== *)
(** * Properties *)

Lemma Ok_inj {A} (a b : A) : Ok a = Ok b -> a = b.
Proof. now intros [= ->]. Qed.

(** ** Bytes and big-endian integers *)

Lemma to_N_byte_of_N (n : N) : (n < 256)%N -> Byte.to_N (byte_of_N n) = n.
Proof.
  intros Hn. unfold byte_of_N. rewrite N.mod_small by exact Hn.
  destruct (Byte.of_N n) as [b|] eqn:E.
  - now apply Byte.to_of_N.
  - apply Byte.of_N_None_iff in E. lia.
Qed.

Lemma byte_of_N_to_N (b : byte) : byte_of_N (Byte.to_N b) = b.
Proof.
  unfold byte_of_N.
  rewrite N.mod_small by (pose proof (Byte.to_N_bounded b); lia).
  now rewrite Byte.of_to_N.
Qed.

Lemma Z_of_byte_range (b : byte) : 0 <= Z_of_byte b < 256.
Proof. unfold Z_of_byte. pose proof (Byte.to_N_bounded b). lia. Qed.

Lemma Z_of_byte_of_Z (z : Z) : Z_of_byte (byte_of_Z z) = z mod 256.
Proof.
  unfold Z_of_byte, byte_of_Z.
  pose proof (Z.mod_pos_bound z 256 ltac:(lia)).
  rewrite to_N_byte_of_N by lia. lia.
Qed.

Lemma be_int_snoc (l : bytes) (x : byte) :
  be_int (l ++ [x]) = be_int l * 256 + Z_of_byte x.
Proof. unfold be_int. now rewrite fold_left_app. Qed.

Lemma be_bytes_length (n : nat) (z : Z) : length (be_bytes n z) = n.
Proof.
  revert z. induction n as [|n IH]; intros z; simpl; [reflexivity|].
  rewrite length_app, IH. simpl. lia.
Qed.

Lemma be_int_be_bytes (n : nat) (z : Z) :
  0 <= z < 256 ^ Z.of_nat n -> be_int (be_bytes n z) = z.
Proof.
  revert z. induction n as [|n IH]; intros z Hz.
  - simpl in *. unfold be_int. simpl. lia.
  - cbn [be_bytes]. rewrite be_int_snoc, Z_of_byte_of_Z.
    rewrite Nat2Z.inj_succ, Z.pow_succ_r in Hz by lia.
    rewrite IH.
    + pose proof (Z.div_mod z 256 ltac:(lia)). lia.
    + split.
      * apply Z.div_pos; lia.
      * apply Z.div_lt_upper_bound; lia.
Qed.

(** ** [struct.pack] followed by [struct.unpack] *)

Lemma pack_item_ok (it : fmt_item) (v : pyval) (b : bytes) :
  pack_item it v = Ok b ->
  length b = item_size it /\ unpack_item it b = norm_val it v.
Proof.
  assert (HI : forall n z, pack_uint n z = Ok b ->
              length b = n /\ VInt (be_int b) = VInt z).
  { intros n z. unfold pack_uint.
    destruct ((0 <=? z) && (z <? 256 ^ Z.of_nat n)) eqn:E; [|discriminate].
    intros [= <-]. apply andb_prop in E as [E1 E2].
    apply Z.leb_le in E1. apply Z.ltb_lt in E2.
    split; [apply be_bytes_length|]. now rewrite be_int_be_bytes. }
  destruct it, v; simpl; try discriminate; try apply HI.
  intros [= <-]. split; [|reflexivity].
  rewrite length_app, repeat_length, length_firstn. lia.
Qed.

Lemma struct_pack_ok (fmt : list fmt_item) :
  forall (args : list pyval) (b : bytes),
    struct_pack fmt args = Ok b ->
    length b = calcsize fmt /\ unpack_items fmt b = norm_vals fmt args.
Proof.
  induction fmt as [|it fmt IH]; intros [|v args] b; simpl; try discriminate.
  - intros [= <-]. now split.
  - destruct (pack_item it v) as [bi|] eqn:Ei; simpl; [|discriminate].
    destruct (struct_pack fmt args) as [br|] eqn:Er; simpl; [|discriminate].
    intros [= <-].
    destruct (pack_item_ok _ _ _ Ei) as [Hl Hu].
    destruct (IH _ _ Er) as [Hl' Hu'].
    unfold calcsize in *. simpl. rewrite length_app. split; [lia|].
    rewrite <- Hl.
    rewrite firstn_app, Nat.sub_diag, firstn_all, firstn_O, app_nil_r.
    rewrite skipn_app, Nat.sub_diag, skipn_all, skipn_O. simpl.
    now rewrite Hu, Hu'.
Qed.

(** Decoding looks at the first [calcsize fmt] bytes only. *)
Lemma struct_unpack_prefix (fmt : list fmt_item) (args : list pyval)
    (b s : bytes) :
  struct_pack fmt args = Ok b ->
  struct_unpack fmt (firstn (calcsize fmt) (b ++ s))
  = Ok (norm_vals fmt args).
Proof.
  intros H. destruct (struct_pack_ok _ _ _ H) as [Hl Hu].
  rewrite <- Hl, firstn_app, Nat.sub_diag, firstn_all, firstn_O, app_nil_r.
  unfold struct_unpack. rewrite Hl, Nat.eqb_refl. now rewrite Hu.
Qed.

(** ** UTF-8 *)

Local Ltac n_test :=
  repeat match goal with
  | |- context [(?a <? ?b)%N] =>
      first [ rewrite (proj2 (N.ltb_lt a b)) by lia
            | rewrite (proj2 (N.ltb_ge a b)) by lia ]
  | |- context [(?a <=? ?b)%N] =>
      first [ rewrite (proj2 (N.leb_le a b)) by lia
            | rewrite (proj2 (N.leb_gt a b)) by lia ]
  | |- context [(?a =? ?b)%N] =>
      first [ rewrite (proj2 (N.eqb_eq a b)) by lia
            | rewrite (proj2 (N.eqb_neq a b)) by lia ]
  end.

Local Ltac and_false :=
  match goal with
  | |- context [(?a && ?b)%bool] =>
      let G := fresh "G" in
      destruct (a && b)%bool eqn:G;
      [ exfalso; apply andb_prop in G as [? ?];
        repeat match goal with
        | H : (_ =? _)%N = true |- _ => apply N.eqb_eq in H
        | H : (_ <? _)%N = true |- _ => apply N.ltb_lt in H
        | H : (_ <=? _)%N = true |- _ => apply N.leb_le in H
        end; lia
      | ]
  end.

Lemma utf8_decode_1 (x : byte) (r : bytes) :
  (Byte.to_N x < 0x80)%N ->
  utf8_decode_ignore (x :: r) = Byte.to_N x :: utf8_decode_ignore r.
Proof. intros H. cbn [utf8_decode_ignore]. now n_test. Qed.

Lemma utf8_decode_2 (x1 x2 : byte) (r : bytes) :
  (0xC2 <= Byte.to_N x1 < 0xE0)%N ->
  (0x80 <= Byte.to_N x2 < 0xC0)%N ->
  utf8_decode_ignore (x1 :: x2 :: r)
  = ((Byte.to_N x1 - 0xC0) * 64 + (Byte.to_N x2 - 0x80))%N
      :: utf8_decode_ignore r.
Proof.
  intros H1 H2. remember (x2 :: r) as r1 eqn:E.
  cbn [utf8_decode_ignore]. n_test. subst r1. cbv beta iota.
  unfold is_cont. now n_test.
Qed.

Lemma utf8_decode_3 (x1 x2 x3 : byte) (r : bytes) :
  (0xE0 <= Byte.to_N x1 < 0xF0)%N ->
  (0x80 <= Byte.to_N x2 < 0xC0)%N ->
  (0x80 <= Byte.to_N x3 < 0xC0)%N ->
  (Byte.to_N x1 = 0xE0 -> 0xA0 <= Byte.to_N x2)%N ->
  (Byte.to_N x1 = 0xED -> Byte.to_N x2 < 0xA0)%N ->
  utf8_decode_ignore (x1 :: x2 :: x3 :: r)
  = ((Byte.to_N x1 - 0xE0) * 4096 + (Byte.to_N x2 - 0x80) * 64
     + (Byte.to_N x3 - 0x80))%N :: utf8_decode_ignore r.
Proof.
  intros H1 H2 H3 H4 H5. remember (x2 :: x3 :: r) as r1 eqn:E.
  cbn [utf8_decode_ignore]. n_test. subst r1. cbv beta iota.
  unfold is_cont. n_test. cbn [andb negb orb].
  and_false. and_false. reflexivity.
Qed.

Lemma utf8_decode_4 (x1 x2 x3 x4 : byte) (r : bytes) :
  (0xF0 <= Byte.to_N x1 < 0xF5)%N ->
  (0x80 <= Byte.to_N x2 < 0xC0)%N ->
  (0x80 <= Byte.to_N x3 < 0xC0)%N ->
  (0x80 <= Byte.to_N x4 < 0xC0)%N ->
  (Byte.to_N x1 = 0xF0 -> 0x90 <= Byte.to_N x2)%N ->
  (Byte.to_N x1 = 0xF4 -> Byte.to_N x2 < 0x90)%N ->
  utf8_decode_ignore (x1 :: x2 :: x3 :: x4 :: r)
  = ((Byte.to_N x1 - 0xF0) * 262144 + (Byte.to_N x2 - 0x80) * 4096
     + (Byte.to_N x3 - 0x80) * 64 + (Byte.to_N x4 - 0x80))%N
      :: utf8_decode_ignore r.
Proof.
  intros H1 H2 H3 H4 H5 H6. remember (x2 :: x3 :: x4 :: r) as r1 eqn:E.
  cbn [utf8_decode_ignore]. n_test. subst r1. cbv beta iota.
  unfold is_cont. n_test. cbn [andb negb orb].
  and_false. and_false. reflexivity.
Qed.

Lemma utf8_decode_encode_cp (c : N) (b rest : bytes) :
  utf8_encode_cp c = Ok b ->
  utf8_decode_ignore (b ++ rest) = c :: utf8_decode_ignore rest.
Proof.
  unfold utf8_encode_cp, is_surrogate.
  destruct (c <? 0x80)%N eqn:E1.
  { intros Hb; apply Ok_inj in Hb; subst b. apply N.ltb_lt in E1. rewrite <- !app_comm_cons, app_nil_l.
    rewrite utf8_decode_1; rewrite to_N_byte_of_N by lia; [reflexivity|lia]. }
  apply N.ltb_ge in E1.
  assert (c / 4096 = c / 64 / 64)%N as Hd
    by (rewrite N.Div0.div_div; reflexivity).
  assert (c / 262144 = c / 64 / 64 / 64)%N as Hd'
    by (rewrite !N.Div0.div_div; reflexivity).
  rewrite Hd, Hd'. clear Hd Hd'.
  pose proof (N.div_mod c 64 ltac:(lia)) as D1.
  pose proof (N.mod_lt c 64 ltac:(lia)) as M1.
  pose proof (N.div_mod (c / 64) 64 ltac:(lia)) as D2.
  pose proof (N.mod_lt (c / 64) 64 ltac:(lia)) as M2.
  pose proof (N.div_mod (c / 64 / 64) 64 ltac:(lia)) as D3.
  pose proof (N.mod_lt (c / 64 / 64) 64 ltac:(lia)) as M3.
  remember (c / 64 / 64 / 64)%N as q3.
  remember ((c / 64 / 64) mod 64)%N as m3.
  remember (c / 64 / 64)%N as q2.
  remember ((c / 64) mod 64)%N as m2.
  remember (c / 64)%N as q1.
  remember (c mod 64)%N as m1.
  destruct (c <? 0x800)%N eqn:E2.
  { intros Hb; apply Ok_inj in Hb; subst b. apply N.ltb_lt in E2. rewrite <- !app_comm_cons, app_nil_l.
    rewrite utf8_decode_2; rewrite !to_N_byte_of_N by lia; try lia.
    f_equal. lia. }
  apply N.ltb_ge in E2.
  destruct (c <? 0x10000)%N eqn:E3.
  { apply N.ltb_lt in E3.
    destruct ((0xD800 <=? c)%N && (c <=? 0xDFFF)%N) eqn:E4; [discriminate|].
    intros Hb; apply Ok_inj in Hb; subst b. rewrite <- !app_comm_cons, app_nil_l.
    assert (Hs : (c < 0xD800 \/ 0xDFFF < c)%N).
    { apply andb_false_iff in E4 as [E4|E4]; apply N.leb_gt in E4; lia. }
    rewrite utf8_decode_3; rewrite !to_N_byte_of_N by lia; try lia.
    f_equal. lia. }
  apply N.ltb_ge in E3.
  destruct (c <? 0x110000)%N eqn:E4; [|discriminate].
  apply N.ltb_lt in E4. intros Hb; apply Ok_inj in Hb; subst b. rewrite <- !app_comm_cons, app_nil_l.
  rewrite utf8_decode_4; rewrite !to_N_byte_of_N by lia; try lia.
  f_equal. lia.
Qed.

Lemma utf8_decode_encode (s : pystr) :
  forall enc, utf8_encode s = Ok enc -> utf8_decode_ignore enc = s.
Proof.
  induction s as [|c s IH]; intros enc; simpl.
  - now intros [= <-].
  - destruct (utf8_encode_cp c) as [b|] eqn:Ec; simpl; [|discriminate].
    destruct (utf8_encode s) as [r|] eqn:Er; simpl; [|discriminate].
    intros [= <-]. rewrite (utf8_decode_encode_cp _ _ _ Ec).
    f_equal. now apply IH.
Qed.

Lemma utf8_encode_app (a b : pystr) :
  utf8_encode (a ++ b)
  = (ea <- utf8_encode a ;; eb <- utf8_encode b ;; Ok (ea ++ eb)).
Proof.
  induction a as [|c a IH]; simpl.
  - destruct (utf8_encode b); reflexivity.
  - destruct (utf8_encode_cp c) as [bc|]; simpl; [|reflexivity].
    rewrite IH. destruct (utf8_encode a) as [ea|]; simpl; [|reflexivity].
    destruct (utf8_encode b) as [eb|]; simpl; [|reflexivity].
    now rewrite app_assoc.
Qed.

Lemma byte_of_N_nonzero (n : N) : (0 < n < 256)%N -> byte_of_N n <> x00.
Proof.
  intros Hn E. apply (f_equal Byte.to_N) in E.
  rewrite to_N_byte_of_N in E by lia. cbn in E. lia.
Qed.

(** The UTF-8 form of a code point other than U+0000 ends with a byte
    other than NUL. *)
Lemma utf8_encode_cp_last (c : N) (bc : bytes) :
  utf8_encode_cp c = Ok bc -> c <> 0%N ->
  exists l x, bc = l ++ [x] /\ x <> x00.
Proof.
  unfold utf8_encode_cp. intros H Hc.
  pose proof (N.mod_lt c 64 ltac:(lia)) as M. remember (c mod 64)%N as m.
  destruct (c <? 0x80)%N eqn:E1.
  { apply N.ltb_lt in E1. apply Ok_inj in H. subst bc.
    exists [], (byte_of_N c). split; [reflexivity|].
    apply byte_of_N_nonzero. lia. }
  destruct (c <? 0x800)%N.
  { apply Ok_inj in H. subst bc. eexists [_], _. split; [reflexivity|].
    apply byte_of_N_nonzero. lia. }
  destruct (c <? 0x10000)%N.
  { destruct (is_surrogate c); [discriminate|].
    apply Ok_inj in H. subst bc. eexists [_; _], _. split; [reflexivity|].
    apply byte_of_N_nonzero. lia. }
  destruct (c <? 0x110000)%N; [|discriminate].
  apply Ok_inj in H. subst bc. eexists [_; _; _], _. split; [reflexivity|].
  apply byte_of_N_nonzero. lia.
Qed.

(** ** Names: [pad_name] and [unpad_name] *)

Lemma rstrip_snoc_same (c : byte) (l : bytes) :
  rstrip c (l ++ [c]) = rstrip c l.
Proof.
  induction l as [|x l IH]; simpl.
  - now rewrite (Byte.byte_dec_lb eq_refl).
  - now rewrite IH.
Qed.

Lemma rstrip_repeat (c : byte) (l : bytes) (k : nat) :
  rstrip c (l ++ repeat c k) = rstrip c l.
Proof.
  revert l. induction k as [|k IH]; intros l; simpl.
  - now rewrite app_nil_r.
  - change (c :: repeat c k) with ([c] ++ repeat c k).
    now rewrite app_assoc, IH, rstrip_snoc_same.
Qed.

Lemma rstrip_snoc_other (c x : byte) (l : bytes) :
  x <> c -> rstrip c (l ++ [x]) = l ++ [x].
Proof.
  intros Hx. induction l as [|y l IH]; simpl.
  - destruct (Byte.eqb x c) eqn:E; [|reflexivity].
    apply Byte.byte_dec_bl in E. contradiction.
  - rewrite IH. now destruct l.
Qed.

Lemma rstrip_utf8_encode (s : pystr) (enc : bytes) :
  utf8_encode s = Ok enc -> ends_with_nul s = false ->
  rstrip x00 enc = enc.
Proof.
  destruct s as [|c s] using rev_ind.
  - simpl. intros H _. apply Ok_inj in H. now subst enc.
  - clear IHs. unfold ends_with_nul. rewrite rev_unit, utf8_encode_app.
    destruct (utf8_encode s) as [es|]; simpl; [|discriminate].
    destruct (utf8_encode_cp c) as [bc|] eqn:Ec; simpl; [|discriminate].
    intros H Hc. apply Ok_inj in H. subst enc.
    assert (c <> 0%N) as Hc' by (intros ->; discriminate).
    destruct (utf8_encode_cp_last _ _ Ec Hc') as (l & x & -> & Hx).
    rewrite app_nil_r, app_assoc. now apply rstrip_snoc_other.
Qed.

Lemma unpad_pad_name (name : pystr) :
  fits_name_field name ->
  exists p, pad_name name = Ok p
            /\ length p = NAME_LENGTH
            /\ unpad_name p = name.
Proof.
  intros (enc & He & Hl & Hn). unfold pad_name, unpad_name, ljust.
  rewrite He. unfold bind. rewrite firstn_all2 by exact Hl.
  eexists. split; [reflexivity|]. split.
  - rewrite length_app, repeat_length. lia.
  - rewrite rstrip_repeat, (rstrip_utf8_encode _ _ He Hn).
    now apply utf8_decode_encode.
Qed.

Lemma pad_name_length (name : pystr) (p : bytes) :
  pad_name name = Ok p -> length p = NAME_LENGTH.
Proof.
  unfold pad_name, ljust.
  destruct (utf8_encode name) as [enc|]; unfold bind; [|discriminate].
  intros H. apply Ok_inj in H. subst p.
  rewrite length_app, repeat_length, length_firstn. lia.
Qed.

(** ** Decoding what was encoded, whatever follows it *)

Lemma norm_name (p : bytes) :
  length p = NAME_LENGTH ->
  firstn 32 p ++ repeat x00 (32 - length p) = p.
Proof.
  intros H. rewrite H. change (32 - NAME_LENGTH)%nat with 0%nat.
  rewrite firstn_all2 by (rewrite H; apply Nat.le_refl).
  apply app_nil_r.
Qed.

Lemma long_enough (b s : bytes) (n : nat) :
  length b = n -> (length (b ++ s) <? n)%nat = false.
Proof. intros H. apply Nat.ltb_ge. rewrite length_app. lia. Qed.

Lemma unpack_offer_pack (tcp_port : Z) (name : pystr) (b s : bytes) :
  pack_offer tcp_port name = Ok b ->
  exists p, pad_name name = Ok p
            /\ length b = OFFER_SIZE
            /\ unpack_offer (b ++ s) = Ok (Some (tcp_port, unpad_name p)).
Proof.
  unfold pack_offer. destruct (pad_name name) as [p|] eqn:Ep; [|discriminate].
  unfold bind. intros H. exists p. split; [reflexivity|].
  destruct (struct_pack_ok _ _ _ H) as [Hl _]. split; [exact Hl|].
  unfold unpack_offer, OFFER_SIZE.
  rewrite (long_enough _ _ _ Hl), (struct_unpack_prefix _ _ _ s H).
  cbn [norm_vals norm_val OFFER_FORMAT bind].
  rewrite (norm_name _ (pad_name_length _ _ Ep)).
  reflexivity.
Qed.

Lemma unpack_request_pack (num_rounds : Z) (name : pystr) (b s : bytes) :
  pack_request num_rounds name = Ok b ->
  exists p, pad_name name = Ok p
            /\ length b = REQUEST_SIZE
            /\ unpack_request (b ++ s)
               = Ok (Some (num_rounds, unpad_name p)).
Proof.
  unfold pack_request.
  destruct (pad_name name) as [p|] eqn:Ep; [|discriminate].
  unfold bind. intros H. exists p. split; [reflexivity|].
  destruct (struct_pack_ok _ _ _ H) as [Hl _]. split; [exact Hl|].
  unfold unpack_request, REQUEST_SIZE.
  rewrite (long_enough _ _ _ Hl), (struct_unpack_prefix _ _ _ s H).
  cbn [norm_vals norm_val REQUEST_FORMAT bind].
  rewrite (norm_name _ (pad_name_length _ _ Ep)).
  reflexivity.
Qed.

Lemma unpack_client_payload_pack (action : pystr) (b s : bytes) :
  pack_client_payload action = Ok b ->
  length b = CLIENT_PAYLOAD_SIZE
  /\ unpack_client_payload (b ++ s)
     = Ok (Some (if pystr_eqb (lower action) (s_lit "hit")
                 then s_lit "hit" else s_lit "stand")).
Proof.
  unfold pack_client_payload. intros H.
  destruct (struct_pack_ok _ _ _ H) as [Hl _]. split; [exact Hl|].
  unfold unpack_client_payload, CLIENT_PAYLOAD_SIZE.
  rewrite (long_enough _ _ _ Hl), (struct_unpack_prefix _ _ _ s H).
  now destruct (pystr_eqb (lower action) (s_lit "hit")).
Qed.

Lemma ascii_decode_raise (b : bytes) (e : exn) :
  ascii_decode b = Raise e -> e = UnicodeDecodeError.
Proof.
  induction b as [|x b IH]; simpl; [discriminate|].
  destruct (Byte.to_N x <? 128)%N; [|now intros [= <-]].
  destruct (ascii_decode b); simpl; [discriminate|].
  intros [= <-]. now apply IH.
Qed.

Lemma py_int_raise (t : pystr) (e : exn) :
  py_int t = Raise e -> e = ValueError.
Proof.
  unfold py_int.
  destruct (match lstrip_space t with [] => None | _ => _ end);
    [discriminate|now intros [= <-]].
Qed.

Lemma unpack_server_payload_pack (result card_rank : Z) (card_suit : suit_arg)
    (b s : bytes) :
  pack_server_payload result card_rank card_suit = Ok b ->
  exists rank_str suit_char,
    ascii_encode (format_02d card_rank) = Ok rank_str
    /\ suit_bytes card_suit = Ok suit_char
    /\ length b = SERVER_PAYLOAD_SIZE
    /\ unpack_server_payload (b ++ s)
       = match decode_card rank_str suit_char with
         | Ok (r, c) => Ok (Some (result, r, c))
         | Raise _ => Ok None
         end.
Proof.
  unfold pack_server_payload. fold (suit_bytes card_suit).
  destruct (ascii_encode (format_02d card_rank)) as [rank_str|];
    [|discriminate].
  destruct (suit_bytes card_suit) as [suit_char|]; [|discriminate].
  unfold bind at 1 2. intros H. exists rank_str, suit_char.
  split; [reflexivity|]. split; [reflexivity|].
  destruct (struct_pack_ok _ _ _ H) as [Hl _]. split; [exact Hl|].
  unfold unpack_server_payload, SERVER_PAYLOAD_SIZE.
  rewrite (long_enough _ _ _ Hl), (struct_unpack_prefix _ _ _ s H).
  cbn [norm_vals norm_val SERVER_PAYLOAD_FORMAT bind].
  rewrite !Z.eqb_refl. cbn [negb]. unfold decode_card.
  destruct (ascii_decode (firstn 2 rank_str ++ _)) as [t|e] eqn:E1;
    cbn [bind]; [|now rewrite (ascii_decode_raise _ _ E1)].
  destruct (py_int t) as [v|e] eqn:E2; cbn [bind];
    [|now rewrite (py_int_raise _ _ E2)].
  destruct (ascii_decode (firstn 1 suit_char ++ _)) as [c|e] eqn:E3;
    [reflexivity|now rewrite (ascii_decode_raise _ _ E3)].
Qed.

(** ** Encoding succeeds on well-formed fields *)

Lemma pack_uint_ok (n : nat) (z : Z) :
  0 <= z < 256 ^ Z.of_nat n -> pack_uint n z = Ok (be_bytes n z).
Proof.
  intros [H1 H2]. unfold pack_uint.
  now rewrite (proj2 (Z.leb_le _ _) H1), (proj2 (Z.ltb_lt _ _) H2).
Qed.

Local Ltac pack_fields :=
  cbn [struct_pack pack_item item_size];
  rewrite ?pack_uint_ok
    by (unfold MAGIC_COOKIE, MSG_TYPE_OFFER, MSG_TYPE_REQUEST,
          MSG_TYPE_PAYLOAD; cbn [Z.of_nat Pos.of_succ_nat Pos.succ]; lia);
  cbn [bind].

Lemma pack_offer_ok (tcp_port : Z) (name : pystr) (p : bytes) :
  0 <= tcp_port <= 65535 -> pad_name name = Ok p ->
  exists b, pack_offer tcp_port name = Ok b.
Proof.
  intros Hp Hn. unfold pack_offer, OFFER_FORMAT. rewrite Hn. cbn [bind].
  pack_fields. eexists. reflexivity.
Qed.

Lemma pack_request_ok (num_rounds : Z) (name : pystr) (p : bytes) :
  0 <= num_rounds <= 255 -> pad_name name = Ok p ->
  exists b, pack_request num_rounds name = Ok b.
Proof.
  intros Hp Hn. unfold pack_request, REQUEST_FORMAT. rewrite Hn. cbn [bind].
  pack_fields. eexists. reflexivity.
Qed.

Lemma pack_client_payload_ok (action : pystr) :
  exists b, pack_client_payload action = Ok b.
Proof.
  unfold pack_client_payload, CLIENT_PAYLOAD_FORMAT.
  pack_fields. eexists. reflexivity.
Qed.

Lemma pack_server_payload_ok (result card_rank : Z) (card_suit : suit_arg)
    (rank_str suit_char : bytes) :
  0 <= result <= 255 ->
  ascii_encode (format_02d card_rank) = Ok rank_str ->
  suit_bytes card_suit = Ok suit_char ->
  exists b, pack_server_payload result card_rank card_suit = Ok b.
Proof.
  intros Hr Hk Hs. unfold pack_server_payload. fold (suit_bytes card_suit).
  rewrite Hk, Hs. unfold SERVER_PAYLOAD_FORMAT. cbn [bind].
  pack_fields. eexists. reflexivity.
Qed.

(** ** Ranks and suits on the wire *)

Lemma in_py_range (a b z : Z) : a <= z < b -> In z (py_range a b).
Proof.
  intros H. unfold py_range. apply in_map_iff.
  exists (Z.to_nat (z - a)). split; [lia|]. apply in_seq. lia.
Qed.

Lemma py_range_in (a b z : Z) : In z (py_range a b) -> a <= z < b.
Proof.
  unfold py_range. intros H. apply in_map_iff in H as (i & <- & Hi).
  apply in_seq in Hi. lia.
Qed.

Lemma rank_field_roundtrip (r : Z) :
  0 <= r <= 99 -> rank_field_ok r = true.
Proof.
  intros H.
  assert (A : forallb rank_field_ok (py_range 0 100) = true)
    by (vm_compute; reflexivity).
  rewrite forallb_forall in A. apply A, in_py_range. lia.
Qed.

Lemma suit_char_roundtrip (suit : pystr) :
  In suit SUITS ->
  exists x, ascii_encode suit = Ok [x] /\ ascii_decode [x] = Ok suit.
Proof.
  unfold SUITS. intros H.
  repeat (destruct H as [<-|H];
          [eexists; split; vm_compute; reflexivity|]).
  destruct H.
Qed.

Lemma decode_card_encode (r : Z) (suit : pystr) (rs sc : bytes) :
  0 <= r <= 99 -> In suit SUITS ->
  ascii_encode (format_02d r) = Ok rs -> ascii_encode suit = Ok sc ->
  decode_card rs sc = Ok (r, suit).
Proof.
  intros Hr Hs Hrs Hsc. pose proof (rank_field_roundtrip r Hr) as A.
  unfold rank_field_ok in A. rewrite Hrs in A. unfold decode_card.
  destruct (t <- ascii_decode _ ;; py_int t) as [v|] eqn:E; [|discriminate].
  apply andb_prop in A as [A _]. apply Z.eqb_eq in A. subst v.
  destruct (ascii_decode (firstn 2 rs ++ _)) as [t|]; [|discriminate].
  cbn [bind] in *. rewrite E. cbn [bind].
  destruct (suit_char_roundtrip _ Hs) as (x & Hx & Hd).
  rewrite Hx in Hsc. apply Ok_inj in Hsc. subst sc.
  cbn [firstn length Nat.sub repeat app]. now rewrite Hd.
Qed.

(* ================================================================== *)
(** * The wire codec *)

(** C1. Decoding the encoding of a message gives the message back, for the
    four message kinds: a request with a number of rounds from 1 to 255
    (both bounds included), a server payload with any result byte, a rank
    from 1 to 13 and one of the four suit characters, a client payload with
    the action "hit" or "stand", and an offer with any 16-bit port.  The
    name of a request or an offer is one the 32-byte field can hold: at most
    32 bytes of UTF-8 and no trailing NUL. *)
Theorem codec_roundtrip :
  (forall num_rounds name,
      1 <= num_rounds <= 255 -> fits_name_field name ->
      exists b, pack_request num_rounds name = Ok b
                /\ unpack_request b = Ok (Some (num_rounds, name)))
  /\ (forall result card_rank card_suit,
         0 <= result <= 255 -> 1 <= card_rank <= 13 -> In card_suit SUITS ->
         exists b,
           pack_server_payload result card_rank (SuitStr card_suit) = Ok b
           /\ unpack_server_payload b
              = Ok (Some (result, card_rank, card_suit)))
  /\ (forall action,
         action = s_lit "hit" \/ action = s_lit "stand" ->
         exists b, pack_client_payload action = Ok b
                   /\ unpack_client_payload b = Ok (Some action))
  /\ (forall tcp_port name,
         0 <= tcp_port <= 65535 -> fits_name_field name ->
         exists b, pack_offer tcp_port name = Ok b
                   /\ unpack_offer b = Ok (Some (tcp_port, name))).
Proof.
  repeat split.
  - intros num_rounds name Hr Hn.
    destruct (unpad_pad_name _ Hn) as (p & Hp & _ & Hu).
    destruct (pack_request_ok num_rounds name p ltac:(lia) Hp) as [b Hb].
    exists b. split; [exact Hb|].
    destruct (unpack_request_pack _ _ _ [] Hb) as (p' & Hp' & _ & H).
    rewrite app_nil_r in H. rewrite Hp in Hp'. apply Ok_inj in Hp'.
    subst p'. now rewrite H, Hu.
  - intros result card_rank card_suit Hres Hr Hs.
    pose proof (rank_field_roundtrip card_rank ltac:(lia)) as A.
    unfold rank_field_ok in A.
    destruct (ascii_encode (format_02d card_rank)) as [rs|] eqn:Ers;
      [clear A|discriminate].
    destruct (suit_char_roundtrip _ Hs) as (x & Hx & _).
    destruct (pack_server_payload_ok result card_rank (SuitStr card_suit)
                rs [x] Hres Ers Hx) as [b Hb].
    exists b. split; [exact Hb|].
    destruct (unpack_server_payload_pack _ _ _ _ [] Hb)
      as (rs' & sc & Hrs' & Hsc & _ & H).
    rewrite app_nil_r in H. rewrite H.
    now rewrite (decode_card_encode card_rank card_suit rs' sc
                   ltac:(lia) Hs Hrs' Hsc).
  - intros action Ha.
    destruct (pack_client_payload_ok action) as [b Hb].
    exists b. split; [exact Hb|].
    destruct (unpack_client_payload_pack _ _ [] Hb) as [_ H].
    rewrite app_nil_r in H. rewrite H. now destruct Ha as [->| ->].
  - intros tcp_port name Hr Hn.
    destruct (unpad_pad_name _ Hn) as (p & Hp & _ & Hu).
    destruct (pack_offer_ok tcp_port name p Hr Hp) as [b Hb].
    exists b. split; [exact Hb|].
    destruct (unpack_offer_pack _ _ _ [] Hb) as (p' & Hp' & _ & H).
    rewrite app_nil_r in H. rewrite Hp in Hp'. apply Ok_inj in Hp'.
    subst p'. now rewrite H, Hu.
Qed.

Lemma sample_name_fits : fits_name_field sample_name.
Proof.
  eexists. split; [vm_compute; reflexivity|].
  split; [unfold NAME_LENGTH; cbn [length]; lia|reflexivity].
Defined.

Lemma codec_roundtrip_witness :
  (exists b, pack_request 255 sample_name = Ok b
             /\ unpack_request b = Ok (Some (255, sample_name)))
  /\ (exists b, pack_server_payload 3 13 (SuitStr (s_lit "S")) = Ok b
                /\ unpack_server_payload b = Ok (Some (3, 13, s_lit "S")))
  /\ (exists b, pack_client_payload (s_lit "stand") = Ok b
                /\ unpack_client_payload b = Ok (Some (s_lit "stand")))
  /\ (exists b, pack_offer 65535 sample_name = Ok b
                /\ unpack_offer b = Ok (Some (65535, sample_name))).
Proof.
  destruct codec_roundtrip as (Hreq & Hsrv & Hcli & Hoff).
  split; [|split; [|split]].
  - apply Hreq; [lia|exact sample_name_fits].
  - apply Hsrv; [lia|lia|]. unfold SUITS. simpl. tauto.
  - apply Hcli. now right.
  - apply Hoff; [lia|exact sample_name_fits].
Defined.

(** Each decoder reads the first bytes of its input, as many as the message
    has, and nothing else. *)
Lemma unpack_prefix_only (data : bytes) :
  ((OFFER_SIZE <= length data)%nat ->
   unpack_offer data = unpack_offer (firstn OFFER_SIZE data))
  /\ ((REQUEST_SIZE <= length data)%nat ->
      unpack_request data = unpack_request (firstn REQUEST_SIZE data))
  /\ ((CLIENT_PAYLOAD_SIZE <= length data)%nat ->
      unpack_client_payload data
      = unpack_client_payload (firstn CLIENT_PAYLOAD_SIZE data))
  /\ ((SERVER_PAYLOAD_SIZE <= length data)%nat ->
      unpack_server_payload data
      = unpack_server_payload (firstn SERVER_PAYLOAD_SIZE data)).
Proof.
  repeat split; intros H;
    unfold unpack_offer, unpack_request, unpack_client_payload,
      unpack_server_payload;
    rewrite firstn_firstn, Nat.min_id, length_firstn, Nat.min_l by exact H;
    rewrite Nat.ltb_irrefl; rewrite (proj2 (Nat.ltb_ge _ _) H); reflexivity.
Qed.

(** C10. A decoder accepts input longer than its message and ignores what
    follows the message: for an encoded message [b], of exactly the fixed
    size, and any suffix [s], decoding [b ++ s] gives what decoding [b]
    gives. *)
Theorem decode_ignores_trailing_bytes (s : bytes) :
  (forall tcp_port name b,
      pack_offer tcp_port name = Ok b ->
      length b = OFFER_SIZE /\ unpack_offer (b ++ s) = unpack_offer b)
  /\ (forall num_rounds name b,
         pack_request num_rounds name = Ok b ->
         length b = REQUEST_SIZE
         /\ unpack_request (b ++ s) = unpack_request b)
  /\ (forall action b,
         pack_client_payload action = Ok b ->
         length b = CLIENT_PAYLOAD_SIZE
         /\ unpack_client_payload (b ++ s) = unpack_client_payload b)
  /\ (forall result card_rank card_suit b,
         pack_server_payload result card_rank card_suit = Ok b ->
         length b = SERVER_PAYLOAD_SIZE
         /\ unpack_server_payload (b ++ s) = unpack_server_payload b).
Proof.
  repeat apply conj.
  - intros tcp_port name b Hb.
    destruct (unpack_offer_pack _ _ _ s Hb) as (p & Hp & Hl & H).
    destruct (unpack_offer_pack _ _ _ [] Hb) as (p' & Hp' & _ & H').
    rewrite app_nil_r in H'. rewrite Hp in Hp'. apply Ok_inj in Hp'.
    subst p'. split; [exact Hl|]. now rewrite H, H'.
  - intros num_rounds name b Hb.
    destruct (unpack_request_pack _ _ _ s Hb) as (p & Hp & Hl & H).
    destruct (unpack_request_pack _ _ _ [] Hb) as (p' & Hp' & _ & H').
    rewrite app_nil_r in H'. rewrite Hp in Hp'. apply Ok_inj in Hp'.
    subst p'. split; [exact Hl|]. now rewrite H, H'.
  - intros action b Hb.
    destruct (unpack_client_payload_pack _ _ s Hb) as [Hl H].
    destruct (unpack_client_payload_pack _ _ [] Hb) as [_ H'].
    rewrite app_nil_r in H'. split; [exact Hl|]. now rewrite H, H'.
  - intros result card_rank card_suit b Hb.
    destruct (unpack_server_payload_pack _ _ _ _ s Hb)
      as (rs & sc & Hrs & Hsc & Hl & H).
    destruct (unpack_server_payload_pack _ _ _ _ [] Hb)
      as (rs' & sc' & Hrs' & Hsc' & _ & H').
    rewrite app_nil_r in H'. rewrite Hrs in Hrs'. rewrite Hsc in Hsc'.
    apply Ok_inj in Hrs', Hsc'. subst rs' sc'.
    split; [exact Hl|]. now rewrite H, H'.
Qed.

Lemma decode_ignores_trailing_bytes_witness :
  unpack_offer (sample_offer ++ b_lit "trailing")
  = Ok (Some (50000, s_lit "Byte the Dealer"))
  /\ unpack_request (sample_request ++ b_lit "trailing")
     = Ok (Some (3, s_lit "Byte the Dealer"))
  /\ unpack_client_payload (sample_hit ++ b_lit "trailing")
     = Ok (Some (s_lit "hit"))
  /\ unpack_server_payload (sample_card ++ b_lit "trailing")
     = Ok (Some (0, 12, s_lit "C")).
Proof.
  destruct (decode_ignores_trailing_bytes (b_lit "trailing"))
    as (Hoff & Hreq & Hcli & Hsrv).
  split; [|split; [|split]].
  - rewrite (proj2 (Hoff 50000 (s_lit "Byte the Dealer") sample_offer
                      eq_refl)).
    reflexivity.
  - rewrite (proj2 (Hreq 3 (s_lit "Byte the Dealer") sample_request
                      eq_refl)).
    reflexivity.
  - rewrite (proj2 (Hcli (s_lit "hit") sample_hit eq_refl)). reflexivity.
  - rewrite (proj2 (Hsrv 0 12 (SuitInt 2) sample_card eq_refl)).
    reflexivity.
Defined.

(** ** The action token of a client payload *)

Lemma pystr_eqb_spec (a b : pystr) : pystr_eqb a b = true <-> a = b.
Proof.
  unfold pystr_eqb. destruct (list_eq_dec N.eq_dec a b); split;
    congruence.
Qed.

Lemma bytes_eqb_spec (a b : bytes) : bytes_eqb a b = true <-> a = b.
Proof.
  unfold bytes_eqb. destruct (list_eq_dec Byte.byte_eq_dec a b); split;
    congruence.
Qed.

Lemma lower_cp_cases (c : N) :
  ((65 <= c <= 90)%N /\ lower_cp c = [(c + 32)%N])
  \/ (c = 0x130%N /\ lower_cp c = [0x69; 0x307]%N)
  \/ (c = 0x212A%N /\ lower_cp c = [0x6B]%N)
  \/ (~ (65 <= c <= 90)%N /\ lower_cp c = [c]).
Proof.
  unfold lower_cp.
  destruct ((65 <=? c)%N && (c <=? 90)%N) eqn:E.
  - left. apply andb_prop in E as [E1 E2].
    apply N.leb_le in E1, E2. now split.
  - assert (~ (65 <= c <= 90)%N) as Hn.
    { intros [H1 H2]. apply N.leb_le in H1, H2. now rewrite H1, H2 in E. }
    destruct (c =? 0x130)%N eqn:E1.
    { right. left. apply N.eqb_eq in E1. now split. }
    destruct (c =? 0x212A)%N eqn:E2.
    { right. right. left. apply N.eqb_eq in E2. now split. }
    right. right. right. now split.
Qed.

Lemma lower_cons (c : N) (s : pystr) :
  lower (c :: s) = lower_cp c ++ lower s.
Proof. reflexivity. Qed.

(** When the lower-case form of [c :: s] starts with the ASCII letter [l],
    other than "k" and other than an "i" followed by U+0307, [c] is [l] in
    one of its two cases and the rest of the form is the lower-case form of
    [s]. *)
Lemma lower_head (c l : N) (s rest : pystr) :
  (97 <= l <= 122)%N -> l <> 107%N ->
  l <> 105%N \/ (forall r, rest <> 0x307%N :: r) ->
  lower (c :: s) = l :: rest ->
  letter_ci c l = true /\ lower s = rest.
Proof.
  intros Hl Hk Hi. rewrite lower_cons. unfold letter_ci.
  destruct (lower_cp_cases c) as [[Hc ->]|[[-> ->]|[[-> ->]|[Hc ->]]]];
    simpl app; intros [= E1 E2].
  - split; [|exact E2].
    apply orb_true_iff. right. apply N.eqb_eq. lia.
  - exfalso. destruct Hi as [Hi|Hi]; [lia|]. now apply (Hi (lower s)).
  - lia.
  - split; [|exact E2]. apply orb_true_iff. left. now apply N.eqb_eq.
Qed.

Lemma lower_is_hit (action : pystr) :
  pystr_eqb (lower action) (s_lit "hit") = is_hit_ci action.
Proof.
  change (s_lit "hit") with [104; 105; 116]%N.
  apply eq_true_iff_eq. rewrite pystr_eqb_spec. split.
  - intros H. destruct action as [|c1 s1]; [discriminate|].
    apply lower_head in H as [H1 H]; try lia.
    destruct s1 as [|c2 s2]; [discriminate|].
    apply lower_head in H as [H2 H]; try lia;
      [|right; intros r; discriminate].
    destruct s2 as [|c3 s3]; [discriminate|].
    apply lower_head in H as [H3 H]; try lia.
    destruct s3 as [|c4 s4].
    + cbn [is_hit_ci]. now rewrite H1, H2, H3.
    + exfalso. rewrite lower_cons in H.
      destruct (lower_cp_cases c4) as [[_ E]|[[_ E]|[[_ E]|[_ E]]]];
        rewrite E in H; discriminate.
  - destruct action as [|c1 [|c2 [|c3 [|c4 s]]]]; try discriminate.
    cbn [is_hit_ci]. unfold letter_ci. intros H.
    apply andb_prop in H as [H H3]. apply andb_prop in H as [H1 H2].
    apply orb_true_iff in H1, H2, H3.
    destruct H1 as [H1|H1], H2 as [H2|H2], H3 as [H3|H3];
      apply N.eqb_eq in H1, H2, H3; subst; reflexivity.
Qed.

(** C9. [pack_client_payload] never fails, on any string: it encodes the
    Hit token when the string is "hit" in any mix of upper and lower case,
    and the Stand token for every other string. *)
Theorem pack_client_payload_total (action : pystr) :
  pack_client_payload action
  = Ok (payload_header
        ++ (if is_hit_ci action then ACTION_HIT else ACTION_STAND))
  /\ is_hit_ci action = pystr_eqb (lower action) (s_lit "hit").
Proof.
  split; [|symmetry; apply lower_is_hit].
  unfold pack_client_payload. rewrite lower_is_hit.
  now destruct (is_hit_ci action).
Qed.

(** ** What the decoders reject *)

Lemma fld_firstn (off len n : nat) (data : bytes) :
  (off + len <= n)%nat ->
  firstn len (skipn off (firstn n data)) = fld off len data.
Proof.
  intros H. unfold fld.
  rewrite skipn_firstn_comm, firstn_firstn. f_equal. lia.
Qed.

Lemma struct_unpack_fields (fmt : list fmt_item) (data : bytes) :
  (calcsize fmt <= length data)%nat ->
  struct_unpack fmt (firstn (calcsize fmt) data)
  = Ok (unpack_items fmt (firstn (calcsize fmt) data)).
Proof.
  intros H. unfold struct_unpack.
  now rewrite length_firstn, Nat.min_l, Nat.eqb_refl by exact H.
Qed.

Local Ltac fields :=
  cbn [unpack_items unpack_item item_size];
  rewrite ?skipn_skipn; cbn [Nat.add];
  rewrite ?fld_firstn by (cbn; lia);
  change (firstn 4 (firstn ?n ?d)) with (firstn 4 (skipn 0 (firstn n d)));
  rewrite ?fld_firstn by (cbn; lia).

Lemma unpack_offer_fields (data : bytes) :
  (OFFER_SIZE <= length data)%nat ->
  struct_unpack OFFER_FORMAT (firstn OFFER_SIZE data)
  = Ok [VInt (be_int (fld 0 4 data)); VInt (be_int (fld 4 1 data));
        VInt (be_int (fld 5 2 data)); VBytes (fld 7 32 data)].
Proof.
  intros H. unfold OFFER_SIZE in *. rewrite (struct_unpack_fields _ _ H).
  unfold OFFER_FORMAT. change (calcsize _) with 39%nat. now fields.
Qed.

Lemma unpack_request_fields (data : bytes) :
  (REQUEST_SIZE <= length data)%nat ->
  struct_unpack REQUEST_FORMAT (firstn REQUEST_SIZE data)
  = Ok [VInt (be_int (fld 0 4 data)); VInt (be_int (fld 4 1 data));
        VInt (be_int (fld 5 1 data)); VBytes (fld 6 32 data)].
Proof.
  intros H. unfold REQUEST_SIZE in *. rewrite (struct_unpack_fields _ _ H).
  unfold REQUEST_FORMAT. change (calcsize _) with 38%nat. now fields.
Qed.

Lemma unpack_client_payload_fields (data : bytes) :
  (CLIENT_PAYLOAD_SIZE <= length data)%nat ->
  struct_unpack CLIENT_PAYLOAD_FORMAT (firstn CLIENT_PAYLOAD_SIZE data)
  = Ok [VInt (be_int (fld 0 4 data)); VInt (be_int (fld 4 1 data));
        VBytes (fld 5 5 data)].
Proof.
  intros H. unfold CLIENT_PAYLOAD_SIZE in *.
  rewrite (struct_unpack_fields _ _ H).
  unfold CLIENT_PAYLOAD_FORMAT. change (calcsize _) with 10%nat. now fields.
Qed.

Lemma unpack_server_payload_fields (data : bytes) :
  (SERVER_PAYLOAD_SIZE <= length data)%nat ->
  struct_unpack SERVER_PAYLOAD_FORMAT (firstn SERVER_PAYLOAD_SIZE data)
  = Ok [VInt (be_int (fld 0 4 data)); VInt (be_int (fld 4 1 data));
        VInt (be_int (fld 5 1 data)); VBytes (fld 6 2 data);
        VBytes (fld 8 1 data)].
Proof.
  intros H. unfold SERVER_PAYLOAD_SIZE in *.
  rewrite (struct_unpack_fields _ _ H).
  unfold SERVER_PAYLOAD_FORMAT. change (calcsize _) with 9%nat. now fields.
Qed.

Lemma in_all_bytes (b : byte) : In b all_bytes.
Proof.
  unfold all_bytes. apply in_map_iff.
  exists (N.to_nat (Byte.to_N b)). split.
  - now rewrite N2Nat.id, byte_of_N_to_N.
  - apply in_seq. pose proof (Byte.to_N_bounded b). lia.
Qed.

Lemma parse_rank_accepted (a b : byte) :
  is_ok (parse_rank [a; b]) = rank_field_accepted [a; b].
Proof.
  assert (A : forallb (fun a => forallb (fun b =>
                Bool.eqb (is_ok (parse_rank [a; b]))
                         (rank_field_accepted [a; b]))
              all_bytes) all_bytes = true)
    by (vm_compute; reflexivity).
  rewrite forallb_forall in A. specialize (A a (in_all_bytes a)).
  rewrite forallb_forall in A. specialize (A b (in_all_bytes b)).
  now apply Bool.eqb_prop.
Qed.

Lemma ascii_decode_ok (b : bytes) :
  is_ok (ascii_decode b) = is_ascii_bytes b.
Proof.
  induction b as [|x b IH]; simpl; [reflexivity|].
  destruct (Byte.to_N x <? 128)%N; [|reflexivity].
  rewrite <- IH. now destruct (ascii_decode b).
Qed.

Lemma fld_length (off len : nat) (data : bytes) :
  (off + len <= length data)%nat -> length (fld off len data) = len.
Proof. intros H. unfold fld. rewrite length_firstn, length_skipn. lia. Qed.

Lemma fld_pair (off : nat) (data : bytes) :
  (off + 2 <= length data)%nat -> exists a b, fld off 2 data = [a; b].
Proof.
  intros H. pose proof (fld_length off 2 data H) as L.
  destruct (fld off 2 data) as [|a [|b [|c l]]]; try discriminate.
  now exists a, b.
Qed.

Lemma unpack_offer_spec (data : bytes) :
  exists r, unpack_offer data = Ok r
            /\ (r = None <-> too_short OFFER_SIZE data \/ bad_magic data
                             \/ bad_type MSG_TYPE_OFFER data).
Proof.
  unfold unpack_offer, too_short, bad_magic, bad_type.
  destruct (length data <? OFFER_SIZE)%nat eqn:EL.
  { apply Nat.ltb_lt in EL. exists None. now split; [|split; [left|]]. }
  apply Nat.ltb_ge in EL. rewrite (unpack_offer_fields _ EL). cbn [bind].
  destruct (be_int (fld 0 4 data) =? MAGIC_COOKIE) eqn:EM; cbn [negb].
  2:{ apply Z.eqb_neq in EM. exists None.
      now split; [|split; [right; left|]]. }
  destruct (be_int (fld 4 1 data) =? MSG_TYPE_OFFER) eqn:ET; cbn [negb].
  2:{ apply Z.eqb_neq in ET. exists None.
      now split; [|split; [right; right|]]. }
  apply Z.eqb_eq in EM, ET. eexists. split; [reflexivity|].
  split; [discriminate|]. intros [H|[H|H]]; [lia|contradiction..].
Qed.

Lemma unpack_request_spec (data : bytes) :
  exists r, unpack_request data = Ok r
            /\ (r = None <-> too_short REQUEST_SIZE data \/ bad_magic data
                             \/ bad_type MSG_TYPE_REQUEST data).
Proof.
  unfold unpack_request, too_short, bad_magic, bad_type.
  destruct (length data <? REQUEST_SIZE)%nat eqn:EL.
  { apply Nat.ltb_lt in EL. exists None. now split; [|split; [left|]]. }
  apply Nat.ltb_ge in EL. rewrite (unpack_request_fields _ EL). cbn [bind].
  destruct (be_int (fld 0 4 data) =? MAGIC_COOKIE) eqn:EM; cbn [negb].
  2:{ apply Z.eqb_neq in EM. exists None.
      now split; [|split; [right; left|]]. }
  destruct (be_int (fld 4 1 data) =? MSG_TYPE_REQUEST) eqn:ET; cbn [negb].
  2:{ apply Z.eqb_neq in ET. exists None.
      now split; [|split; [right; right|]]. }
  apply Z.eqb_eq in EM, ET. eexists. split; [reflexivity|].
  split; [discriminate|]. intros [H|[H|H]]; [lia|contradiction..].
Qed.

Lemma unpack_client_payload_spec (data : bytes) :
  exists r, unpack_client_payload data = Ok r
            /\ (r = None <->
                too_short CLIENT_PAYLOAD_SIZE data \/ bad_magic data
                \/ bad_type MSG_TYPE_PAYLOAD data
                \/ (fld 5 5 data <> ACTION_HIT
                    /\ fld 5 5 data <> ACTION_STAND)).
Proof.
  unfold unpack_client_payload, too_short, bad_magic, bad_type.
  destruct (length data <? CLIENT_PAYLOAD_SIZE)%nat eqn:EL.
  { apply Nat.ltb_lt in EL. exists None. now split; [|split; [left|]]. }
  apply Nat.ltb_ge in EL. rewrite (unpack_client_payload_fields _ EL).
  cbn [bind].
  destruct (be_int (fld 0 4 data) =? MAGIC_COOKIE) eqn:EM; cbn [negb].
  2:{ apply Z.eqb_neq in EM. exists None.
      now split; [|split; [right; left|]]. }
  destruct (be_int (fld 4 1 data) =? MSG_TYPE_PAYLOAD) eqn:ET; cbn [negb].
  2:{ apply Z.eqb_neq in ET. exists None.
      now split; [|split; [right; right; left|]]. }
  apply Z.eqb_eq in EM, ET.
  destruct (bytes_eqb (fld 5 5 data) ACTION_HIT) eqn:EH.
  { apply bytes_eqb_spec in EH. eexists. split; [reflexivity|].
    split; [discriminate|].
    intros [H|[H|[H|[H _]]]]; [lia|contradiction..]. }
  destruct (bytes_eqb (fld 5 5 data) ACTION_STAND) eqn:ES.
  { apply bytes_eqb_spec in ES. eexists. split; [reflexivity|].
    split; [discriminate|].
    intros [H|[H|[H|[_ H]]]]; [lia|contradiction..]. }
  exists None. split; [reflexivity|]. split; [|reflexivity].
  intros _. right. right. right.
  split; intros E; apply bytes_eqb_spec in E; congruence.
Qed.

Lemma unpack_server_payload_spec (data : bytes) :
  exists r, unpack_server_payload data = Ok r
            /\ (r = None <->
                too_short SERVER_PAYLOAD_SIZE data \/ bad_magic data
                \/ bad_type MSG_TYPE_PAYLOAD data
                \/ rank_field_accepted (fld 6 2 data) = false
                \/ is_ascii_bytes (fld 8 1 data) = false).
Proof.
  unfold unpack_server_payload, too_short, bad_magic, bad_type.
  destruct (length data <? SERVER_PAYLOAD_SIZE)%nat eqn:EL.
  { apply Nat.ltb_lt in EL. exists None. now split; [|split; [left|]]. }
  apply Nat.ltb_ge in EL. rewrite (unpack_server_payload_fields _ EL).
  cbn [bind].
  destruct (be_int (fld 0 4 data) =? MAGIC_COOKIE) eqn:EM; cbn [negb].
  2:{ apply Z.eqb_neq in EM. exists None.
      now split; [|split; [right; left|]]. }
  destruct (be_int (fld 4 1 data) =? MSG_TYPE_PAYLOAD) eqn:ET; cbn [negb].
  2:{ apply Z.eqb_neq in ET. exists None.
      now split; [|split; [right; right; left|]]. }
  apply Z.eqb_eq in EM, ET.
  destruct (fld_pair 6 data ltac:(change SERVER_PAYLOAD_SIZE with 9%nat in EL;
                                   lia)) as (a & b & Eab).
  rewrite Eab. pose proof (parse_rank_accepted a b) as PR.
  pose proof (ascii_decode_ok (fld 8 1 data)) as PS.
  unfold parse_rank in PR.
  destruct (ascii_decode [a; b]) as [t|e] eqn:E1; cbn [bind] in *.
  2:{ rewrite (ascii_decode_raise _ _ E1). exists None.
      split; [reflexivity|]. split; [|reflexivity].
      intros _. right. right. right. left. now rewrite <- PR. }
  destruct (py_int t) as [v|e] eqn:E2; cbn [bind].
  2:{ rewrite (py_int_raise _ _ E2). exists None.
      split; [reflexivity|]. split; [|reflexivity].
      intros _. right. right. right. left. now rewrite <- PR. }
  destruct (ascii_decode (fld 8 1 data)) as [c|e] eqn:E3; cbn [bind].
  2:{ rewrite (ascii_decode_raise _ _ E3). exists None.
      split; [reflexivity|]. split; [|reflexivity].
      intros _. right. right. right. right. now rewrite <- PS. }
  eexists. split; [reflexivity|]. split; [discriminate|].
  cbn [is_ok] in PR, PS.
  intros [H|[H|[H|[H|H]]]]; [lia|contradiction|contradiction|congruence..].
Qed.

(** C2, as the code has it.  No decoder raises, and each returns [None]
    exactly when the input is shorter than the message, or the magic cookie
    differs, or the type byte is wrong, or, for a client payload, the action
    is neither of the two tokens, or, for a server payload, the rank field
    is not one [int] accepts (two ASCII digits, or one digit after a sign
    or a white-space byte, or one digit before a white-space byte) or the
    suit byte is not ASCII.  The suit byte is not compared with the four
    suit symbols. *)
Theorem decode_rejects (data : bytes) :
  (exists r, unpack_offer data = Ok r
             /\ (r = None <-> too_short OFFER_SIZE data \/ bad_magic data
                              \/ bad_type MSG_TYPE_OFFER data))
  /\ (exists r, unpack_request data = Ok r
                /\ (r = None <->
                    too_short REQUEST_SIZE data \/ bad_magic data
                    \/ bad_type MSG_TYPE_REQUEST data))
  /\ (exists r, unpack_client_payload data = Ok r
                /\ (r = None <->
                    too_short CLIENT_PAYLOAD_SIZE data \/ bad_magic data
                    \/ bad_type MSG_TYPE_PAYLOAD data
                    \/ (fld 5 5 data <> ACTION_HIT
                        /\ fld 5 5 data <> ACTION_STAND)))
  /\ (exists r, unpack_server_payload data = Ok r
                /\ (r = None <->
                    too_short SERVER_PAYLOAD_SIZE data \/ bad_magic data
                    \/ bad_type MSG_TYPE_PAYLOAD data
                    \/ rank_field_accepted (fld 6 2 data) = false
                    \/ is_ascii_bytes (fld 8 1 data) = false)).
Proof.
  split; [apply unpack_offer_spec|].
  split; [apply unpack_request_spec|].
  split; [apply unpack_client_payload_spec|apply unpack_server_payload_spec].
Qed.

(** C2, as stated, fails: the suit byte "X" is none of the four suit
    symbols and the rank field "+7" is not a pair of digits, yet both
    payloads decode to a card. *)
Lemma decode_accepts_unknown_suit :
  (is_suit_symbol (fld 8 1 payload_suit_X) = false
   /\ unpack_server_payload payload_suit_X = Ok (Some (0, 5, s_lit "X")))
  /\ (is_digit_pair (fld 6 2 payload_rank_plus7) = false
      /\ unpack_server_payload payload_rank_plus7
         = Ok (Some (0, 7, s_lit "H"))).
Proof. repeat split; vm_compute; reflexivity. Qed.

Lemma decode_rejects_witness :
  unpack_server_payload (payload_header ++ [x00] ++ b_lit "0")
  = Ok None
  /\ unpack_server_payload (payload_header ++ [x00] ++ b_lit "1x" ++ [xe2])
     = Ok None.
Proof.
  split.
  - destruct (decode_rejects (payload_header ++ [x00] ++ b_lit "0"))
      as (_ & _ & _ & r & Hr & Hnone).
    rewrite Hr. f_equal. apply Hnone. left. unfold too_short. cbn. lia.
  - destruct (decode_rejects
                (payload_header ++ [x00] ++ b_lit "1x" ++ [xe2]))
      as (_ & _ & _ & r & Hr & Hnone).
    rewrite Hr. f_equal. apply Hnone. right. right. right. left.
    reflexivity.
Defined.

(* ================================================================== *)
(** * Card values *)

Lemma calculate_sum_from (cards : list card) (acc : Z) :
  fold_left (fun acc c => acc + get_card_value (fst c)) cards acc
  = acc + hand_value cards.
Proof.
  revert acc. induction cards as [|c cards IH]; intros acc; simpl.
  - lia.
  - rewrite IH. lia.
Qed.

Lemma calculate_sum_hand_value (cards : list card) :
  BlackjackGame.calculate_sum cards = hand_value cards.
Proof. unfold BlackjackGame.calculate_sum. now rewrite calculate_sum_from. Qed.

Lemma hand_value_app (h1 h2 : list card) :
  hand_value (h1 ++ h2) = hand_value h1 + hand_value h2.
Proof. induction h1 as [|c h1 IH]; simpl; [reflexivity|]. rewrite IH. lia. Qed.

Lemma calculate_sum_snoc (cards : list card) (c : card) :
  BlackjackGame.calculate_sum (cards ++ [c])
  = BlackjackGame.calculate_sum cards + get_card_value (fst c).
Proof. rewrite !calculate_sum_hand_value, hand_value_app. simpl. lia. Qed.

Lemma get_card_value_bounds (rank : Z) :
  1 <= rank <= 13 -> 2 <= get_card_value rank <= 11.
Proof.
  intros H. unfold get_card_value.
  destruct (rank =? 1) eqn:E1; [lia|]. apply Z.eqb_neq in E1.
  destruct (rank >=? 11) eqn:E2; [lia|].
  rewrite Z.geb_leb in E2. apply Z.leb_gt in E2. lia.
Qed.

(** C8. For a rank from 1 to 13 the value of a card is 11 for the ace, 10
    for jack, queen and king, and the rank itself otherwise; the total of a
    hand is the sum of the values of its cards, each card counted on its
    own: an ace counts 11 whatever the other cards are. *)
Theorem card_value_spec (rank : Z) (cards : list card) :
  1 <= rank <= 13 ->
  get_card_value rank
  = (if rank =? 1 then 11 else if 11 <=? rank then 10 else rank)
  /\ map get_card_value (py_range 1 14)
     = [11; 2; 3; 4; 5; 6; 7; 8; 9; 10; 10; 10; 10]
  /\ BlackjackGame.calculate_sum cards = hand_value cards
  /\ (forall c, BlackjackGame.calculate_sum (cards ++ [c])
                = BlackjackGame.calculate_sum cards
                  + get_card_value (fst c)).
Proof.
  intros H. split; [|split; [reflexivity|split]].
  - unfold get_card_value. rewrite Z.geb_leb. reflexivity.
  - apply calculate_sum_hand_value.
  - intros c. apply calculate_sum_snoc.
Qed.

Lemma card_value_spec_witness :
  get_card_value 12 = 10
  /\ BlackjackGame.calculate_sum [(1, SuitInt 0); (1, SuitInt 3)] = 22.
Proof.
  destruct (card_value_spec 12 [(1, SuitInt 0); (1, SuitInt 3)]
              ltac:(lia)) as (Hv & _ & Hs & _).
  split; [rewrite Hv|rewrite Hs]; reflexivity.
Defined.

(* ================================================================== *)
(** * The deck *)

Lemma nodupb_sound (l : list Z) : nodupb l = true -> NoDup l.
Proof.
  induction l as [|x l IH]; simpl; intros H; constructor.
  - apply andb_prop in H as [H _]. apply negb_true_iff in H.
    intros Hin. apply not_true_iff_false in H. apply H.
    apply existsb_exists. exists x. split; [exact Hin|apply Z.eqb_refl].
  - apply IH. now apply andb_prop in H as [_ H].
Qed.

Lemma full_deck_length : length full_deck = 52%nat.
Proof. reflexivity. Qed.

Lemma full_deck_NoDup : NoDup full_deck.
Proof.
  apply (NoDup_map_inv card_code). apply nodupb_sound.
  vm_compute. reflexivity.
Qed.

Lemma full_deck_in (c : card) :
  In c full_deck <->
  exists rank suit, c = (rank, SuitInt suit)
                    /\ 1 <= rank <= 13 /\ 0 <= suit <= 3.
Proof.
  unfold full_deck. rewrite in_flat_map. split.
  - intros (rank & Hr & Hc). apply in_map_iff in Hc as (suit & <- & Hs).
    apply py_range_in in Hr, Hs. exists rank, suit.
    split; [reflexivity|lia].
  - intros (rank & suit & -> & Hr & Hs). exists rank.
    split; [apply in_py_range; lia|].
    apply in_map_iff. exists suit. split; [reflexivity|].
    apply in_py_range. lia.
Qed.

Lemma list_pop_snoc {A} (l : list A) (x : A) : list_pop (l ++ [x]) = Ok (x, l).
Proof. unfold list_pop. now rewrite rev_unit, rev_involutive. Qed.

Lemma list_pop_nonempty {A} (l : list A) :
  l <> [] -> exists x l', l = l' ++ [x] /\ list_pop l = Ok (x, l').
Proof.
  intros H. destruct (exists_last H) as (l' & x & ->).
  exists x, l'. split; [reflexivity|apply list_pop_snoc].
Qed.

Section DeckProperties.

Variable shuffle : nat -> list card -> list card.
Hypothesis shuffle_perm : forall n l, Permutation (shuffle n l) l.

Lemma reset_cards (d : Deck.t) :
  Permutation (Deck.cards (Deck.reset shuffle d)) full_deck
  /\ NoDup (Deck.cards (Deck.reset shuffle d))
  /\ length (Deck.cards (Deck.reset shuffle d)) = 52%nat.
Proof.
  simpl. pose proof (shuffle_perm (Deck.shuffles d) full_deck) as P.
  split; [exact P|]. split.
  - apply (Permutation_NoDup (Permutation_sym P)), full_deck_NoDup.
  - rewrite (Permutation_length P). apply full_deck_length.
Qed.

(** Drawing from a deck with cards takes the last one. *)
Lemma draw_snoc (l : list card) (c : card) (k : nat) :
  Deck.draw shuffle (Deck.mk (l ++ [c]) k) = Ok (c, Deck.mk l k).
Proof.
  unfold Deck.draw. cbn [Deck.cards Deck.shuffles].
  rewrite length_app, Nat.add_comm. cbn [length Nat.add Nat.eqb].
  cbn [Deck.cards Deck.shuffles]. now rewrite list_pop_snoc.
Qed.

Lemma draw_many_rev (cs l : list card) (k : nat) :
  Deck.draw_many shuffle (length cs) (Deck.mk (l ++ rev cs) k)
  = Ok (cs, Deck.mk l k).
Proof.
  revert l. induction cs as [|c cs IH]; intros l.
  - simpl. now rewrite app_nil_r.
  - cbn [length Deck.draw_many rev].
    rewrite app_assoc, draw_snoc, IH. reflexivity.
Qed.

(** [draw] returns a card whatever the state of the deck. *)
Lemma draw_total (d : Deck.t) :
  exists c d', Deck.draw shuffle d = Ok (c, d').
Proof.
  unfold Deck.draw.
  set (d1 := if (length (Deck.cards d) =? 0)%nat
             then Deck.reset shuffle d else d).
  assert (Deck.cards d1 <> []) as Hne.
  { subst d1. destruct (length (Deck.cards d) =? 0)%nat eqn:E.
    - destruct (reset_cards d) as (_ & _ & L).
      intros E0. rewrite E0 in L. discriminate.
    - apply Nat.eqb_neq in E. intros E0. now rewrite E0 in E. }
  destruct (list_pop_nonempty _ Hne) as (x & l' & _ & Hp).
  rewrite Hp. eexists _, _. reflexivity.
Qed.

(** C4. After [reset] the deck holds the 52 cards, each once; the next 52
    calls of [draw] return these 52 cards, each once, and leave the deck
    empty; the 53rd call shuffles a new deck and returns one of its cards,
    leaving 51.  [draw] returns a card in every state of the deck. *)
Theorem deck_invariant (d : Deck.t) :
  let d0 := Deck.reset shuffle d in
  (Permutation (Deck.cards d0) full_deck /\ NoDup (Deck.cards d0)
   /\ length (Deck.cards d0) = 52%nat)
  /\ (exists cs d1,
         Deck.draw_many shuffle 52 d0 = Ok (cs, d1)
         /\ length cs = 52%nat /\ NoDup cs /\ Permutation cs full_deck
         /\ Deck.cards d1 = []
         /\ exists c d2,
             Deck.draw shuffle d1 = Ok (c, d2)
             /\ In c full_deck
             /\ length (Deck.cards d2) = 51%nat
             /\ Deck.shuffles d2 = S (Deck.shuffles d1))
  /\ (forall d', exists c d'', Deck.draw shuffle d' = Ok (c, d'')).
Proof.
  intros d0. destruct (reset_cards d) as (P & ND & L). fold d0 in P, ND, L.
  split; [now repeat split|]. split; [|apply draw_total].
  exists (rev (Deck.cards d0)), (Deck.mk [] (Deck.shuffles d0)).
  assert (E : d0 = Deck.mk ([] ++ rev (rev (Deck.cards d0)))
                     (Deck.shuffles d0))
    by (rewrite rev_involutive; now destruct d0).
  split.
  { rewrite E at 1. rewrite <- L, <- length_rev. apply draw_many_rev. }
  split; [now rewrite length_rev|].
  split; [now apply NoDup_rev|].
  split; [now rewrite <- P; apply Permutation_sym, Permutation_rev|].
  split; [reflexivity|].
  set (d1 := Deck.mk [] (Deck.shuffles d0)).
  destruct (reset_cards d1) as (P1 & _ & L1).
  assert (Deck.cards (Deck.reset shuffle d1) <> []) as Hne
    by (intros E0; rewrite E0 in L1; discriminate).
  destruct (list_pop_nonempty _ Hne) as (x & l' & Hl & Hp).
  exists x, (Deck.mk l' (S (Deck.shuffles d0))).
  unfold Deck.draw. cbn [Deck.cards d1 length Nat.eqb]. rewrite Hp.
  split; [reflexivity|]. split.
  - apply (Permutation_in _ P1). rewrite Hl. apply in_or_app. right.
    now left.
  - cbn [Deck.cards Deck.shuffles]. split; [|reflexivity].
    rewrite Hl, length_app in L1. simpl in L1. lia.
Qed.

End DeckProperties.

Lemma flip_shuffle_perm (n : nat) (l : list card) :
  Permutation (flip_shuffle n l) l.
Proof.
  unfold flip_shuffle. destruct (Nat.even n).
  - apply Permutation_sym, Permutation_rev.
  - apply Permutation_refl.
Defined.

Lemma deck_invariant_witness :
  exists cs d1,
    Deck.draw_many flip_shuffle 52 (Deck.reset flip_shuffle (Deck.mk [] 0))
    = Ok (cs, d1)
    /\ NoDup cs /\ Permutation cs full_deck
    /\ exists c d2, Deck.draw flip_shuffle d1 = Ok (c, d2).
Proof.
  destruct (deck_invariant flip_shuffle flip_shuffle_perm (Deck.mk [] 0))
    as (_ & (cs & d1 & H1 & _ & H2 & H3 & _ & c & d2 & H4 & _) & _).
  exists cs, d1. repeat split; try assumption. now exists c, d2.
Defined.

(* ================================================================== *)
(** * The round *)

Local Ltac gsimpl :=
  cbn [BlackjackGame.deck BlackjackGame.player_cards
       BlackjackGame.dealer_cards BlackjackGame.player_sum
       BlackjackGame.dealer_sum BlackjackGame.wire
       BlackjackGame.set_deck BlackjackGame.set_player_cards
       BlackjackGame.set_dealer_cards BlackjackGame.set_player_sum
       BlackjackGame.set_dealer_sum BlackjackGame.log] in *.

Lemma pack_card (result : Z) (c : card) :
  0 <= result <= 255 -> In c full_deck \/ c = no_card ->
  pack_server_payload result (fst c) (snd c) = Ok (card_payload result c).
Proof.
  intros Hr Hc.
  assert (exists rs sc, ascii_encode (format_02d (fst c)) = Ok rs
                        /\ suit_bytes (snd c) = Ok sc) as (rs & sc & H1 & H2).
  { destruct Hc as [Hc| ->].
    - apply full_deck_in in Hc as (rank & suit & -> & Hk & Hs).
      cbn [fst snd].
      pose proof (rank_field_roundtrip rank ltac:(lia)) as A.
      unfold rank_field_ok in A.
      destruct (ascii_encode (format_02d rank)) as [rs|]; [|discriminate].
      exists rs.
      assert (suit = 0 \/ suit = 1 \/ suit = 2 \/ suit = 3)
        as [->|[->|[->| ->]]] by lia;
        eexists; (split; [reflexivity|vm_compute; reflexivity]).
    - eexists _, _. split; vm_compute; reflexivity. }
  destruct (pack_server_payload_ok result (fst c) (snd c) rs sc Hr H1 H2)
    as [b Hb].
  unfold card_payload. now rewrite Hb.
Qed.

Lemma send_card_ok (result : Z) (c : card) (g : BlackjackGame.t) :
  0 <= result <= 255 -> In c full_deck \/ c = no_card ->
  BlackjackGame.send_card c result g
  = Ok (BlackjackGame.log (sent result c) g).
Proof.
  intros Hr Hc. unfold BlackjackGame.send_card.
  now rewrite (pack_card result c Hr Hc).
Qed.

Lemma hand_value_nonneg (cards : list card) :
  Forall (fun c => In c full_deck) cards -> 0 <= hand_value cards.
Proof.
  induction 1 as [|c cards Hc _ IH]; simpl; [lia|].
  apply full_deck_in in Hc as (rank & suit & -> & Hk & _).
  pose proof (get_card_value_bounds rank Hk). simpl. lia.
Qed.

Lemma valid_card_value (c : card) :
  In c full_deck -> 2 <= get_card_value (fst c) <= 11.
Proof.
  intros Hc. apply full_deck_in in Hc as (rank & suit & -> & Hk & _).
  now apply get_card_value_bounds.
Qed.

Section RoundProperties.

Variable shuffle : nat -> list card -> list card.
Hypothesis shuffle_perm : forall n l, Permutation (shuffle n l) l.

Lemma reset_ok (d : Deck.t) : deck_ok (Deck.reset shuffle d).
Proof.
  unfold deck_ok. apply Forall_forall. intros c Hc.
  destruct (reset_cards shuffle shuffle_perm d) as (P & _).
  now apply (Permutation_in _ P).
Qed.

Lemma deck_draw_ok (d : Deck.t) :
  deck_ok d ->
  exists c d', Deck.draw shuffle d = Ok (c, d')
               /\ In c full_deck /\ deck_ok d'.
Proof.
  intros Hd. unfold Deck.draw.
  set (d1 := if (length (Deck.cards d) =? 0)%nat
             then Deck.reset shuffle d else d).
  assert (deck_ok d1) as Hd1
    by (subst d1; destruct (_ =? _)%nat; [apply reset_ok|exact Hd]).
  assert (Deck.cards d1 <> []) as Hne.
  { subst d1. destruct (length (Deck.cards d) =? 0)%nat eqn:E.
    - destruct (reset_cards shuffle shuffle_perm d) as (_ & _ & L).
      intros E0. rewrite E0 in L. discriminate.
    - apply Nat.eqb_neq in E. intros E0. now rewrite E0 in E. }
  destruct (list_pop_nonempty _ Hne) as (x & l' & Hl & Hp).
  rewrite Hp. eexists _, _. split; [reflexivity|].
  unfold deck_ok in *. rewrite Hl in Hd1. apply Forall_app in Hd1 as [H1 H2].
  split; [now inversion H2|exact H1].
Qed.

Lemma game_draw_ok (g : BlackjackGame.t) :
  deck_ok (BlackjackGame.deck g) ->
  exists c d', Deck.draw shuffle (BlackjackGame.deck g) = Ok (c, d')
               /\ BlackjackGame.draw shuffle g
                  = Ok (c, BlackjackGame.set_deck d' g)
               /\ In c full_deck /\ deck_ok d'.
Proof.
  intros Hd. destruct (deck_draw_ok _ Hd) as (c & d' & H & Hc & Hd').
  exists c, d'. unfold BlackjackGame.draw. rewrite H. now repeat split.
Qed.

(** One run of the body of the dealer's loop. *)
Lemma dealer_draw_step (fuel : nat) (g : BlackjackGame.t) :
  deck_ok (BlackjackGame.deck g) ->
  BlackjackGame.dealer_sum g < 17 ->
  exists c d',
    Deck.draw shuffle (BlackjackGame.deck g) = Ok (c, d')
    /\ In c full_deck /\ deck_ok d'
    /\ BlackjackGame.dealer_draw shuffle (S fuel) g
       = BlackjackGame.dealer_draw shuffle fuel
           (BlackjackGame.log (sent RESULT_ROUND_NOT_OVER c)
              (BlackjackGame.set_dealer_sum
                 (BlackjackGame.calculate_sum
                    (BlackjackGame.dealer_cards g ++ [c]))
                 (BlackjackGame.set_dealer_cards
                    (BlackjackGame.dealer_cards g ++ [c])
                    (BlackjackGame.set_deck d' g)))).
Proof.
  intros Hd Hs. destruct (game_draw_ok g Hd) as (c & d' & H & Hg & Hc & Hd').
  exists c, d'. repeat split; try assumption.
  cbn [BlackjackGame.dealer_draw].
  rewrite (proj2 (Z.ltb_lt _ _) Hs), Hg. cbn [bind]. gsimpl.
  rewrite send_card_ok; [reflexivity|unfold RESULT_ROUND_NOT_OVER; lia|].
  now left.
Qed.

(** The dealer's loop, from a state whose total is the sum of the dealer's
    cards: it ends when [fuel] is at least the distance to 17. *)
Lemma dealer_draw_runs (fuel : nat) :
  forall g : BlackjackGame.t,
    deck_ok (BlackjackGame.deck g) ->
    BlackjackGame.dealer_sum g
    = BlackjackGame.calculate_sum (BlackjackGame.dealer_cards g) ->
    (Z.to_nat (17 - BlackjackGame.dealer_sum g) <= fuel)%nat ->
    exists drawn g',
      BlackjackGame.dealer_draw shuffle fuel g = Some (Ok g')
      /\ 17 <= BlackjackGame.dealer_sum g'
      /\ BlackjackGame.dealer_cards g' = BlackjackGame.dealer_cards g ++ drawn
      /\ BlackjackGame.dealer_sum g'
         = BlackjackGame.calculate_sum (BlackjackGame.dealer_cards g')
      /\ BlackjackGame.wire g'
         = BlackjackGame.wire g ++ map (sent RESULT_ROUND_NOT_OVER) drawn
      /\ (forall k, (k < length drawn)%nat ->
            BlackjackGame.calculate_sum
              (BlackjackGame.dealer_cards g ++ firstn k drawn) < 17)
      /\ Forall (fun c => In c full_deck) drawn
      /\ BlackjackGame.player_sum g' = BlackjackGame.player_sum g
      /\ BlackjackGame.player_cards g' = BlackjackGame.player_cards g
      /\ deck_ok (BlackjackGame.deck g').
Proof.
  induction fuel as [|fuel IH]; intros g Hd Hs Hf.
  - exists [], g. cbn [BlackjackGame.dealer_draw].
    rewrite (proj2 (Z.ltb_ge _ _)) by lia.
    rewrite !app_nil_r.
    repeat apply conj; try assumption; try lia; try reflexivity;
      [intros k Hk; inversion Hk|constructor].
  - destruct (Z_lt_ge_dec (BlackjackGame.dealer_sum g) 17) as [Hlt|Hge].
    2:{ exists [], g. cbn [BlackjackGame.dealer_draw].
        rewrite (proj2 (Z.ltb_ge _ _)) by lia.
        rewrite !app_nil_r.
        repeat apply conj; try assumption; try lia; try reflexivity;
          [intros k Hk; inversion Hk|constructor]. }
    destruct (dealer_draw_step fuel g Hd Hlt) as (c & d' & _ & Hc & Hd' & E).
    rewrite E. clear E.
    pose proof (valid_card_value c Hc) as Hv.
    pose proof (calculate_sum_snoc (BlackjackGame.dealer_cards g) c) as Hsum.
    match goal with
    | |- context [BlackjackGame.dealer_draw shuffle fuel ?g1] =>
        destruct (IH g1) as (drawn & g' & H1 & H2 & H3 & H4 & H5 & H6 & H7
                             & H8 & H9 & H10)
    end; gsimpl; try assumption; try reflexivity; try lia.
    exists (c :: drawn), g'.
    assert (Happ : forall A (l1 : list A) x l2,
               (l1 ++ [x]) ++ l2 = l1 ++ x :: l2)
      by (intros; now rewrite <- app_assoc).
    rewrite Happ in H3, H5.
    repeat apply conj; try assumption.
    + intros [|k] Hk.
      * rewrite firstn_O, app_nil_r. lia.
      * cbn [firstn]. cbn [length] in Hk.
        specialize (H6 k ltac:(lia)). now rewrite Happ in H6.
    + now constructor.
Qed.

(** C7. The dealer's loop ends.  From a dealer's hand of cards of the deck,
    with the total equal to their sum, it returns whenever [fuel] is at
    least 17: it has drawn cards one at a time and sent each with the
    result NOT_OVER, each of them while the total was below 17, and the
    total on exit is at least 17.  Every card drawn is worth at least 2,
    so each draw raises the total. *)
Theorem dealer_draw_terminates (fuel : nat) (g : BlackjackGame.t) :
  deck_ok (BlackjackGame.deck g) ->
  Forall (fun c => In c full_deck) (BlackjackGame.dealer_cards g) ->
  BlackjackGame.dealer_sum g
  = BlackjackGame.calculate_sum (BlackjackGame.dealer_cards g) ->
  (17 <= fuel)%nat ->
  exists drawn g',
    BlackjackGame.dealer_draw shuffle fuel g = Some (Ok g')
    /\ 17 <= BlackjackGame.dealer_sum g'
    /\ BlackjackGame.dealer_cards g' = BlackjackGame.dealer_cards g ++ drawn
    /\ BlackjackGame.dealer_sum g'
       = BlackjackGame.calculate_sum (BlackjackGame.dealer_cards g')
    /\ BlackjackGame.wire g'
       = BlackjackGame.wire g ++ map (sent RESULT_ROUND_NOT_OVER) drawn
    /\ (forall k, (k < length drawn)%nat ->
          BlackjackGame.calculate_sum
            (BlackjackGame.dealer_cards g ++ firstn k drawn) < 17)
    /\ Forall (fun c => In c full_deck /\ 2 <= get_card_value (fst c)) drawn
    /\ (forall k, (k < length drawn)%nat ->
          BlackjackGame.calculate_sum
            (BlackjackGame.dealer_cards g ++ firstn k drawn)
          < BlackjackGame.calculate_sum
              (BlackjackGame.dealer_cards g ++ firstn (S k) drawn)).
Proof.
  intros Hd Hc Hs Hf.
  pose proof (hand_value_nonneg _ Hc) as Hn.
  rewrite <- calculate_sum_hand_value, <- Hs in Hn.
  destruct (dealer_draw_runs fuel g Hd Hs ltac:(lia))
    as (drawn & g' & H1 & H2 & H3 & H4 & H5 & H6 & H7 & _).
  exists drawn, g'. repeat apply conj; try assumption.
  - apply Forall_forall. intros c Hin.
    rewrite Forall_forall in H7. specialize (H7 c Hin).
    split; [exact H7|]. now apply valid_card_value.
  - intros k Hk.
    destruct (nth_error drawn k) as [c|] eqn:En.
    2:{ apply nth_error_None in En. lia. }
    assert (firstn (S k) drawn = firstn k drawn ++ [c]) as ->.
    { clear - En. revert drawn En. induction k as [|k IH]; intros [|x l] En;
        try discriminate.
      - now injection En as ->.
      - cbn [firstn app]. f_equal. now apply IH. }
    rewrite app_assoc, calculate_sum_snoc.
    rewrite Forall_forall in H7.
    pose proof (valid_card_value c (H7 c (nth_error_In _ _ En))). lia.
Qed.

Lemma determine_winner_cases (g : BlackjackGame.t) :
  let p := BlackjackGame.player_sum g in
  let d := BlackjackGame.dealer_sum g in
  (21 < d /\ BlackjackGame.determine_winner g = (s_lit "win", RESULT_WIN))
  \/ (d <= 21 /\ d < p
      /\ BlackjackGame.determine_winner g = (s_lit "win", RESULT_WIN))
  \/ (d <= 21 /\ p < d
      /\ BlackjackGame.determine_winner g = (s_lit "loss", RESULT_LOSS))
  \/ (d <= 21 /\ p = d
      /\ BlackjackGame.determine_winner g = (s_lit "tie", RESULT_TIE)).
Proof.
  intros p d. unfold BlackjackGame.determine_winner. fold p d.
  rewrite !Z.gtb_ltb.
  destruct (21 <? d) eqn:E1; [apply Z.ltb_lt in E1; now left|].
  apply Z.ltb_ge in E1.
  destruct (d <? p) eqn:E2; [apply Z.ltb_lt in E2; now right; left|].
  apply Z.ltb_ge in E2.
  destruct (p <? d) eqn:E3;
    [apply Z.ltb_lt in E3; now right; right; left|].
  apply Z.ltb_ge in E3. right. right. right.
  repeat split; [assumption|lia].
Qed.

Lemma calculate_sum_ranks (h1 h2 : list card) :
  map fst h1 = map fst h2 ->
  BlackjackGame.calculate_sum h1 = BlackjackGame.calculate_sum h2.
Proof.
  rewrite !calculate_sum_hand_value. revert h2.
  induction h1 as [|c h1 IH]; intros [|c' h2]; simpl; try discriminate.
  - reflexivity.
  - intros [= E1 E2]. rewrite E1. f_equal. now apply IH.
Qed.

Lemma determine_winner_code (g : BlackjackGame.t) :
  1 <= snd (BlackjackGame.determine_winner g) <= 3.
Proof.
  destruct (determine_winner_cases g)
    as [(_ & E)|[(_ & _ & E)|[(_ & _ & E)|(_ & _ & E)]]];
    rewrite E; cbn [snd]; unfold RESULT_WIN, RESULT_LOSS, RESULT_TIE; lia.
Qed.

(** The dealer's part of the round, step by step: the hole card is sent,
    the loop runs to a state [g1], and the result decided in [g1] is sent
    without card. *)
Lemma dealer_turn_runs (fuel : nat) (dealer_card2 : card)
    (g : BlackjackGame.t) :
  deck_ok (BlackjackGame.deck g) ->
  Forall (fun c => In c full_deck) (BlackjackGame.dealer_cards g) ->
  In dealer_card2 full_deck ->
  (17 <= fuel)%nat ->
  exists drawn g1,
    17 <= BlackjackGame.dealer_sum g1
    /\ BlackjackGame.dealer_sum g1
       = BlackjackGame.calculate_sum (BlackjackGame.dealer_cards g1)
    /\ BlackjackGame.player_sum g1 = BlackjackGame.player_sum g
    /\ BlackjackGame.wire g1
       = BlackjackGame.wire g
         ++ sent RESULT_ROUND_NOT_OVER dealer_card2
            :: map (sent RESULT_ROUND_NOT_OVER) drawn
    /\ BlackjackGame.dealer_turn shuffle fuel dealer_card2 g
       = Some (Ok (Some (fst (BlackjackGame.determine_winner g1)),
                   BlackjackGame.log
                     (sent (snd (BlackjackGame.determine_winner g1)) no_card)
                     g1)).
Proof.
  intros Hd Hc Hc2 Hf. unfold BlackjackGame.dealer_turn.
  rewrite send_card_ok;
    [|unfold RESULT_ROUND_NOT_OVER; lia|now left].
  pose proof (hand_value_nonneg _ Hc) as Hn.
  rewrite <- calculate_sum_hand_value in Hn.
  match goal with
  | |- context [BlackjackGame.dealer_draw shuffle fuel ?g1] =>
      destruct (dealer_draw_runs fuel g1)
        as (drawn & g' & H1 & H2 & _ & H4 & H5 & _ & _ & H8 & _ & _)
  end; gsimpl; try assumption; try reflexivity; try lia.
  exists drawn, g'. rewrite H1.
  split; [exact H2|]. split; [exact H4|]. split; [exact H8|].
  split; [now rewrite H5, <- app_assoc|].
  pose proof (determine_winner_code g') as Hcode.
  destruct (BlackjackGame.determine_winner g') as [result code].
  cbn [fst snd] in *.
  rewrite send_card_ok; [reflexivity|lia|now right].
Qed.

(** C3. The resolution of a round.  From the end of the player's turn, with
    the dealer holding cards of the deck, the dealer's part of the round
    runs to its end and the last message sent is a payload without card
    that carries the result: WIN when the dealer's total is over 21;
    otherwise WIN when the player's total is the higher one, LOSS when the
    dealer's is, TIE when they are equal.  The result is from the player's
    side, it depends on the two totals only, and a total depends on the
    ranks of the cards only.  (This holds for every total of the player, at
    most 21 or not.) *)
Theorem round_resolution (fuel : nat) (dealer_card2 : card)
    (g : BlackjackGame.t) :
  deck_ok (BlackjackGame.deck g) ->
  Forall (fun c => In c full_deck) (BlackjackGame.dealer_cards g) ->
  In dealer_card2 full_deck ->
  (17 <= fuel)%nat ->
  exists g' result code,
    BlackjackGame.dealer_turn shuffle fuel dealer_card2 g
    = Some (Ok (Some result, g'))
    /\ BlackjackGame.player_sum g' = BlackjackGame.player_sum g
    /\ BlackjackGame.dealer_sum g'
       = BlackjackGame.calculate_sum (BlackjackGame.dealer_cards g')
    /\ 17 <= BlackjackGame.dealer_sum g'
    /\ (exists w, BlackjackGame.wire g' = w ++ [sent code no_card])
    /\ unpack_server_payload (card_payload code no_card)
       = Ok (Some (code, 0, s_lit "H"))
    /\ (21 < BlackjackGame.dealer_sum g' ->
        code = RESULT_WIN /\ result = s_lit "win")
    /\ (BlackjackGame.dealer_sum g' <= 21 ->
        BlackjackGame.dealer_sum g' < BlackjackGame.player_sum g ->
        code = RESULT_WIN /\ result = s_lit "win")
    /\ (BlackjackGame.dealer_sum g' <= 21 ->
        BlackjackGame.player_sum g < BlackjackGame.dealer_sum g' ->
        code = RESULT_LOSS /\ result = s_lit "loss")
    /\ (BlackjackGame.dealer_sum g' <= 21 ->
        BlackjackGame.player_sum g = BlackjackGame.dealer_sum g' ->
        code = RESULT_TIE /\ result = s_lit "tie")
    /\ (forall h1 h2 : list card,
           map fst h1 = map fst h2 ->
           BlackjackGame.calculate_sum h1 = BlackjackGame.calculate_sum h2).
Proof.
  intros Hd Hc Hc2 Hf.
  destruct (dealer_turn_runs fuel dealer_card2 g Hd Hc Hc2 Hf)
    as (drawn & g1 & H1 & H2 & H3 & _ & H5).
  pose proof (determine_winner_cases g1) as W. cbv zeta in W.
  rewrite H3 in W.
  exists (BlackjackGame.log
            (sent (snd (BlackjackGame.determine_winner g1)) no_card) g1),
    (fst (BlackjackGame.determine_winner g1)),
    (snd (BlackjackGame.determine_winner g1)).
  gsimpl. split; [exact H5|]. split; [exact H3|]. split; [exact H2|].
  split; [exact H1|]. split; [eexists; reflexivity|].
  destruct W as [(C & E)|[(C1 & C2 & E)|[(C1 & C2 & E)|(C1 & C2 & E)]]];
    rewrite E; cbn [fst snd];
    (split; [vm_compute; reflexivity|]);
    repeat apply conj; intros; try (split; reflexivity); try lia;
    now apply calculate_sum_ranks.
Qed.

Lemma receive_action_data (data : bytes) (action : pystr)
    (g : BlackjackGame.t) :
  unpack_client_payload data = Ok (Some action) ->
  BlackjackGame.receive_action (RecvData data) g
  = (Some action, BlackjackGame.log EvRecv g).
Proof.
  intros H. unfold BlackjackGame.receive_action.
  destruct data as [|x data]; [discriminate|]. now rewrite H.
Qed.

Lemma receive_action_logs (ev : recv_event) (g : BlackjackGame.t) :
  snd (BlackjackGame.receive_action ev g) = BlackjackGame.log EvRecv g.
Proof.
  unfold BlackjackGame.receive_action.
  destruct ev as [[|x data]| |]; try reflexivity.
  now destruct (unpack_client_payload (x :: data)).
Qed.

(** C5. A hit in the player's turn.  With the player's total below 21 and
    a Hit payload received, the server draws one card [c] and takes as the
    new total the sum over all the player's cards, [c] included.  Over 21:
    it sends [c] with the result LOSS and [play_round] returns "loss"; that
    payload is the last thing on the wire, the dealer's hand and total are
    untouched.  At 21 or less: it sends [c] with NOT_OVER and goes back to
    the test of the player's loop. *)
Theorem hit_step (fuel : nat) (dealer_card2 : card) (data : bytes)
    (rest : list recv_event) (g : BlackjackGame.t) :
  deck_ok (BlackjackGame.deck g) ->
  BlackjackGame.player_sum g < 21 ->
  unpack_client_payload data = Ok (Some (s_lit "hit")) ->
  exists c d',
    Deck.draw shuffle (BlackjackGame.deck g) = Ok (c, d')
    /\ In c full_deck
    /\ let total :=
         BlackjackGame.calculate_sum (BlackjackGame.player_cards g ++ [c]) in
       let g1 :=
         BlackjackGame.set_player_sum total
           (BlackjackGame.set_player_cards
              (BlackjackGame.player_cards g ++ [c])
              (BlackjackGame.set_deck d' (BlackjackGame.log EvRecv g))) in
       (21 < total ->
        let g2 := BlackjackGame.log (sent RESULT_LOSS c) g1 in
        BlackjackGame.player_step shuffle (RecvData data) g
        = Ok (Return (Some (s_lit "loss")), g2)
        /\ BlackjackGame.play_hand shuffle fuel dealer_card2
             (RecvData data :: rest) g
           = Some (Ok (Finished (Some (s_lit "loss")), rest, g2))
        /\ BlackjackGame.wire g2
           = BlackjackGame.wire g ++ [EvRecv; sent RESULT_LOSS c]
        /\ BlackjackGame.dealer_cards g2 = BlackjackGame.dealer_cards g
        /\ BlackjackGame.dealer_sum g2 = BlackjackGame.dealer_sum g)
       /\ (total <= 21 ->
           let g2 := BlackjackGame.log (sent RESULT_ROUND_NOT_OVER c) g1 in
           BlackjackGame.player_step shuffle (RecvData data) g
           = Ok (Again, g2)
           /\ BlackjackGame.player_turn shuffle (RecvData data :: rest) g
              = BlackjackGame.player_turn shuffle rest g2
           /\ BlackjackGame.play_hand shuffle fuel dealer_card2
                (RecvData data :: rest) g
              = BlackjackGame.play_hand shuffle fuel dealer_card2 rest g2
           /\ BlackjackGame.wire g2
              = BlackjackGame.wire g
                ++ [EvRecv; sent RESULT_ROUND_NOT_OVER c]
           /\ BlackjackGame.player_sum g2 = total).
Proof.
  intros Hd Hs Hhit.
  destruct (game_draw_ok (BlackjackGame.log EvRecv g) Hd)
    as (c & d' & H & Hg & Hc & Hd').
  exists c, d'. split; [exact H|]. split; [exact Hc|].
  intros total g1.
  assert (Hstep : BlackjackGame.player_step shuffle (RecvData data) g
                  = (if total >? 21
                     then Ok (Return (Some (s_lit "loss")),
                              BlackjackGame.log (sent RESULT_LOSS c) g1)
                     else Ok (Again,
                              BlackjackGame.log
                                (sent RESULT_ROUND_NOT_OVER c) g1))).
  { unfold BlackjackGame.player_step.
    rewrite (receive_action_data _ _ _ Hhit).
    change (pystr_eqb (s_lit "hit") (s_lit "stand")) with false.
    change (pystr_eqb (s_lit "hit") (s_lit "hit")) with true.
    cbv iota. rewrite Hg. cbn [bind]. gsimpl. fold total.
    destruct (total >? 21);
      (rewrite send_card_ok;
       [reflexivity|unfold RESULT_LOSS, RESULT_ROUND_NOT_OVER; lia
       |now left]). }
  assert (Hwire : forall e, BlackjackGame.wire (BlackjackGame.log e g1)
                            = BlackjackGame.wire g ++ [EvRecv; e]).
  { intros e. subst g1. gsimpl. now rewrite <- app_assoc. }
  split; intros Ht.
  - rewrite (proj2 (Z.gtb_gt _ _)) in Hstep by lia. intros g2.
    split; [exact Hstep|]. split; [|split; [apply Hwire|now split]].
    unfold BlackjackGame.play_hand. cbn [BlackjackGame.player_turn].
    now rewrite (proj2 (Z.ltb_lt _ _) Hs), Hstep.
  - assert ((total >? 21) = false) as E
      by (rewrite Z.gtb_ltb; apply Z.ltb_ge; lia).
    rewrite E in Hstep. intros g2.
    split; [exact Hstep|].
    assert (BlackjackGame.player_turn shuffle (RecvData data :: rest) g
            = BlackjackGame.player_turn shuffle rest g2) as Hturn.
    { cbn [BlackjackGame.player_turn].
      now rewrite (proj2 (Z.ltb_lt _ _) Hs), Hstep. }
    split; [exact Hturn|]. split; [|split; [apply Hwire|reflexivity]].
    unfold BlackjackGame.play_hand. now rewrite Hturn.
Qed.

(** A run of the body of the player's loop starts with a [recv] and does
    not raise. *)
Lemma player_step_recv (ev : recv_event) (g : BlackjackGame.t) :
  deck_ok (BlackjackGame.deck g) ->
  exists e g' w,
    BlackjackGame.player_step shuffle ev g = Ok (e, g')
    /\ BlackjackGame.wire g' = BlackjackGame.wire g ++ EvRecv :: w.
Proof.
  intros Hd. unfold BlackjackGame.player_step.
  pose proof (receive_action_logs ev g) as L.
  destruct (BlackjackGame.receive_action ev g) as [action g0].
  cbn [snd] in L. subst g0.
  destruct action as [action|].
  2:{ eexists _, _, []. split; [reflexivity|]. reflexivity. }
  destruct (pystr_eqb action (s_lit "stand")).
  { rewrite send_card_ok;
      [|unfold RESULT_ROUND_NOT_OVER; lia|now right].
    cbn [bind]. eexists _, _, [_]. split; [reflexivity|].
    gsimpl. now rewrite <- app_assoc. }
  destruct (pystr_eqb action (s_lit "hit")).
  2:{ eexists _, _, []. split; reflexivity. }
  destruct (game_draw_ok (BlackjackGame.log EvRecv g) Hd)
    as (c & d' & _ & Hg & Hc & _).
  rewrite Hg. cbn [bind]. gsimpl.
  destruct (_ >? 21);
    (rewrite send_card_ok;
     [|unfold RESULT_LOSS, RESULT_ROUND_NOT_OVER; lia|now left]);
    cbn [bind]; eexists _, _, [_]; (split; [reflexivity|]);
    gsimpl; now rewrite <- app_assoc.
Qed.

(** C6. The server asks for the player's action exactly while the player's
    total is below 21.  Below 21 the loop calls [recv]: with no input left
    the server is waiting for a client payload, and with input the first
    thing it does is to receive.  At 21 or more the loop is left at once:
    nothing is received, nothing is sent for the player (no acknowledgement
    as after "stand", no result), and the round goes on with the hole card,
    sent with NOT_OVER, and ends with the result the resolution gives. *)
Theorem solicits_below_21 (fuel : nat) (dealer_card2 : card)
    (inbox : list recv_event) (g : BlackjackGame.t) :
  deck_ok (BlackjackGame.deck g) ->
  Forall (fun c => In c full_deck) (BlackjackGame.dealer_cards g) ->
  In dealer_card2 full_deck ->
  (17 <= fuel)%nat ->
  (BlackjackGame.player_turn shuffle [] g = Ok (AwaitAction, [], g)
   <-> BlackjackGame.player_sum g < 21)
  /\ (BlackjackGame.player_sum g < 21 ->
      BlackjackGame.play_hand shuffle fuel dealer_card2 [] g
      = Some (Ok (Waiting, [], g))
      /\ forall ev rest,
          exists e g' w,
            BlackjackGame.player_step shuffle ev g = Ok (e, g')
            /\ BlackjackGame.wire g' = BlackjackGame.wire g ++ EvRecv :: w
            /\ BlackjackGame.player_turn shuffle (ev :: rest) g
               = match e with
                 | Return r => Ok (TurnReturn r, rest, g')
                 | Break => Ok (TurnOver, rest, g')
                 | Again => BlackjackGame.player_turn shuffle rest g'
                 end)
  /\ (21 <= BlackjackGame.player_sum g ->
      BlackjackGame.player_turn shuffle inbox g = Ok (TurnOver, inbox, g)
      /\ exists drawn g1,
          BlackjackGame.wire g1
          = BlackjackGame.wire g
            ++ sent RESULT_ROUND_NOT_OVER dealer_card2
               :: map (sent RESULT_ROUND_NOT_OVER) drawn
          /\ BlackjackGame.player_sum g1 = BlackjackGame.player_sum g
          /\ BlackjackGame.play_hand shuffle fuel dealer_card2 inbox g
             = Some (Ok (Finished
                           (Some (fst (BlackjackGame.determine_winner g1))),
                         inbox,
                         BlackjackGame.log
                           (sent (snd (BlackjackGame.determine_winner g1))
                                 no_card) g1))).
Proof.
  intros Hd Hc Hc2 Hf.
  assert (Hhigh : 21 <= BlackjackGame.player_sum g ->
                  forall l, BlackjackGame.player_turn shuffle l g
                            = Ok (TurnOver, l, g)).
  { intros H l. destruct l; cbn [BlackjackGame.player_turn];
      now rewrite (proj2 (Z.ltb_ge _ _) H). }
  assert (Hlow : BlackjackGame.player_sum g < 21 ->
                 BlackjackGame.player_turn shuffle [] g
                 = Ok (AwaitAction, [], g)).
  { intros H. cbn [BlackjackGame.player_turn].
    now rewrite (proj2 (Z.ltb_lt _ _) H). }
  split; [|split].
  - split; [|exact Hlow]. intros H.
    destruct (Z_lt_ge_dec (BlackjackGame.player_sum g) 21) as [Hlt|Hge];
      [exact Hlt|].
    rewrite (Hhigh ltac:(lia)) in H. discriminate.
  - intros H. split.
    + unfold BlackjackGame.play_hand. now rewrite (Hlow H).
    + intros ev rest.
      destruct (player_step_recv ev g Hd) as (e & g' & w & Hstep & Hw).
      exists e, g', w. split; [exact Hstep|]. split; [exact Hw|].
      cbn [BlackjackGame.player_turn].
      rewrite (proj2 (Z.ltb_lt _ _) H), Hstep. now destruct e.
  - intros H. split; [now apply Hhigh|].
    destruct (dealer_turn_runs fuel dealer_card2 g Hd Hc Hc2 Hf)
      as (drawn & g1 & _ & _ & H3 & H4 & H5).
    exists drawn, g1. split; [exact H4|]. split; [exact H3|].
    unfold BlackjackGame.play_hand. now rewrite (Hhigh H), H5.
Qed.

(** The body of the player's loop keeps the deck within the 52 cards and
    leaves the dealer's hand alone. *)
Lemma player_step_keeps (ev : recv_event) (g : BlackjackGame.t) :
  deck_ok (BlackjackGame.deck g) ->
  exists e g',
    BlackjackGame.player_step shuffle ev g = Ok (e, g')
    /\ deck_ok (BlackjackGame.deck g')
    /\ BlackjackGame.dealer_cards g' = BlackjackGame.dealer_cards g.
Proof.
  intros Hd. unfold BlackjackGame.player_step.
  pose proof (receive_action_logs ev g) as L.
  destruct (BlackjackGame.receive_action ev g) as [action g0].
  cbn [snd] in L. subst g0.
  destruct action as [action|]; [|now eexists _, _].
  destruct (pystr_eqb action (s_lit "stand")).
  { rewrite send_card_ok;
      [|unfold RESULT_ROUND_NOT_OVER; lia|now right].
    now eexists _, _. }
  destruct (pystr_eqb action (s_lit "hit")); [|now eexists _, _].
  destruct (game_draw_ok (BlackjackGame.log EvRecv g) Hd)
    as (c & d' & _ & Hg & Hc & Hd').
  rewrite Hg. cbn [bind]. gsimpl.
  destruct (_ >? 21);
    (rewrite send_card_ok;
     [|unfold RESULT_LOSS, RESULT_ROUND_NOT_OVER; lia|now left]);
    now eexists _, _.
Qed.

Lemma player_turn_runs (inbox : list recv_event) :
  forall g : BlackjackGame.t,
    deck_ok (BlackjackGame.deck g) ->
    exists e inbox' g',
      BlackjackGame.player_turn shuffle inbox g = Ok (e, inbox', g')
      /\ deck_ok (BlackjackGame.deck g')
      /\ BlackjackGame.dealer_cards g' = BlackjackGame.dealer_cards g.
Proof.
  induction inbox as [|ev rest IH]; intros g Hd;
    cbn [BlackjackGame.player_turn];
    destruct (BlackjackGame.player_sum g <? 21); try now eexists _, _, _.
  destruct (player_step_keeps ev g Hd) as (e & g' & Hs & Hd' & Hc).
  rewrite Hs. destruct e as [r| |]; try now eexists _, _, _.
  destruct (IH g' Hd') as (e & inbox' & g'' & Ht & Hd'' & Hc').
  exists e, inbox', g''. rewrite Ht, Hc', Hc. now repeat split.
Qed.

Lemma deal_initial_runs (g : BlackjackGame.t) :
  exists dealer_card1 dealer_card2 g',
    BlackjackGame.deal_initial shuffle g = Ok (dealer_card2, g')
    /\ deck_ok (BlackjackGame.deck g')
    /\ In dealer_card1 full_deck /\ In dealer_card2 full_deck
    /\ BlackjackGame.dealer_cards g' = [dealer_card1; dealer_card2]
    /\ BlackjackGame.player_sum g'
       = BlackjackGame.calculate_sum (BlackjackGame.player_cards g')
    /\ length (BlackjackGame.player_cards g') = 2%nat
    /\ length (BlackjackGame.wire g') = (length (BlackjackGame.wire g) + 3)%nat.
Proof.
  unfold BlackjackGame.deal_initial.
  set (g0 := BlackjackGame.set_dealer_cards [] _).
  assert (deck_ok (BlackjackGame.deck g0)) as H0 by apply reset_ok.
  destruct (game_draw_ok g0 H0) as (c1 & d1 & _ & E1 & Hc1 & Hd1).
  rewrite E1. cbn [bind].
  destruct (game_draw_ok (BlackjackGame.set_deck d1 g0) Hd1)
    as (c2 & d2 & _ & E2 & Hc2 & Hd2).
  rewrite E2. cbn [bind].
  match goal with
  | |- context [BlackjackGame.draw shuffle ?g3] =>
      destruct (game_draw_ok g3 Hd2) as (c3 & d3 & _ & E3 & Hc3 & Hd3)
  end.
  rewrite E3. cbn [bind].
  match goal with
  | |- context [BlackjackGame.draw shuffle ?g4] =>
      destruct (game_draw_ok g4 Hd3) as (c4 & d4 & _ & E4 & Hc4 & Hd4)
  end.
  rewrite E4. cbn [bind].
  do 3 (rewrite send_card_ok;
        [|unfold RESULT_ROUND_NOT_OVER; lia|now left]; cbn [bind]).
  exists c3, c4. eexists. split; [reflexivity|].
  subst g0. gsimpl. rewrite !length_app. cbn [length].
  repeat apply conj; try assumption; try reflexivity; lia.
Qed.

(** [play_round] runs to its end from every state and on every input: it
    returns, or it is left waiting for the player. *)
Lemma play_round_runs (fuel : nat) (inbox : list recv_event)
    (g : BlackjackGame.t) :
  (17 <= fuel)%nat ->
  exists e inbox' g',
    BlackjackGame.play_round shuffle fuel inbox g
    = Some (Ok (e, inbox', g')).
Proof.
  intros Hf. unfold BlackjackGame.play_round.
  destruct (deal_initial_runs g)
    as (dc1 & dc2 & g1 & E & Hd & H1 & H2 & Hc & _).
  rewrite E. unfold BlackjackGame.play_hand.
  destruct (player_turn_runs inbox g1 Hd)
    as (e & inbox' & g2 & Et & Hd2 & Hc2).
  rewrite Et. destruct e as [r| |]; try now eexists _, _, _.
  assert (Forall (fun c => In c full_deck) (BlackjackGame.dealer_cards g2))
    as Hv by (rewrite Hc2, Hc; repeat (constructor; [assumption|]);
              constructor).
  destruct (dealer_turn_runs fuel dc2 g2 Hd2 Hv H2 Hf)
    as (drawn & g3 & _ & _ & _ & _ & Er).
  rewrite Er. now eexists _, _, _.
Qed.

(** More fuel does not change the outcome of the dealer's loop. *)
Lemma dealer_draw_more_fuel (fuel : nat) :
  forall (g : BlackjackGame.t) (r : res BlackjackGame.t),
    BlackjackGame.dealer_draw shuffle fuel g = Some r ->
    BlackjackGame.dealer_draw shuffle (S fuel) g = Some r.
Proof.
  induction fuel as [|fuel IH]; intros g r.
  - cbn [BlackjackGame.dealer_draw].
    destruct (BlackjackGame.dealer_sum g <? 17); [discriminate|trivial].
  - intros H. remember (S fuel) as n eqn:En.
    cbn [BlackjackGame.dealer_draw]. subst n.
    cbn [BlackjackGame.dealer_draw] in H.
    destruct (BlackjackGame.dealer_sum g <? 17); [|exact H].
    destruct (bind _ _) as [g'|e]; [|exact H]. now apply IH.
Qed.

End RoundProperties.

(* ================================================================== *)
(** * Rounds played out *)

Local Ltac in_deck :=
  apply full_deck_in; eexists _, _; (split; [reflexivity|lia]).

Local Ltac all_in_deck :=
  unfold deck_ok; cbn [Deck.cards BlackjackGame.deck
                       BlackjackGame.dealer_cards];
  repeat (constructor; [in_deck|]); constructor.

Lemma dealer_draw_terminates_witness :
  exists g',
    BlackjackGame.dealer_draw flip_shuffle 17 dealer_on_11 = Some (Ok g')
    /\ BlackjackGame.dealer_cards g' = [card_C 6; card_H 5; card_D 8]
    /\ BlackjackGame.dealer_sum g' = 19.
Proof.
  destruct (dealer_draw_terminates flip_shuffle flip_shuffle_perm 17
              dealer_on_11)
    as (drawn & g' & H & _); [all_in_deck|all_in_deck|reflexivity|lia|].
  exists g'. split; [exact H|].
  vm_compute in H. injection H as <-. split; reflexivity.
Defined.

Lemma round_resolution_witness :
  exists g',
    BlackjackGame.dealer_turn flip_shuffle 17 (card_H 5) stand_on_19
    = Some (Ok (Some (s_lit "tie"), g'))
    /\ BlackjackGame.wire g'
       = [sent RESULT_ROUND_NOT_OVER (card_H 5);
          sent RESULT_ROUND_NOT_OVER (card_D 8);
          sent RESULT_TIE no_card].
Proof.
  destruct (round_resolution flip_shuffle flip_shuffle_perm 17 (card_H 5)
              stand_on_19)
    as (g' & result & code & H & _ & _ & _ & Hw & _);
    [all_in_deck|all_in_deck|in_deck|lia|].
  exists g'. pose proof H as E. vm_compute in E.
  injection E as <- <-. split; [exact H|reflexivity].
Defined.

Lemma hit_step_witness :
  exists g',
    BlackjackGame.play_hand flip_shuffle 17 (card_H 9)
      [RecvData sample_hit] player_on_15
    = Some (Ok (Finished (Some (s_lit "loss")), [], g'))
    /\ BlackjackGame.wire g' = [EvRecv; sent RESULT_LOSS (card_D 7)].
Proof.
  destruct (hit_step flip_shuffle flip_shuffle_perm 17 (card_H 9)
              sample_hit [] player_on_15)
    as (c & d' & Hdraw & _ & Hbust & _);
    [all_in_deck|cbn; lia|reflexivity|].
  vm_compute in Hdraw. injection Hdraw as <- <-.
  destruct Hbust as (_ & Hplay & Hwire & _); [vm_compute; reflexivity|].
  eexists. split; [exact Hplay|exact Hwire].
Defined.

Lemma solicits_below_21_witness :
  BlackjackGame.player_turn flip_shuffle [] both_on_21
  = Ok (TurnOver, [], both_on_21)
  /\ exists g',
      BlackjackGame.play_hand flip_shuffle 17 (card_D 1) [] both_on_21
      = Some (Ok (Finished (Some (s_lit "tie")), [], g'))
      /\ BlackjackGame.wire g'
         = [sent RESULT_ROUND_NOT_OVER (card_D 1);
            sent RESULT_TIE no_card].
Proof.
  destruct (solicits_below_21 flip_shuffle flip_shuffle_perm 17 (card_D 1)
              [] both_on_21)
    as (_ & _ & H21); [all_in_deck|all_in_deck|in_deck|lia|].
  destruct H21 as (Hturn & _); [cbn; lia|].
  split; [exact Hturn|].
  eexists. split; [vm_compute; reflexivity|reflexivity].
Defined.

(** A whole round on a deck dealt from the aces down: the player gets two
    aces, 22, which the player's loop does not count as a bust; no action
    is asked for, the dealer shows two aces as well and the player wins. *)
Example round_of_aces :
  exists g',
    BlackjackGame.play_round flip_shuffle 17 [] new_game
    = Some (Ok (Finished (Some (s_lit "win")), [], g'))
    /\ BlackjackGame.player_cards g' = [card_H 1; card_D 1]
    /\ BlackjackGame.player_sum g' = 22
    /\ BlackjackGame.dealer_sum g' = 22
    /\ BlackjackGame.wire g'
       = [sent RESULT_ROUND_NOT_OVER (card_H 1);
          sent RESULT_ROUND_NOT_OVER (card_D 1);
          sent RESULT_ROUND_NOT_OVER (card_C 1);
          sent RESULT_ROUND_NOT_OVER (card_S 1);
          sent RESULT_WIN no_card].
Proof. eexists. split; [vm_compute; reflexivity|]. now repeat split. Qed.

(** A whole round on a deck dealt from the kings down: the player stands
    on 20, the dealer has 20 and does not draw: a tie. *)
Example round_of_kings :
  exists g',
    BlackjackGame.play_round flip_shuffle 17
      [RecvData (payload_header ++ ACTION_STAND)]
      (BlackjackGame.mk (Deck.mk [] 1) [] [] 0 0 [])
    = Some (Ok (Finished (Some (s_lit "tie")), [], g'))
    /\ BlackjackGame.wire g'
       = [sent RESULT_ROUND_NOT_OVER (card_S 13);
          sent RESULT_ROUND_NOT_OVER (card_C 13);
          sent RESULT_ROUND_NOT_OVER (card_D 13);
          EvRecv;
          sent RESULT_ROUND_NOT_OVER no_card;
          sent RESULT_ROUND_NOT_OVER (card_H 13);
          sent RESULT_TIE no_card].
Proof. eexists. split; [vm_compute; reflexivity|]. reflexivity. Qed.

(** The action token is compared as a whole. *)
Example pack_client_payload_samples :
  pack_client_payload (s_lit "HiT") = Ok (payload_header ++ ACTION_HIT)
  /\ pack_client_payload (s_lit "h") = Ok (payload_header ++ ACTION_STAND)
  /\ pack_client_payload (s_lit "hit ") = Ok (payload_header ++ ACTION_STAND)
  /\ pack_client_payload [] = Ok (payload_header ++ ACTION_STAND).
Proof. repeat split. Qed.

(** A name longer than the field comes back cut to 32 bytes. *)
Example long_name_is_cut :
  match pack_request 1 (s_lit "0123456789012345678901234567890123456789") with
  | Ok b =>
      unpack_request b
      = Ok (Some (1, s_lit "01234567890123456789012345678901"))
  | Raise _ => False
  end.
Proof. vm_compute. reflexivity. Qed.

(* ================================================================== *)
(** * More on the wire codec *)

(** ** The bytes of an encoded message *)

Lemma pack_offer_bytes (tcp_port : Z) (name : pystr) (b : bytes) :
  pack_offer tcp_port name = Ok b ->
  exists p, pad_name name = Ok p /\ 0 <= tcp_port <= 65535
            /\ b = offer_header ++ be_bytes 2 tcp_port ++ p.
Proof.
  unfold pack_offer. destruct (pad_name name) as [p|] eqn:Ep; [|discriminate].
  cbn [bind]. unfold OFFER_FORMAT.
  cbn [struct_pack pack_item item_size].
  change (pack_uint 4 MAGIC_COOKIE) with (Ok [xab; xcd; xdc; xba]).
  change (pack_uint 1 MSG_TYPE_OFFER) with (Ok [x02]).
  cbn [bind]. unfold pack_uint.
  destruct ((0 <=? tcp_port) && (tcp_port <? 256 ^ Z.of_nat 2)) eqn:E;
    [|discriminate].
  cbn [bind]. intros H. apply Ok_inj in H. subst b.
  apply andb_prop in E as [E1 E2]. apply Z.leb_le in E1.
  apply Z.ltb_lt in E2. change (256 ^ Z.of_nat 2) with 65536 in E2.
  exists p. split; [reflexivity|]. split; [lia|].
  rewrite (norm_name _ (pad_name_length _ _ Ep)), app_nil_r. reflexivity.
Qed.

Lemma pack_request_bytes (num_rounds : Z) (name : pystr) (b : bytes) :
  pack_request num_rounds name = Ok b ->
  exists p, pad_name name = Ok p /\ 0 <= num_rounds <= 255
            /\ b = request_header ++ be_bytes 1 num_rounds ++ p.
Proof.
  unfold pack_request.
  destruct (pad_name name) as [p|] eqn:Ep; [|discriminate].
  cbn [bind]. unfold REQUEST_FORMAT.
  cbn [struct_pack pack_item item_size].
  change (pack_uint 4 MAGIC_COOKIE) with (Ok [xab; xcd; xdc; xba]).
  change (pack_uint 1 MSG_TYPE_REQUEST) with (Ok [x03]).
  cbn [bind]. unfold pack_uint.
  destruct ((0 <=? num_rounds) && (num_rounds <? 256 ^ Z.of_nat 1)) eqn:E;
    [|discriminate].
  cbn [bind]. intros H. apply Ok_inj in H. subst b.
  apply andb_prop in E as [E1 E2]. apply Z.leb_le in E1.
  apply Z.ltb_lt in E2. change (256 ^ Z.of_nat 1) with 256 in E2.
  exists p. split; [reflexivity|]. split; [lia|].
  rewrite (norm_name _ (pad_name_length _ _ Ep)), app_nil_r. reflexivity.
Qed.

Lemma pack_client_payload_bytes (action : pystr) :
  pack_client_payload action
  = Ok (payload_header
        ++ (if pystr_eqb (lower action) (s_lit "hit")
            then ACTION_HIT else ACTION_STAND)).
Proof.
  unfold pack_client_payload.
  now destruct (pystr_eqb (lower action) (s_lit "hit")).
Qed.

Lemma pack_server_payload_bytes (result card_rank : Z) (card_suit : suit_arg)
    (b : bytes) :
  pack_server_payload result card_rank card_suit = Ok b ->
  exists rs sc,
    ascii_encode (format_02d card_rank) = Ok rs
    /\ suit_bytes card_suit = Ok sc
    /\ 0 <= result <= 255
    /\ b = payload_header ++ be_bytes 1 result
           ++ (firstn 2 rs ++ repeat x00 (2 - length rs))
           ++ (firstn 1 sc ++ repeat x00 (1 - length sc)).
Proof.
  unfold pack_server_payload. fold (suit_bytes card_suit).
  destruct (ascii_encode (format_02d card_rank)) as [rs|]; [|discriminate].
  destruct (suit_bytes card_suit) as [sc|]; [|discriminate].
  cbn [bind]. unfold SERVER_PAYLOAD_FORMAT.
  cbn [struct_pack pack_item item_size].
  change (pack_uint 4 MAGIC_COOKIE) with (Ok [xab; xcd; xdc; xba]).
  change (pack_uint 1 MSG_TYPE_PAYLOAD) with (Ok [x04]).
  cbn [bind]. unfold pack_uint.
  destruct ((0 <=? result) && (result <? 256 ^ Z.of_nat 1)) eqn:E;
    [|discriminate].
  cbn [bind]. intros H. apply Ok_inj in H. subst b.
  apply andb_prop in E as [E1 E2]. apply Z.leb_le in E1.
  apply Z.ltb_lt in E2. change (256 ^ Z.of_nat 1) with 256 in E2.
  exists rs, sc. split; [reflexivity|]. split; [reflexivity|].
  split; [lia|]. now rewrite app_nil_r.
Qed.

Lemma be_bytes_1 (z : Z) : be_bytes 1 z = [byte_of_Z z].
Proof. reflexivity. Qed.

Lemma be_bytes_2 (z : Z) : be_bytes 2 z = [byte_of_Z (z / 256); byte_of_Z z].
Proof. reflexivity. Qed.

Local Ltac decoded_none spec :=
  let r := fresh "r" in
  let H := fresh "H" in
  let Hn := fresh "Hn" in
  destruct spec as (r & H & Hn); rewrite H; f_equal; apply Hn.

(** X1. No encoded message is taken for a message of another kind: each
    of the other three decoders returns [None] on it.  This holds although
    the two payloads carry the same type byte. *)
Theorem kinds_do_not_mix :
  (forall tcp_port name b,
      pack_offer tcp_port name = Ok b ->
      unpack_request b = Ok None
      /\ unpack_client_payload b = Ok None
      /\ unpack_server_payload b = Ok None)
  /\ (forall num_rounds name b,
         pack_request num_rounds name = Ok b ->
         unpack_offer b = Ok None
         /\ unpack_client_payload b = Ok None
         /\ unpack_server_payload b = Ok None)
  /\ (forall action b,
         pack_client_payload action = Ok b ->
         unpack_offer b = Ok None
         /\ unpack_request b = Ok None
         /\ unpack_server_payload b = Ok None)
  /\ (forall result card_rank card_suit b,
         pack_server_payload result card_rank card_suit = Ok b ->
         unpack_offer b = Ok None
         /\ unpack_request b = Ok None
         /\ unpack_client_payload b = Ok None).
Proof.
  repeat apply conj.
  - intros tcp_port name b Hb.
    destruct (pack_offer_bytes _ _ _ Hb) as (p & _ & _ & ->).
    repeat apply conj.
    + decoded_none (unpack_request_spec
                      (offer_header ++ be_bytes 2 tcp_port ++ p)).
      right. right. unfold bad_type. now vm_compute.
    + decoded_none (unpack_client_payload_spec
                      (offer_header ++ be_bytes 2 tcp_port ++ p)).
      right. right. left. unfold bad_type. now vm_compute.
    + decoded_none (unpack_server_payload_spec
                      (offer_header ++ be_bytes 2 tcp_port ++ p)).
      right. right. left. unfold bad_type. now vm_compute.
  - intros num_rounds name b Hb.
    destruct (pack_request_bytes _ _ _ Hb) as (p & Hp & _ & ->).
    pose proof (pad_name_length _ _ Hp) as Lp.
    repeat apply conj.
    + decoded_none (unpack_offer_spec
                      (request_header ++ be_bytes 1 num_rounds ++ p)).
      left. unfold too_short. rewrite !length_app, be_bytes_length, Lp.
      vm_compute. lia.
    + decoded_none (unpack_client_payload_spec
                      (request_header ++ be_bytes 1 num_rounds ++ p)).
      right. right. left. unfold bad_type. now vm_compute.
    + decoded_none (unpack_server_payload_spec
                      (request_header ++ be_bytes 1 num_rounds ++ p)).
      right. right. left. unfold bad_type. now vm_compute.
  - intros action b Hb. rewrite pack_client_payload_bytes in Hb.
    apply Ok_inj in Hb. subst b.
    repeat apply conj.
    + decoded_none (unpack_offer_spec
                      (payload_header
                       ++ (if pystr_eqb (lower action) (s_lit "hit")
                           then ACTION_HIT else ACTION_STAND))).
      left. unfold too_short.
      destruct (pystr_eqb _ _); cbn; lia.
    + decoded_none (unpack_request_spec
                      (payload_header
                       ++ (if pystr_eqb (lower action) (s_lit "hit")
                           then ACTION_HIT else ACTION_STAND))).
      left. unfold too_short.
      destruct (pystr_eqb _ _); cbn; lia.
    + decoded_none (unpack_server_payload_spec
                      (payload_header
                       ++ (if pystr_eqb (lower action) (s_lit "hit")
                           then ACTION_HIT else ACTION_STAND))).
      right. right. right. left.
      destruct (pystr_eqb _ _); reflexivity.
  - intros result card_rank card_suit b Hb.
    destruct (unpack_server_payload_pack _ _ _ _ [] Hb)
      as (_ & _ & _ & _ & Hl & _).
    change SERVER_PAYLOAD_SIZE with 9%nat in Hl.
    repeat apply conj.
    + decoded_none (unpack_offer_spec b). left. unfold too_short.
      change OFFER_SIZE with 39%nat. lia.
    + decoded_none (unpack_request_spec b). left. unfold too_short.
      change REQUEST_SIZE with 38%nat. lia.
    + decoded_none (unpack_client_payload_spec b). left. unfold too_short.
      change CLIENT_PAYLOAD_SIZE with 10%nat. lia.
Qed.

Lemma kinds_do_not_mix_witness :
  unpack_server_payload sample_hit = Ok None
  /\ unpack_request sample_offer = Ok None
  /\ unpack_client_payload sample_card = Ok None.
Proof.
  destruct kinds_do_not_mix as (Hoff & _ & Hcli & Hsrv).
  split; [|split].
  - apply (Hcli (s_lit "hit") sample_hit eq_refl).
  - apply (Hoff 50000 (s_lit "Byte the Dealer") sample_offer eq_refl).
  - apply (Hsrv 0 12 (SuitInt 2) sample_card eq_refl).
Defined.

(** ** The card fields of a server payload *)

Lemma ascii_encode_ok (s : pystr) :
  Forall (fun c => (c < 0x80)%N) s -> ascii_encode s = Ok (map byte_of_N s).
Proof.
  induction 1 as [|c s Hc _ IH]; simpl; [reflexivity|].
  rewrite (proj2 (N.ltb_lt _ _) Hc), IH. reflexivity.
Qed.

Lemma uint_digits_ascii (u : Decimal.uint) :
  Forall (fun c => (c < 0x80)%N) (uint_digits u).
Proof. induction u; simpl; constructor; (lia || assumption). Qed.

Lemma format_02d_ascii (z : Z) :
  Forall (fun c => (c < 0x80)%N) (format_02d z).
Proof.
  unfold format_02d. destruct (z <? 0).
  - constructor; [lia|]. apply Forall_app. split.
    + apply Forall_forall. intros c Hc. apply repeat_spec in Hc. lia.
    + apply uint_digits_ascii.
  - apply Forall_app. split.
    + apply Forall_forall. intros c Hc. apply repeat_spec in Hc. lia.
    + apply uint_digits_ascii.
Qed.

Lemma py_index_SUITS (i : Z) :
  (-4 <= i <= 3 ->
   py_index SUITS i = Ok (nth (Z.to_nat (i mod 4)) SUITS [])
   /\ In (nth (Z.to_nat (i mod 4)) SUITS []) SUITS)
  /\ (i < -4 \/ 3 < i -> py_index SUITS i = @Raise pystr IndexError).
Proof.
  split.
  - intros H.
    assert (i = -4 \/ i = -3 \/ i = -2 \/ i = -1
            \/ i = 0 \/ i = 1 \/ i = 2 \/ i = 3)
      as [->|[->|[->|[->|[->|[->|[->| ->]]]]]]] by lia;
      (split; [reflexivity|cbn; tauto]).
  - intros H. unfold py_index.
    change (Z.of_nat (length SUITS)) with 4.
    destruct (i <? 0) eqn:E.
    + apply Z.ltb_lt in E.
      rewrite (proj2 (Z.leb_gt _ _)) by lia. reflexivity.
    + apply Z.ltb_ge in E.
      rewrite (proj2 (Z.leb_le _ _)) by lia.
      rewrite (proj2 (Z.ltb_ge _ _)) by lia. reflexivity.
Qed.

(** X2. The suit given as an index, as the server gives it.  For an index
    from -4 to 3, a result byte and a rank from 0 to 99, the payload is
    encoded and decodes to the result, the rank and the suit character
    [SUITS[i]], not to the index.  Any other index makes the encoder raise
    [IndexError]; a result that is not a byte makes it raise the error of
    [struct], whatever the rank. *)
Theorem pack_server_payload_suit_index (result card_rank i : Z) :
  (-4 <= i <= 3 -> 0 <= result <= 255 -> 0 <= card_rank <= 99 ->
   exists b,
     pack_server_payload result card_rank (SuitInt i) = Ok b
     /\ unpack_server_payload b
        = Ok (Some (result, card_rank, nth (Z.to_nat (i mod 4)) SUITS [])))
  /\ (i < -4 \/ 3 < i ->
      pack_server_payload result card_rank (SuitInt i) = Raise IndexError)
  /\ (-4 <= i <= 3 -> result < 0 \/ 255 < result ->
      pack_server_payload result card_rank (SuitInt i) = Raise StructError).
Proof.
  pose proof (ascii_encode_ok _ (format_02d_ascii card_rank)) as Hrs.
  destruct (py_index_SUITS i) as [Hin Hout].
  repeat apply conj.
  - intros Hi Hres Hr. destruct (Hin Hi) as [Hidx Hs].
    destruct (suit_char_roundtrip _ Hs) as (x & Hx & _).
    assert (suit_bytes (SuitInt i) = Ok [x]) as Hsb
      by (cbn [suit_bytes]; rewrite Hidx; exact Hx).
    destruct (pack_server_payload_ok result card_rank (SuitInt i) _ [x]
                Hres Hrs Hsb) as [b Hb].
    exists b. split; [exact Hb|].
    destruct (unpack_server_payload_pack _ _ _ _ [] Hb)
      as (rs' & sc & Hrs' & Hsc & _ & H).
    rewrite app_nil_r in H. rewrite H.
    rewrite Hsb in Hsc. apply Ok_inj in Hsc. subst sc.
    now rewrite (decode_card_encode card_rank _ rs' [x] Hr Hs Hrs' Hx).
  - intros Hi. unfold pack_server_payload. rewrite Hrs. cbn [bind].
    now rewrite (Hout Hi).
  - intros Hi Hres. destruct (Hin Hi) as [Hidx Hs].
    destruct (suit_char_roundtrip _ Hs) as (x & Hx & _).
    unfold pack_server_payload. rewrite Hrs, Hidx. cbn [bind].
    rewrite Hx. cbn [bind]. unfold SERVER_PAYLOAD_FORMAT.
    cbn [struct_pack pack_item item_size].
    change (pack_uint 4 MAGIC_COOKIE) with (Ok [xab; xcd; xdc; xba]).
    change (pack_uint 1 MSG_TYPE_PAYLOAD) with (Ok [x04]).
    cbn [bind]. unfold pack_uint.
    change (256 ^ Z.of_nat 1) with 256.
    destruct ((0 <=? result) && (result <? 256)) eqn:E; [|reflexivity].
    apply andb_prop in E as [E1 E2]. apply Z.leb_le in E1.
    apply Z.ltb_lt in E2. lia.
Qed.

Lemma pack_server_payload_suit_index_witness :
  (exists b,
      pack_server_payload 0 13 (SuitInt (-1)) = Ok b
      /\ unpack_server_payload b = Ok (Some (0, 13, s_lit "S")))
  /\ pack_server_payload 0 13 (SuitInt 4) = Raise IndexError
  /\ pack_server_payload 256 13 (SuitInt 0) = Raise StructError.
Proof.
  split; [|split].
  - destruct (pack_server_payload_suit_index 0 13 (-1)) as (H & _ & _).
    apply H; lia.
  - destruct (pack_server_payload_suit_index 0 13 4) as (_ & H & _).
    apply H. lia.
  - destruct (pack_server_payload_suit_index 256 13 0) as (_ & _ & H).
    apply H; lia.
Defined.

Lemma rank_on_wire_table (r : Z) :
  -99 <= r <= 9999 -> rank_decoded r = Some (rank_on_wire r).
Proof.
  intros H.
  assert (A : forallb (rank_decodes_to rank_on_wire) (py_range (-99) 10000)
              = true) by (vm_compute; reflexivity).
  rewrite forallb_forall in A.
  specialize (A r (in_py_range (-99) 10000 r ltac:(lia))).
  unfold rank_decodes_to in A.
  destruct (rank_decoded r) as [v|]; [|discriminate].
  apply Z.eqb_eq in A. now subst v.
Qed.

(** X3. The rank is not checked when a payload is encoded.  For a rank
    from -99 to 9999 the field holds the first two characters of its
    decimal form, and the decoder reads these: the rank comes back as it
    was exactly from -9 to 99; a rank of three or four digits comes back
    as its first two digits, and one from -99 to -10 as minus its first
    digit. *)
Theorem rank_field_cut (result card_rank : Z) (card_suit : pystr) :
  0 <= result <= 255 -> In card_suit SUITS -> -99 <= card_rank <= 9999 ->
  (exists b,
      pack_server_payload result card_rank (SuitStr card_suit) = Ok b
      /\ unpack_server_payload b
         = Ok (Some (result, rank_on_wire card_rank, card_suit)))
  /\ (rank_on_wire card_rank = card_rank <-> -9 <= card_rank <= 99).
Proof.
  intros Hres Hs Hr. split.
  - pose proof (ascii_encode_ok _ (format_02d_ascii card_rank)) as Hrs.
    destruct (suit_char_roundtrip _ Hs) as (x & Hx & Hd).
    destruct (pack_server_payload_ok result card_rank (SuitStr card_suit)
                _ [x] Hres Hrs Hx) as [b Hb].
    exists b. split; [exact Hb|].
    destruct (unpack_server_payload_pack _ _ _ _ [] Hb)
      as (rs' & sc & Hrs' & Hsc & _ & H).
    rewrite app_nil_r in H. rewrite H. clear H.
    cbn [suit_bytes] in Hsc. rewrite Hx in Hsc. apply Ok_inj in Hsc.
    subst sc. pose proof (rank_on_wire_table card_rank Hr) as T.
    unfold rank_decoded in T. rewrite Hrs' in T. unfold parse_rank in T.
    unfold decode_card.
    destruct (ascii_decode (firstn 2 rs' ++ _)) as [t|]; [|discriminate].
    cbn [bind] in *. destruct (py_int t) as [v|]; [|discriminate].
    injection T as ->. cbn [bind firstn length Nat.sub repeat app].
    now rewrite Hd.
  - unfold rank_on_wire.
    destruct (card_rank <? -9) eqn:E1.
    { apply Z.ltb_lt in E1. split; [|lia]. intros E.
      assert (- card_rank / 10 < - card_rank)
        by (apply Z.div_lt; lia). lia. }
    apply Z.ltb_ge in E1.
    destruct (card_rank <? 100) eqn:E2.
    { apply Z.ltb_lt in E2. split; lia. }
    apply Z.ltb_ge in E2.
    assert (forall k, 1 < k -> card_rank / k < card_rank) as D
      by (intros k Hk; apply Z.div_lt; lia).
    pose proof (D 10 ltac:(lia)). pose proof (D 100 ltac:(lia)).
    destruct (card_rank <? 1000); split; lia.
Qed.

Lemma rank_field_cut_witness :
  exists b,
    pack_server_payload 0 123 (SuitStr (s_lit "H")) = Ok b
    /\ unpack_server_payload b = Ok (Some (0, 12, s_lit "H")).
Proof.
  destruct (rank_field_cut 0 123 (s_lit "H")) as [H _];
    [lia|cbn; tauto|lia|].
  exact H.
Defined.

(** ** Names longer than the field *)









Lemma utf8_encode_cp_ok (c : N) :
  (has_utf8 c = true -> exists bc, utf8_encode_cp c = Ok bc)
  /\ (has_utf8 c = false
      -> utf8_encode_cp c = @Raise bytes UnicodeEncodeError).
Proof.
  unfold has_utf8, utf8_encode_cp. split.
  - intros H. apply andb_prop in H as [H1 H2]. apply negb_true_iff in H2.
    rewrite H1, H2.
    destruct (c <? 128)%N; [now eexists|].
    destruct (c <? 2048)%N; [now eexists|].
    destruct (c <? 65536)%N; now eexists.
  - intros H. apply andb_false_iff in H as [H|H].
    + apply N.ltb_ge in H.
      rewrite !(proj2 (N.ltb_ge _ _)) by lia. reflexivity.
    + apply negb_false_iff in H. rewrite H.
      unfold is_surrogate in H. apply andb_prop in H as [H1 H2].
      apply N.leb_le in H1, H2.
      rewrite !(proj2 (N.ltb_ge _ _)) by lia.
      rewrite (proj2 (N.ltb_lt c 65536)) by lia. reflexivity.
Qed.

Lemma utf8_encode_ok (s : pystr) :
  (forallb has_utf8 s = true -> exists enc, utf8_encode s = Ok enc)
  /\ (forallb has_utf8 s = false
      -> utf8_encode s = @Raise bytes UnicodeEncodeError).
Proof.
  induction s as [|c s [IH1 IH2]]; cbn [forallb utf8_encode].
  - split; [now eexists|discriminate].
  - destruct (utf8_encode_cp_ok c) as [C1 C2]. split.
    + intros H. apply andb_prop in H as [Hc Hs].
      destruct (C1 Hc) as [bc ->]. destruct (IH1 Hs) as [es ->].
      now eexists.
    + intros H. destruct (has_utf8 c) eqn:Hc.
      * destruct (C1 eq_refl) as [bc ->]. cbn [andb] in H.
        now rewrite (IH2 H).
      * now rewrite (C2 eq_refl).
Qed.

(** X5. When the two encoders of messages with a name fail.  With a name
    made of code points that have a UTF-8 form, [pack_request] succeeds
    exactly for a number of rounds from 0 to 255 and [pack_offer] exactly
    for a port from 0 to 65535, giving 38 and 39 bytes; outside the range
    they raise the error of [struct].  A name with a surrogate makes both
    raise [UnicodeEncodeError], whatever the number. *)
Theorem pack_name_message_errors (n : Z) (name : pystr) :
  (forallb has_utf8 name = true ->
   (0 <= n <= 255 ->
    exists b, pack_request n name = Ok b /\ length b = 38%nat)
   /\ (n < 0 \/ 255 < n -> pack_request n name = Raise StructError)
   /\ (0 <= n <= 65535 ->
       exists b, pack_offer n name = Ok b /\ length b = 39%nat)
   /\ (n < 0 \/ 65535 < n -> pack_offer n name = Raise StructError))
  /\ (forallb has_utf8 name = false ->
      pack_request n name = Raise UnicodeEncodeError
      /\ pack_offer n name = Raise UnicodeEncodeError).
Proof.
  destruct (utf8_encode_ok name) as [U1 U2]. split.
  - intros Hn. destruct (U1 Hn) as [enc He].
    assert (exists p, pad_name name = Ok p) as [p Hp]
      by (unfold pad_name; rewrite He; now eexists).
    repeat apply conj.
    + intros H. destruct (pack_request_ok n name p H Hp) as [b Hb].
      exists b. split; [exact Hb|].
      now destruct (unpack_request_pack _ _ _ [] Hb) as (_ & _ & L & _).
    + intros H. unfold pack_request, REQUEST_FORMAT. rewrite Hp.
      cbn [bind struct_pack pack_item item_size].
      change (pack_uint 4 MAGIC_COOKIE) with (Ok [xab; xcd; xdc; xba]).
      change (pack_uint 1 MSG_TYPE_REQUEST) with (Ok [x03]).
      cbn [bind]. unfold pack_uint. change (256 ^ Z.of_nat 1) with 256.
      destruct ((0 <=? n) && (n <? 256)) eqn:E; [|reflexivity].
      apply andb_prop in E as [E1 E2]. apply Z.leb_le in E1.
      apply Z.ltb_lt in E2. lia.
    + intros H. destruct (pack_offer_ok n name p H Hp) as [b Hb].
      exists b. split; [exact Hb|].
      now destruct (unpack_offer_pack _ _ _ [] Hb) as (_ & _ & L & _).
    + intros H. unfold pack_offer, OFFER_FORMAT. rewrite Hp.
      cbn [bind struct_pack pack_item item_size].
      change (pack_uint 4 MAGIC_COOKIE) with (Ok [xab; xcd; xdc; xba]).
      change (pack_uint 1 MSG_TYPE_OFFER) with (Ok [x02]).
      cbn [bind]. unfold pack_uint. change (256 ^ Z.of_nat 2) with 65536.
      destruct ((0 <=? n) && (n <? 65536)) eqn:E; [|reflexivity].
      apply andb_prop in E as [E1 E2]. apply Z.leb_le in E1.
      apply Z.ltb_lt in E2. lia.
  - intros Hn. unfold pack_request, pack_offer, pad_name.
    rewrite (U2 Hn). now split.
Qed.

Lemma pack_name_message_errors_witness :
  pack_request 256 (s_lit "Byte the Dealer") = Raise StructError
  /\ pack_offer 70000 [0xD800%N] = Raise UnicodeEncodeError.
Proof.
  split.
  - destruct (pack_name_message_errors 256 (s_lit "Byte the Dealer"))
      as [H _].
    destruct (H eq_refl) as (_ & H2 & _). apply H2. lia.
  - destruct (pack_name_message_errors 70000 [0xD800%N]) as [_ H].
    now destruct (H eq_refl).
Defined.

(* ================================================================== *)
(** * More on the round *)

(** What the client reads in a payload of the server. *)
Lemma sent_decodes (code : Z) (c : card) :
  0 <= code <= 255 -> card_or_none c ->
  length (card_payload code c) = SERVER_PAYLOAD_SIZE
  /\ unpack_server_payload (card_payload code c)
     = Ok (Some (code, fst c, suit_char c)).
Proof.
  intros Hcode Hc. pose proof (pack_card code c Hcode Hc) as Hp.
  destruct (unpack_server_payload_pack _ _ _ _ [] Hp)
    as (rs & sc & Hrs & Hsc & Hl & H).
  rewrite app_nil_r in H. split; [exact Hl|]. rewrite H.
  destruct Hc as [Hc| ->].
  - apply full_deck_in in Hc as (rank & suit & -> & Hk & Hs).
    cbn [fst snd suit_bytes] in *. unfold suit_char. cbn [snd].
    destruct (py_index_SUITS suit) as [Hin _].
    destruct (Hin ltac:(lia)) as [Hidx Hmem].
    rewrite Hidx in Hsc. cbn [bind] in Hsc.
    now rewrite (decode_card_encode rank _ rs sc ltac:(lia) Hmem Hrs Hsc).
  - cbn [fst snd suit_bytes no_card] in *. unfold suit_char. cbn [snd].
    rewrite (decode_card_encode 0 (s_lit "H") rs sc ltac:(lia)
               ltac:(cbn; tauto) Hrs Hsc).
    reflexivity.
Qed.

(** ** The server's round, card by card *)

(** A game draws the last card of a deck that has cards. *)
Lemma game_draw_last (shuffle : nat -> list card -> list card)
    (g : BlackjackGame.t) (rest : list card) (c : card) :
  Deck.cards (BlackjackGame.deck g) = rest ++ [c] ->
  BlackjackGame.draw shuffle g
  = Ok (c, BlackjackGame.set_deck
             (Deck.mk rest (Deck.shuffles (BlackjackGame.deck g))) g).
Proof.
  intros H. unfold BlackjackGame.draw.
  destruct (BlackjackGame.deck g) as [cards k] eqn:E.
  cbn [Deck.cards Deck.shuffles] in *. subst cards.
  now rewrite draw_snoc.
Qed.

Lemma added_app {A} (l d : list A) : added l (l ++ d) = d.
Proof.
  unfold added. induction l as [|x l IH]; [reflexivity|exact IH].
Qed.

Lemma sends_app (a b : list event) : sends (a ++ b) = sends a ++ sends b.
Proof. unfold sends. apply flat_map_app. Qed.

Lemma as_received_app (a b : list bytes) :
  as_received (a ++ b) = as_received a ++ as_received b.
Proof. unfold as_received. apply map_app. Qed.

(** The last four cards of a full deck. *)
Lemma last_four (l : list card) :
  length l = 52%nat ->
  exists rest c1 c2 d1 d2, l = rest ++ [d2; d1; c2; c1].
Proof.
  intros H. rewrite <- (rev_involutive l) in *. rewrite length_rev in H.
  destruct (rev l) as [|c1 [|c2 [|d1 [|d2 r]]]]; try discriminate.
  exists (rev r), c1, c2, d1, d2. cbn [rev].
  now rewrite <- !app_assoc.
Qed.

Section DealTrace.

Variable shuffle : nat -> list card -> list card.
Hypothesis shuffle_perm : forall n l, Permutation (shuffle n l) l.

(** The deal in full: the deck is shuffled anew, its last four cards go to
    the player, the player, the dealer and the dealer, and the first three
    of them are sent. *)
Lemma deal_initial_trace (g : BlackjackGame.t) :
  exists rest c1 c2 d1 d2,
    shuffle (Deck.shuffles (BlackjackGame.deck g)) full_deck
    = rest ++ [d2; d1; c2; c1]
    /\ BlackjackGame.deal_initial shuffle g
       = Ok (d2,
             BlackjackGame.mk
               (Deck.mk rest (S (Deck.shuffles (BlackjackGame.deck g))))
               [c1; c2] [d1; d2] (BlackjackGame.calculate_sum [c1; c2])
               (BlackjackGame.dealer_sum g)
               (BlackjackGame.wire g
                ++ [sent RESULT_ROUND_NOT_OVER c1;
                    sent RESULT_ROUND_NOT_OVER c2;
                    sent RESULT_ROUND_NOT_OVER d1])).
Proof.
  pose proof (shuffle_perm (Deck.shuffles (BlackjackGame.deck g)) full_deck)
    as P.
  destruct (last_four _ (eq_trans (Permutation_length P) full_deck_length))
    as (rest & c1 & c2 & d1 & d2 & E).
  exists rest, c1, c2, d1, d2. split; [exact E|].
  assert (forall c, In c [d2; d1; c2; c1] -> In c full_deck) as Hin.
  { intros c Hc. apply (Permutation_in _ P). rewrite E.
    apply in_or_app. now right. }
  unfold BlackjackGame.deal_initial, Deck.reset. rewrite E.
  rewrite (game_draw_last shuffle _ (rest ++ [d2; d1; c2]) c1)
    by (gsimpl; cbn [Deck.cards]; now rewrite <- app_assoc).
  cbn [bind]. gsimpl. cbn [Deck.shuffles].
  rewrite (game_draw_last shuffle _ (rest ++ [d2; d1]) c2)
    by (gsimpl; cbn [Deck.cards]; now rewrite <- app_assoc).
  cbn [bind]. gsimpl. cbn [Deck.shuffles].
  rewrite (game_draw_last shuffle _ (rest ++ [d2]) d1)
    by (gsimpl; cbn [Deck.cards]; now rewrite <- app_assoc).
  cbn [bind]. gsimpl. cbn [Deck.shuffles].
  rewrite (game_draw_last shuffle _ rest d2)
    by (gsimpl; cbn [Deck.cards]; reflexivity).
  cbn [bind]. gsimpl. cbn [Deck.shuffles].
  do 3 (rewrite send_card_ok;
        [|unfold RESULT_ROUND_NOT_OVER; lia
         |left; apply Hin; cbn [In]; tauto]; cbn [bind]).
  gsimpl. unfold BlackjackGame.log. gsimpl.
  now rewrite <- !app_assoc.
Qed.

End DealTrace.

Lemma unpack_client_payload_values (data : bytes) (a : pystr) :
  unpack_client_payload data = Ok (Some a) ->
  a = s_lit "hit" \/ a = s_lit "stand".
Proof.
  unfold unpack_client_payload.
  destruct (length data <? CLIENT_PAYLOAD_SIZE)%nat eqn:EL; [discriminate|].
  apply Nat.ltb_ge in EL. rewrite (unpack_client_payload_fields _ EL).
  cbn [bind].
  destruct (negb _); [discriminate|].
  destruct (negb _); [discriminate|].
  destruct (bytes_eqb _ ACTION_HIT); [intros H; apply Ok_inj in H; left; congruence|].
  destruct (bytes_eqb _ ACTION_STAND);
    [intros H; apply Ok_inj in H; right; congruence|discriminate].
Qed.

(** What [receive_action] returns: nothing, or the action of a payload. *)
Lemma receive_action_cases (ev : recv_event) (g : BlackjackGame.t) :
  BlackjackGame.receive_action ev g = (None, BlackjackGame.log EvRecv g)
  \/ exists data a,
       ev = RecvData data
       /\ unpack_client_payload data = Ok (Some a)
       /\ (a = s_lit "hit" \/ a = s_lit "stand")
       /\ BlackjackGame.receive_action ev g
          = (Some a, BlackjackGame.log EvRecv g).
Proof.
  unfold BlackjackGame.receive_action.
  destruct ev as [[|x data]| |]; try (now left).
  destruct (unpack_client_payload (x :: data)) as [[a|]|e] eqn:E;
    try (now left).
  right. exists (x :: data), a.
  pose proof (unpack_client_payload_values _ _ E). now repeat split.
Qed.

(** A hand of [n] cards of the deck is worth [2 n] at least. *)
Lemma hand_size (h : list card) :
  Forall (fun c => In c full_deck) h ->
  2 * Z.of_nat (length h) <= BlackjackGame.calculate_sum h.
Proof.
  rewrite calculate_sum_hand_value.
  induction 1 as [|c h Hc _ IH]; [simpl; lia|].
  pose proof (valid_card_value c Hc). cbn [length hand_value fold_right].
  unfold hand_value in IH. lia.
Qed.

Lemma accounted_valid (g : BlackjackGame.t) :
  cards_accounted g ->
  deck_ok (BlackjackGame.deck g)
  /\ Forall (fun c => In c full_deck) (BlackjackGame.player_cards g)
  /\ Forall (fun c => In c full_deck) (BlackjackGame.dealer_cards g).
Proof.
  intros P. unfold cards_accounted in P.
  assert (Forall (fun c => In c full_deck)
            (Deck.cards (BlackjackGame.deck g)
             ++ BlackjackGame.player_cards g ++ BlackjackGame.dealer_cards g))
    as H by (apply Forall_forall; intros c Hc; now apply (Permutation_in _ P)).
  apply Forall_app in H as [H1 H]. apply Forall_app in H as [H2 H3].
  now repeat split.
Qed.

(** While the totals are those of a round, the deck has cards. *)
Lemma accounted_draw (g : BlackjackGame.t) :
  cards_accounted g ->
  BlackjackGame.calculate_sum (BlackjackGame.player_cards g) <= 31 ->
  BlackjackGame.calculate_sum (BlackjackGame.dealer_cards g) <= 27 ->
  exists rest c,
    Deck.cards (BlackjackGame.deck g) = rest ++ [c] /\ In c full_deck.
Proof.
  intros P Hp Hd. destruct (accounted_valid g P) as (V1 & V2 & V3).
  pose proof (hand_size _ V2). pose proof (hand_size _ V3).
  pose proof (Permutation_length P) as L.
  rewrite !length_app, full_deck_length in L.
  destruct (Deck.cards (BlackjackGame.deck g)) as [|x l] eqn:E;
    [cbn [length] in L; lia|].
  destruct (exists_last (l := x :: l) ltac:(discriminate)) as (rest & c & E').
  exists rest, c. split; [exact E'|].
  unfold deck_ok in V1. rewrite E, E' in V1.
  apply Forall_app in V1 as [_ V1]. now inversion V1.
Qed.

Lemma perm_to_player (rest p d : list card) (c : card) :
  Permutation ((rest ++ [c]) ++ p ++ d) (rest ++ (p ++ [c]) ++ d).
Proof.
  rewrite <- !app_assoc. apply Permutation_app_head.
  rewrite !app_assoc. apply Permutation_app_tail.
  apply Permutation_app_comm.
Qed.

Lemma perm_to_dealer (rest p d : list card) (c : card) :
  Permutation ((rest ++ [c]) ++ p ++ d) (rest ++ p ++ d ++ [c]).
Proof.
  rewrite <- !app_assoc. apply Permutation_app_head.
  change (c :: p ++ d) with ([c] ++ (p ++ d)).
  rewrite (app_assoc p d [c]). apply Permutation_app_comm.
Qed.

Section PlayerStep.

Variable shuffle : nat -> list card -> list card.
Hypothesis shuffle_perm : forall n l, Permutation (shuffle n l) l.

(** One run of the body of the player's loop, case by case. *)
Lemma player_step_trace (k : nat) (ev : recv_event) (g : BlackjackGame.t) :
  in_round k g ->
  BlackjackGame.player_sum g < 21 ->
  (BlackjackGame.receive_action ev g = (None, BlackjackGame.log EvRecv g)
   /\ BlackjackGame.player_step shuffle ev g
      = Ok (Return None, BlackjackGame.log EvRecv g))
  \/ (exists data,
        ev = RecvData data
        /\ unpack_client_payload data = Ok (Some (s_lit "stand"))
        /\ BlackjackGame.player_step shuffle ev g
           = Ok (Break,
                 BlackjackGame.log (sent RESULT_ROUND_NOT_OVER no_card)
                   (BlackjackGame.log EvRecv g)))
  \/ (exists data c rest,
        ev = RecvData data
        /\ unpack_client_payload data = Ok (Some (s_lit "hit"))
        /\ Deck.cards (BlackjackGame.deck g) = rest ++ [c]
        /\ In c full_deck
        /\ in_round k (after_hit c rest g)
        /\ ((21 < BlackjackGame.player_sum (after_hit c rest g)
             /\ BlackjackGame.player_step shuffle ev g
                = Ok (Return (Some (s_lit "loss")),
                      BlackjackGame.log (sent RESULT_LOSS c)
                        (after_hit c rest g)))
            \/ (BlackjackGame.player_sum (after_hit c rest g) <= 21
                /\ BlackjackGame.player_step shuffle ev g
                   = Ok (Again,
                         BlackjackGame.log (sent RESULT_ROUND_NOT_OVER c)
                           (after_hit c rest g))))).
Proof.
  intros (P & K & Sp & B1 & B2) Hlt.
  unfold BlackjackGame.player_step.
  destruct (receive_action_cases ev g)
    as [E|(data & a & -> & U & [-> | ->] & E)]; rewrite E.
  - left. now split.
  - right. right.
    destruct (accounted_draw g P ltac:(lia) B2) as (rest & c & Ed & Hc).
    exists data, c, rest.
    repeat (split; [assumption || reflexivity|]).
    assert (in_round k (after_hit c rest g)) as I.
    { unfold in_round, after_hit, cards_accounted in *. gsimpl.
      cbn [Deck.cards Deck.shuffles].
      pose proof (valid_card_value c Hc).
      pose proof (calculate_sum_snoc (BlackjackGame.player_cards g) c).
      repeat apply conj; try assumption; try reflexivity; try lia.
      rewrite <- P, Ed. apply Permutation_sym, perm_to_player. }
    split; [exact I|].
    change (pystr_eqb (s_lit "hit") (s_lit "stand")) with false.
    change (pystr_eqb (s_lit "hit") (s_lit "hit")) with true.
    cbv iota.
    rewrite (game_draw_last shuffle _ rest c) by (gsimpl; exact Ed).
    cbn [bind]. gsimpl. unfold after_hit. gsimpl.
    destruct (_ >? 21) eqn:G.
    + left. split; [lia|].
      rewrite send_card_ok; [reflexivity|unfold RESULT_LOSS; lia|now left].
    + right. split; [lia|].
      rewrite send_card_ok;
        [reflexivity|unfold RESULT_ROUND_NOT_OVER; lia|now left].
  - right. left. exists data.
    repeat (split; [assumption || reflexivity|]).
    change (pystr_eqb (s_lit "stand") (s_lit "stand")) with true.
    cbv iota.
    rewrite send_card_ok;
      [reflexivity|unfold RESULT_ROUND_NOT_OVER; lia|now right].
Qed.

End PlayerStep.

Lemma in_round_log (k : nat) (e : event) (g : BlackjackGame.t) :
  in_round k g -> in_round k (BlackjackGame.log e g).
Proof. intros H. exact H. Qed.

Lemma server_event_sent (code : Z) (c : card) :
  0 <= code <= 3 -> card_or_none c -> server_event (sent code c).
Proof. intros H1 H2. right. now exists code, c. Qed.

Local Ltac events :=
  repeat first
    [ apply Forall_nil
    | assumption
    | apply Forall_cons;
      [ first [ now left
              | apply server_event_sent;
                [ unfold RESULT_ROUND_NOT_OVER, RESULT_LOSS; lia
                | first [ now left | now right | idtac ] ] ] | ] ].

Section RoundTrace.

Variable shuffle : nat -> list card -> list card.
Hypothesis shuffle_perm : forall n l, Permutation (shuffle n l) l.

(** The player's loop keeps the round in order, and adds to the wire
    events of the server only. *)
Lemma player_turn_trace (k : nat) (inbox : list recv_event) :
  forall g : BlackjackGame.t,
    in_round k g ->
    exists e inbox' g' ds,
      BlackjackGame.player_turn shuffle inbox g = Ok (e, inbox', g')
      /\ in_round k g'
      /\ BlackjackGame.dealer_cards g' = BlackjackGame.dealer_cards g
      /\ BlackjackGame.wire g' = BlackjackGame.wire g ++ ds
      /\ Forall server_event ds.
Proof.
  induction inbox as [|ev rest IH]; intros g I;
    cbn [BlackjackGame.player_turn];
    destruct (BlackjackGame.player_sum g <? 21) eqn:E;
    try (eexists _, _, _, []; rewrite app_nil_r;
         (split; [reflexivity|]); (split; [exact I|]);
         now repeat split).
  apply Z.ltb_lt in E.
  destruct (player_step_trace shuffle k ev g I E)
    as [(_ & H)|[(data & _ & _ & H)
                |(data & c & r & _ & _ & _ & Hc & I' & [(_ & H)|(_ & H)])]];
    rewrite H.
  - eexists _, _, _, [_]. split; [reflexivity|]. split; [exact I|].
    repeat split. events.
  - eexists _, _, _, [_; _]. split; [reflexivity|]. split; [exact I|].
    split; [reflexivity|]. split; [gsimpl; now rewrite <- app_assoc|].
    events.
  - eexists _, _, _, [_; _]. split; [reflexivity|]. split; [exact I'|].
    split; [reflexivity|].
    split; [unfold after_hit; gsimpl; now rewrite <- app_assoc|].
    events.
  - destruct (IH _ (in_round_log k (sent RESULT_ROUND_NOT_OVER c) _ I'))
      as (e & inbox' & g' & ds & Ht & I'' & Hd & Hw & Hs).
    exists e, inbox', g', (EvRecv :: sent RESULT_ROUND_NOT_OVER c :: ds).
    rewrite Ht, Hd, Hw. unfold after_hit. gsimpl.
    split; [reflexivity|]. split; [exact I''|]. split; [reflexivity|].
    split; [now rewrite <- !app_assoc|].
    events.
Qed.

(** One run of the body of the dealer's loop. *)
Lemma dealer_draw_one (k fuel : nat) (g : BlackjackGame.t) :
  in_round k g ->
  BlackjackGame.dealer_sum g
  = BlackjackGame.calculate_sum (BlackjackGame.dealer_cards g) ->
  BlackjackGame.dealer_sum g < 17 ->
  exists c rest,
    Deck.cards (BlackjackGame.deck g) = rest ++ [c]
    /\ In c full_deck
    /\ in_round k (after_dealer_draw c rest g)
    /\ BlackjackGame.dealer_draw shuffle (S fuel) g
       = BlackjackGame.dealer_draw shuffle fuel (after_dealer_draw c rest g).
Proof.
  intros (P & K & Sp & B1 & B2) Hs Hlt.
  destruct (accounted_draw g P ltac:(lia) B2) as (rest & c & Ed & Hc).
  exists c, rest. split; [exact Ed|]. split; [exact Hc|]. split.
  - unfold in_round, after_dealer_draw, cards_accounted in *. gsimpl.
    cbn [Deck.cards Deck.shuffles].
    pose proof (valid_card_value c Hc).
    pose proof (calculate_sum_snoc (BlackjackGame.dealer_cards g) c).
    repeat apply conj; try assumption; try reflexivity; try lia.
    rewrite <- P, Ed. apply Permutation_sym, perm_to_dealer.
  - cbn [BlackjackGame.dealer_draw].
    rewrite (proj2 (Z.ltb_lt _ _) Hlt).
    rewrite (game_draw_last shuffle _ rest c Ed). cbn [bind]. gsimpl.
    rewrite send_card_ok;
      [reflexivity|unfold RESULT_ROUND_NOT_OVER; lia|now left].
Qed.

Lemma dealer_draw_trace (k fuel : nat) :
  forall g : BlackjackGame.t,
    in_round k g ->
    BlackjackGame.dealer_sum g
    = BlackjackGame.calculate_sum (BlackjackGame.dealer_cards g) ->
    (Z.to_nat (17 - BlackjackGame.dealer_sum g) <= fuel)%nat ->
    exists drawn g',
      BlackjackGame.dealer_draw shuffle fuel g = Some (Ok g')
      /\ in_round k g'
      /\ 17 <= BlackjackGame.dealer_sum g'
      /\ BlackjackGame.dealer_sum g'
         = BlackjackGame.calculate_sum (BlackjackGame.dealer_cards g')
      /\ BlackjackGame.dealer_cards g' = BlackjackGame.dealer_cards g ++ drawn
      /\ Forall (fun c => In c full_deck) drawn
      /\ BlackjackGame.wire g'
         = BlackjackGame.wire g ++ map (sent RESULT_ROUND_NOT_OVER) drawn
      /\ BlackjackGame.player_cards g' = BlackjackGame.player_cards g
      /\ BlackjackGame.player_sum g' = BlackjackGame.player_sum g.
Proof.
  induction fuel as [|fuel IH]; intros g I Hs Hf.
  - exists [], g. cbn [BlackjackGame.dealer_draw].
    rewrite (proj2 (Z.ltb_ge _ _)) by lia. rewrite !app_nil_r.
    split; [reflexivity|]. split; [exact I|].
    repeat apply conj; try assumption; try lia; try reflexivity.
    constructor.
  - destruct (Z_lt_ge_dec (BlackjackGame.dealer_sum g) 17) as [Hlt|Hge].
    2:{ exists [], g. cbn [BlackjackGame.dealer_draw].
        rewrite (proj2 (Z.ltb_ge _ _)) by lia. rewrite !app_nil_r.
        split; [reflexivity|]. split; [exact I|].
        repeat apply conj; try assumption; try lia; try reflexivity.
        constructor. }
    destruct (dealer_draw_one k fuel g I Hs Hlt)
      as (c & rest & Ed & Hc & I' & E).
    rewrite E. clear E.
    pose proof (valid_card_value c Hc) as Hv.
    pose proof (calculate_sum_snoc (BlackjackGame.dealer_cards g) c) as Hsum.
    destruct (IH (after_dealer_draw c rest g) I')
      as (drawn & g' & H1 & H2 & H3 & H4 & H5 & H6 & H7 & H8 & H9);
      [reflexivity|unfold after_dealer_draw; gsimpl; lia|].
    exists (c :: drawn), g'. unfold after_dealer_draw in *. gsimpl.
    rewrite <- !app_assoc in H5, H7.
    split; [exact H1|]. split; [exact H2|].
    repeat apply conj; try assumption. now constructor.
Qed.

(** The dealer's part of the round, with the cards accounted for. *)
Lemma dealer_turn_trace (k fuel : nat) (dealer_card2 : card)
    (g : BlackjackGame.t) :
  in_round k g -> In dealer_card2 full_deck -> (17 <= fuel)%nat ->
  exists drawn g1,
    BlackjackGame.dealer_turn shuffle fuel dealer_card2 g
    = Some (Ok (Some (fst (BlackjackGame.determine_winner g1)),
                BlackjackGame.log
                  (sent (snd (BlackjackGame.determine_winner g1)) no_card)
                  g1))
    /\ in_round k g1
    /\ 17 <= BlackjackGame.dealer_sum g1
    /\ BlackjackGame.dealer_sum g1
       = BlackjackGame.calculate_sum (BlackjackGame.dealer_cards g1)
    /\ BlackjackGame.dealer_cards g1 = BlackjackGame.dealer_cards g ++ drawn
    /\ Forall (fun c => In c full_deck) drawn
    /\ BlackjackGame.wire g1
       = BlackjackGame.wire g
         ++ sent RESULT_ROUND_NOT_OVER dealer_card2
            :: map (sent RESULT_ROUND_NOT_OVER) drawn
    /\ BlackjackGame.player_cards g1 = BlackjackGame.player_cards g
    /\ BlackjackGame.player_sum g1 = BlackjackGame.player_sum g.
Proof.
  intros I Hc2 Hf. unfold BlackjackGame.dealer_turn.
  rewrite send_card_ok; [|unfold RESULT_ROUND_NOT_OVER; lia|now left].
  destruct (accounted_valid g (proj1 I)) as (_ & _ & V).
  pose proof (hand_size _ V) as Hn.
  match goal with
  | |- context [BlackjackGame.dealer_draw shuffle fuel ?g1] =>
      destruct (dealer_draw_trace k fuel g1)
        as (drawn & g' & H1 & H2 & H3 & H4 & H5 & H6 & H7 & H8 & H9)
  end; gsimpl; try exact I; try reflexivity; try lia.
  exists drawn, g'. rewrite H1.
  pose proof (determine_winner_code g') as Hcode.
  destruct (BlackjackGame.determine_winner g') as [result code].
  cbn [fst snd] in *.
  rewrite send_card_ok; [|lia|now right].
  rewrite <- app_assoc in H7.
  split; [reflexivity|]. split; [exact H2|].
  repeat apply conj; assumption.
Qed.

(** The state after the deal is that of a round. *)
Lemma deal_initial_round (g : BlackjackGame.t) :
  exists rest c1 c2 d1 d2,
    let g1 :=
      BlackjackGame.mk
        (Deck.mk rest (S (Deck.shuffles (BlackjackGame.deck g))))
        [c1; c2] [d1; d2] (BlackjackGame.calculate_sum [c1; c2])
        (BlackjackGame.dealer_sum g)
        (BlackjackGame.wire g
         ++ [sent RESULT_ROUND_NOT_OVER c1; sent RESULT_ROUND_NOT_OVER c2;
             sent RESULT_ROUND_NOT_OVER d1]) in
    BlackjackGame.deal_initial shuffle g = Ok (d2, g1)
    /\ in_round (S (Deck.shuffles (BlackjackGame.deck g))) g1
    /\ In c1 full_deck /\ In c2 full_deck
    /\ In d1 full_deck /\ In d2 full_deck.
Proof.
  destruct (deal_initial_trace shuffle shuffle_perm g)
    as (rest & c1 & c2 & d1 & d2 & E & H).
  exists rest, c1, c2, d1, d2. cbv zeta. split; [exact H|].
  pose proof (shuffle_perm (Deck.shuffles (BlackjackGame.deck g)) full_deck)
    as P.
  rewrite E in P.
  assert (forall c, In c [d2; d1; c2; c1] -> In c full_deck) as Hin.
  { intros c Hc. apply (Permutation_in _ P). apply in_or_app. now right. }
  assert (In c1 full_deck) as H1 by (apply Hin; cbn [In]; tauto).
  assert (In c2 full_deck) as H2 by (apply Hin; cbn [In]; tauto).
  assert (In d1 full_deck) as H3 by (apply Hin; cbn [In]; tauto).
  assert (In d2 full_deck) as H4 by (apply Hin; cbn [In]; tauto).
  split; [|now repeat split].
  pose proof (valid_card_value c1 H1). pose proof (valid_card_value c2 H2).
  pose proof (valid_card_value d1 H3). pose proof (valid_card_value d2 H4).
  unfold in_round, cards_accounted. gsimpl. cbn [Deck.cards Deck.shuffles].
  unfold BlackjackGame.calculate_sum. cbn [fold_left].
  repeat apply conj; try reflexivity; try lia.
  rewrite <- P. apply Permutation_app_head.
  change [d2; d1; c2; c1] with (rev [c1; c2; d1; d2]).
  apply Permutation_rev.
Qed.

(** A round from beginning to end: it runs, the deck is shuffled once, the
    cards stay accounted for, and the wire gets events of the server only. *)
Lemma play_round_trace (fuel : nat) (inbox : list recv_event)
    (g : BlackjackGame.t) :
  (17 <= fuel)%nat ->
  exists e inbox' g' ds,
    BlackjackGame.play_round shuffle fuel inbox g = Some (Ok (e, inbox', g'))
    /\ in_round (S (Deck.shuffles (BlackjackGame.deck g))) g'
    /\ BlackjackGame.wire g' = BlackjackGame.wire g ++ ds
    /\ Forall server_event ds.
Proof.
  intros Hf. unfold BlackjackGame.play_round.
  destruct (deal_initial_trace shuffle shuffle_perm g)
    as (rest & c1 & c2 & d1 & d2 & E & ->).
  pose proof (shuffle_perm (Deck.shuffles (BlackjackGame.deck g)) full_deck)
    as P.
  rewrite E in P.
  assert (forall c, In c [d2; d1; c2; c1] -> In c full_deck) as Hin.
  { intros c Hc. apply (Permutation_in _ P). apply in_or_app. now right. }
  pose proof (valid_card_value c1 (Hin c1 ltac:(cbn [In]; tauto))).
  pose proof (valid_card_value c2 (Hin c2 ltac:(cbn [In]; tauto))).
  pose proof (valid_card_value d1 (Hin d1 ltac:(cbn [In]; tauto))).
  pose proof (valid_card_value d2 (Hin d2 ltac:(cbn [In]; tauto))).
  match goal with
  | |- context [BlackjackGame.play_hand shuffle fuel d2 inbox ?g1] =>
      assert (in_round (S (Deck.shuffles (BlackjackGame.deck g))) g1) as I
  end.
  { unfold in_round, cards_accounted. gsimpl. cbn [Deck.cards Deck.shuffles].
    unfold BlackjackGame.calculate_sum. cbn [fold_left].
    repeat apply conj; try reflexivity; try lia.
    rewrite <- P. apply Permutation_app_head.
    change [d2; d1; c2; c1] with (rev [c1; c2; d1; d2]).
    apply Permutation_rev. }
  unfold BlackjackGame.play_hand.
  destruct (player_turn_trace _ inbox _ I)
    as (e & inbox' & g2 & ds & Ht & I2 & Hd & Hw & Hs).
  rewrite Ht. gsimpl.
  assert (Forall server_event
            ([sent RESULT_ROUND_NOT_OVER c1; sent RESULT_ROUND_NOT_OVER c2;
              sent RESULT_ROUND_NOT_OVER d1] ++ ds)) as Hs3.
  { apply Forall_app. split; [|exact Hs].
    events; left; apply Hin; cbn [In]; tauto. }
  destruct e as [r| |].
  - eexists _, _, _, _. split; [reflexivity|]. split; [exact I2|].
    split; [|exact Hs3]. now rewrite Hw, <- app_assoc.
  - destruct (dealer_turn_trace _ fuel d2 g2 I2
                (Hin d2 ltac:(cbn [In]; tauto)) Hf)
      as (drawn & g3 & Er & I3 & _ & _ & _ & Hv & Hw3 & _ & _).
    rewrite Er. eexists _, _, _, _. split; [reflexivity|].
    split; [apply in_round_log, I3|]. gsimpl. rewrite Hw3, Hw.
    split; [rewrite <- !app_assoc; reflexivity|].
    apply Forall_app in Hs3 as [Hs3 _].
    apply Forall_app. split; [exact Hs3|].
    apply Forall_app. split; [exact Hs|].
    apply Forall_app. split.
    + constructor.
      * apply server_event_sent; [unfold RESULT_ROUND_NOT_OVER; lia|].
        left. apply Hin. cbn [In]. tauto.
      * apply Forall_map. revert Hv. apply Forall_impl. intros c Hc.
        apply server_event_sent; [unfold RESULT_ROUND_NOT_OVER; lia|].
        now left.
    + pose proof (determine_winner_code g3).
      constructor; [|constructor].
      apply server_event_sent; [lia|now right].
  - eexists _, _, _, _. split; [reflexivity|]. split; [exact I2|].
    split; [|exact Hs3]. now rewrite Hw, <- app_assoc.
Qed.

End RoundTrace.

Lemma card_or_none_fields (c : card) :
  card_or_none c -> 0 <= fst c <= 13 /\ In (suit_char c) SUITS.
Proof.
  intros [Hc| ->].
  - apply full_deck_in in Hc as (rank & suit & -> & Hk & Hs).
    unfold suit_char. cbn [fst snd]. split; [lia|].
    assert (suit = 0 \/ suit = 1 \/ suit = 2 \/ suit = 3)
      as [->|[->|[->| ->]]] by lia; cbn; tauto.
  - cbn. split; [lia|tauto].
Qed.

Lemma server_event_message (l : list event) :
  Forall server_event l -> Forall card_message (sends l).
Proof.
  induction 1 as [|e l He _ IH]; [constructor|].
  destruct He as [->|(code & c & -> & Hcode & Hc)]; [exact IH|].
  cbn [sends flat_map sent app]. constructor; [|exact IH].
  destruct (sent_decodes code c ltac:(lia) Hc) as [L U].
  destruct (card_or_none_fields c Hc) as [R S].
  split; [exact L|]. now exists code, (fst c), (suit_char c).
Qed.

Section ServerRound.

Variable shuffle : nat -> list card -> list card.
Hypothesis shuffle_perm : forall n l, Permutation (shuffle n l) l.

(** X6. The deal.  From any state of the game, a round begins by shuffling
    the whole deck anew and drawing four cards from it, four different
    cards of the deck: the first two are the player's hand, the other two
    the dealer's.  The player's total is the value of the two cards, the
    dealer's total is left as it was, and exactly three payloads are sent,
    each with NOT_OVER: the player's two cards and the dealer's first card.
    The dealer's second card is kept back; 48 cards are left in the
    deck. *)
Theorem deal_sends_three_cards (g : BlackjackGame.t) :
  exists c1 c2 d1 d2 g',
    BlackjackGame.deal_initial shuffle g = Ok (d2, g')
    /\ Deck.draw_many shuffle 4 (Deck.reset shuffle (BlackjackGame.deck g))
       = Ok ([c1; c2; d1; d2], BlackjackGame.deck g')
    /\ NoDup [c1; c2; d1; d2]
    /\ Forall (fun c => In c full_deck) [c1; c2; d1; d2]
    /\ length (Deck.cards (BlackjackGame.deck g')) = 48%nat
    /\ BlackjackGame.player_cards g' = [c1; c2]
    /\ BlackjackGame.dealer_cards g' = [d1; d2]
    /\ BlackjackGame.player_sum g'
       = get_card_value (fst c1) + get_card_value (fst c2)
    /\ BlackjackGame.dealer_sum g' = BlackjackGame.dealer_sum g
    /\ BlackjackGame.wire g'
       = BlackjackGame.wire g
         ++ [sent RESULT_ROUND_NOT_OVER c1; sent RESULT_ROUND_NOT_OVER c2;
             sent RESULT_ROUND_NOT_OVER d1].
Proof.
  destruct (deal_initial_trace shuffle shuffle_perm g)
    as (rest & c1 & c2 & d1 & d2 & E & H).
  exists c1, c2, d1, d2. eexists. split; [exact H|].
  pose proof (shuffle_perm (Deck.shuffles (BlackjackGame.deck g)) full_deck)
    as P.
  rewrite E in P. gsimpl.
  repeat apply conj; try reflexivity.
  - unfold Deck.reset. rewrite E.
    exact (draw_many_rev shuffle [c1; c2; d1; d2] rest _).
  - pose proof (Permutation_NoDup (Permutation_sym P) full_deck_NoDup) as N.
    apply NoDup_app_remove_l in N.
    change [c1; c2; d1; d2] with (rev [d2; d1; c2; c1]).
    now apply NoDup_rev.
  - apply Forall_forall. intros c Hc. apply (Permutation_in _ P).
    apply in_or_app. right. cbn [In] in *. tauto.
  - apply Permutation_length in P.
    rewrite length_app, full_deck_length in P. cbn [Deck.cards length] in *.
    lia.
Qed.

(** X7. One deck for a round.  Whatever the client sends, a round runs to
    its end or is left waiting for the player, and at that point the deck
    has been shuffled exactly once since the round began: the cards left in
    the deck and the two hands are together the 52 cards, so no card is
    twice in a hand or in both hands, at least 22 cards are left, and the
    reshuffle of [draw] on an empty deck is not reached within a round.
    The player's total is the sum of the player's hand. *)
Theorem one_deck_per_round (fuel : nat) (inbox : list recv_event)
    (g : BlackjackGame.t) :
  (17 <= fuel)%nat ->
  exists e inbox' g',
    BlackjackGame.play_round shuffle fuel inbox g = Some (Ok (e, inbox', g'))
    /\ Deck.shuffles (BlackjackGame.deck g')
       = S (Deck.shuffles (BlackjackGame.deck g))
    /\ Permutation
         (Deck.cards (BlackjackGame.deck g')
          ++ BlackjackGame.player_cards g' ++ BlackjackGame.dealer_cards g')
         full_deck
    /\ NoDup (BlackjackGame.player_cards g' ++ BlackjackGame.dealer_cards g')
    /\ (22 <= length (Deck.cards (BlackjackGame.deck g')))%nat
    /\ BlackjackGame.player_sum g'
       = BlackjackGame.calculate_sum (BlackjackGame.player_cards g').
Proof.
  intros Hf.
  destruct (play_round_trace shuffle shuffle_perm fuel inbox g Hf)
    as (e & inbox' & g' & ds & H & (P & K & Sp & B1 & B2) & _).
  exists e, inbox', g'. split; [exact H|]. split; [exact K|].
  split; [exact P|]. split; [|split; [|exact Sp]].
  - pose proof (Permutation_NoDup (Permutation_sym P) full_deck_NoDup) as N.
    now apply NoDup_app_remove_l in N.
  - destruct (accounted_valid g' P) as (_ & V2 & V3).
    pose proof (hand_size _ V2). pose proof (hand_size _ V3).
    pose proof (Permutation_length P) as L.
    rewrite !length_app, full_deck_length in L. lia.
Qed.

(** X8. Everything the server sends in a round is a card payload the
    client can read: nine bytes that decode to a result code from 0 to 3, a
    rank from 0 to 13 and one of the four suit characters. *)
Theorem server_sends_card_messages (fuel : nat) (inbox : list recv_event)
    (g : BlackjackGame.t) :
  (17 <= fuel)%nat ->
  exists e inbox' g',
    BlackjackGame.play_round shuffle fuel inbox g = Some (Ok (e, inbox', g'))
    /\ Forall card_message
         (sends (added (BlackjackGame.wire g) (BlackjackGame.wire g'))).
Proof.
  intros Hf.
  destruct (play_round_trace shuffle shuffle_perm fuel inbox g Hf)
    as (e & inbox' & g' & ds & H & _ & Hw & Hs).
  exists e, inbox', g'. split; [exact H|].
  rewrite Hw, added_app. now apply server_event_message.
Qed.

End ServerRound.

Lemma receive_action_none (ev : recv_event) (g : BlackjackGame.t) :
  BlackjackGame.receive_action ev g = (None, BlackjackGame.log EvRecv g)
  <-> no_action ev.
Proof.
  unfold BlackjackGame.receive_action, no_action.
  destruct ev as [data| |]; [|tauto..].
  destruct (unpack_client_payload_spec data) as (r & U & Hr).
  destruct data as [|x data].
  { split; [|reflexivity]. intros _. left. unfold too_short. cbn. lia. }
  rewrite U. rewrite <- Hr. split; [now intros [= ->]|now intros ->].
Qed.

Lemma count_result_adds (result : pystr) (s : BlackjackGame.tally) :
  tally_le s (BlackjackGame.count_result result s)
  /\ rounds_counted (BlackjackGame.count_result result s)
     = rounds_counted s + 1.
Proof.
  destruct s as [[w l] t]. unfold BlackjackGame.count_result.
  destruct (pystr_eqb result (s_lit "win"));
    [|destruct (pystr_eqb result (s_lit "loss"))];
    unfold tally_le, rounds_counted; lia.
Qed.

Lemma tally_le_refl (s : BlackjackGame.tally) : tally_le s s.
Proof. destruct s as [[w l] t]. unfold tally_le. lia. Qed.

Lemma tally_le_trans (a b c : BlackjackGame.tally) :
  tally_le a b -> tally_le b c -> tally_le a c.
Proof.
  destruct a as [[w l] t], b as [[w1 l1] t1], c as [[w2 l2] t2].
  unfold tally_le. lia.
Qed.

Lemma py_range_length (a b : Z) : length (py_range a b) = Z.to_nat (b - a).
Proof. unfold py_range. now rewrite length_map, length_seq. Qed.

Section ServerGame.

Variable shuffle : nat -> list card -> list card.
Hypothesis shuffle_perm : forall n l, Permutation (shuffle n l) l.

(** The loop of [run]: every round that is begun shuffles the deck once,
    and every round that is finished is counted once. *)
Lemma run_rounds_trace (fuel : nat) (rounds : list Z) :
  (17 <= fuel)%nat ->
  forall (s : BlackjackGame.tally) (inbox : list recv_event)
         (g : BlackjackGame.t),
  exists e s' inbox' g' ds,
    BlackjackGame.run_rounds shuffle fuel rounds s inbox g
    = Some (Ok (e, s', inbox', g'))
    /\ tally_le s s'
    /\ BlackjackGame.wire g' = BlackjackGame.wire g ++ ds
    /\ Forall server_event ds
    /\ let played := Z.to_nat (rounds_counted s' - rounds_counted s) in
       rounds_counted s <= rounds_counted s'
       /\ ((e = BlackjackGame.RunDone
            /\ played = length rounds
            /\ Deck.shuffles (BlackjackGame.deck g')
               = (Deck.shuffles (BlackjackGame.deck g) + played)%nat)
           \/ ((played < length rounds)%nat
               /\ Deck.shuffles (BlackjackGame.deck g')
                  = (Deck.shuffles (BlackjackGame.deck g) + played + 1)%nat)).
Proof.
  intros Hf. induction rounds as [|n rounds IH]; intros s inbox g.
  - exists BlackjackGame.RunDone, s, inbox, g, [].
    cbn [BlackjackGame.run_rounds length]. rewrite app_nil_r, Z.sub_diag.
    split; [reflexivity|]. split; [apply tally_le_refl|].
    split; [reflexivity|]. split; [constructor|].
    cbn. split; [lia|]. left. repeat split. lia.
  - cbn [BlackjackGame.run_rounds length].
    destruct (play_round_trace shuffle shuffle_perm fuel inbox g Hf)
      as (e & inbox1 & g1 & ds & H & (_ & K & _) & Hw & Hs).
    rewrite H. destruct e as [[result|]|].
    + destruct (IH (BlackjackGame.count_result result s) inbox1 g1)
        as (e & s' & inbox' & g' & ds' & Hr & Hle & Hw' & Hs' & Hn & Hc).
      destruct (count_result_adds result s) as [Hle1 Hn1].
      exists e, s', inbox', g', (ds ++ ds'). rewrite Hr.
      split; [reflexivity|]. split; [eapply tally_le_trans; eassumption|].
      split; [now rewrite Hw', Hw, app_assoc|].
      split; [apply Forall_app; now split|].
      cbv zeta in *. rewrite Hn1 in Hn, Hc. rewrite K in Hc.
      split; [lia|].
      destruct Hc as [(He & Hp & Hk)|(Hp & Hk)]; [left|right];
        repeat split; try assumption; lia.
    + exists BlackjackGame.RunDone, s, inbox1, g1, ds.
      split; [reflexivity|]. split; [apply tally_le_refl|].
      split; [exact Hw|]. split; [exact Hs|].
      cbv zeta. rewrite Z.sub_diag. split; [lia|]. right. cbn. lia.
    + exists BlackjackGame.RunWaiting, s, inbox1, g1, ds.
      split; [reflexivity|]. split; [apply tally_le_refl|].
      split; [exact Hw|]. split; [exact Hs|].
      cbv zeta. rewrite Z.sub_diag. split; [lia|]. right. cbn. lia.
Qed.

(** X9. The statistics of [run].  A game for [num_rounds] rounds runs to
    its end or is left waiting, with counts that are not negative.  Either
    all the rounds were played: the loop was left, the counts add up to
    [num_rounds] (to 0 when it is negative) and the deck was shuffled once
    for each round.  Or the game stopped in a round, which is not counted:
    the counts add up to fewer than [num_rounds] and the deck was shuffled
    once more than rounds are counted. *)
Theorem run_counts_rounds (fuel : nat) (num_rounds : Z)
    (inbox : list recv_event) (g : BlackjackGame.t) :
  (17 <= fuel)%nat ->
  exists e wins losses ties inbox' g',
    BlackjackGame.run shuffle fuel num_rounds inbox g
    = Some (Ok (e, (wins, losses, ties), inbox', g'))
    /\ 0 <= wins /\ 0 <= losses /\ 0 <= ties
    /\ let played := wins + losses + ties in
       (e = BlackjackGame.RunDone
        /\ played = Z.max 0 num_rounds
        /\ Deck.shuffles (BlackjackGame.deck g')
           = (Deck.shuffles (BlackjackGame.deck g) + Z.to_nat played)%nat)
       \/ (played < num_rounds
           /\ Deck.shuffles (BlackjackGame.deck g')
              = (Deck.shuffles (BlackjackGame.deck g)
                 + Z.to_nat played + 1)%nat).
Proof.
  intros Hf. unfold BlackjackGame.run.
  destruct (run_rounds_trace fuel (py_range 1 (num_rounds + 1)) Hf (0, 0, 0)
              inbox g)
    as (e & [[wins losses] ties] & inbox' & g' & ds & H & Hle & _ & _ & Hc).
  exists e, wins, losses, ties, inbox', g'. split; [exact H|].
  unfold tally_le in Hle. repeat (split; [lia|]).
  cbv zeta in *. unfold rounds_counted in Hc.
  rewrite py_range_length in Hc.
  replace (wins + losses + ties - (0 + 0 + 0)) with (wins + losses + ties)
    in Hc by lia.
  destruct Hc as (_ & [(He & Hp & Hk)|(Hp & Hk)]); [left|right];
    repeat split; try assumption; lia.
Qed.

(** X10. A round is given up when no action arrives.  With the player's
    total below 21 after the deal, if the first [recv] raises, or returns
    nothing, fewer than ten bytes, or bytes without the cookie, the payload
    type or one of the two actions, then [play_round] returns [None] having
    sent nothing after the three cards of the deal, and [run] leaves its
    loop with the statistics as they were: the rounds that are left are not
    played and the rest of the input is not read. *)
Theorem round_aborts_without_action (fuel : nat) (ev : recv_event)
    (rest : list recv_event) (n : Z) (rounds : list Z)
    (s : BlackjackGame.tally) (g : BlackjackGame.t) :
  no_action ev ->
  exists dealer_card2 g1,
    BlackjackGame.deal_initial shuffle g = Ok (dealer_card2, g1)
    /\ (BlackjackGame.player_sum g1 < 21 ->
        BlackjackGame.play_round shuffle fuel (ev :: rest) g
        = Some (Ok (Finished None, rest, BlackjackGame.log EvRecv g1))
        /\ BlackjackGame.run_rounds shuffle fuel (n :: rounds) s
             (ev :: rest) g
           = Some (Ok (BlackjackGame.RunDone, s, rest,
                       BlackjackGame.log EvRecv g1))).
Proof.
  intros Hev.
  destruct (deal_initial_trace shuffle shuffle_perm g)
    as (r & c1 & c2 & d1 & d2 & _ & H).
  match type of H with
  | _ = Ok (_, ?g0) => remember g0 as g1 eqn:Eg1
  end.
  exists d2, g1. split; [exact H|]. intros Hlt.
  assert (BlackjackGame.play_round shuffle fuel (ev :: rest) g
          = Some (Ok (Finished None, rest, BlackjackGame.log EvRecv g1)))
    as Hr.
  { unfold BlackjackGame.play_round. rewrite H.
    unfold BlackjackGame.play_hand. cbn [BlackjackGame.player_turn].
    rewrite (proj2 (Z.ltb_lt _ _) Hlt).
    unfold BlackjackGame.player_step.
    rewrite (proj2 (receive_action_none ev _) Hev). reflexivity. }
  split; [exact Hr|]. cbn [BlackjackGame.run_rounds]. now rewrite Hr.
Qed.

(** X11. A connection is served only on a request.  When the first [recv]
    raises or yields something that is no request (fewer than 38 bytes, or
    without the cookie or the type of a request), [handle_client] returns
    having sent nothing and read nothing more.  Otherwise the data decodes
    to a number of rounds and a name, the game is run for that number on
    the rest of the input, and everything sent on the connection is a card
    payload. *)
Theorem session_needs_request (fuel : nat) (ev : recv_event)
    (inbox : list recv_event) :
  (17 <= fuel)%nat ->
  (no_request ev ->
   exists e,
     BlackjackServer.handle_client shuffle fuel (ev :: inbox)
     = Some (Ok (e, inbox, [EvRecv]))
     /\ (e = Dropped \/ e = NoRequest))
  /\ (~ no_request ev ->
      exists data num_rounds client_name e s inbox' g',
        ev = RecvData data
        /\ unpack_request data = Ok (Some (num_rounds, client_name))
        /\ BlackjackGame.run shuffle fuel num_rounds inbox
             (BlackjackGame.log EvRecv (BlackjackGame.init shuffle))
           = Some (Ok (e, s, inbox', g'))
        /\ BlackjackServer.handle_client shuffle fuel (ev :: inbox)
           = Some (Ok (Played e s, inbox', BlackjackGame.wire g'))
        /\ Forall card_message (sends (BlackjackGame.wire g'))).
Proof.
  intros Hf. unfold BlackjackServer.handle_client. split.
  - intros Hev. destruct ev as [data| |];
      [|exists Dropped; split; [reflexivity|now left]..].
    exists NoRequest. split; [|now right].
    destruct (unpack_request_spec data) as (r & U & Hr).
    cbn [no_request] in Hev. apply Hr in Hev. subst r. rewrite U.
    now destruct data.
  - intros Hev. destruct ev as [data| |]; [|now destruct Hev..].
    destruct (unpack_request_spec data) as (r & U & Hr).
    cbn [no_request] in Hev.
    destruct r as [[num_rounds client_name]|]; [|now destruct Hev; apply Hr].
    unfold BlackjackGame.run.
    destruct (run_rounds_trace fuel (py_range 1 (num_rounds + 1)) Hf
                (0, 0, 0) inbox
                (BlackjackGame.log EvRecv (BlackjackGame.init shuffle)))
      as (e & s & inbox' & g' & ds & H & _ & Hw & Hs & _).
    exists data, num_rounds, client_name, e, s, inbox', g'.
    split; [reflexivity|]. split; [exact U|]. split; [exact H|].
    rewrite U.
    assert (data <> []) as Hne.
    { intros ->. apply Hev. left. unfold too_short. cbn. lia. }
    destruct data as [|x data]; [now destruct Hne|].
    unfold BlackjackGame.run. rewrite H. split; [reflexivity|].
    rewrite Hw. rewrite sends_app. apply Forall_app. split.
    + cbn. constructor.
    + now apply server_event_message.
Qed.

End ServerGame.

Lemma player_turn_done (shuffle : nat -> list card -> list card)
    (inbox : list recv_event) (g : BlackjackGame.t) :
  21 <= BlackjackGame.player_sum g ->
  BlackjackGame.player_turn shuffle inbox g = Ok (TurnOver, inbox, g).
Proof.
  intros H. destruct inbox; cbn [BlackjackGame.player_turn];
    now rewrite (proj2 (Z.ltb_ge _ _) H).
Qed.

Section TwoAces.

Variable shuffle : nat -> list card -> list card.
Hypothesis shuffle_perm : forall n l, Permutation (shuffle n l) l.

(** X12. Two aces.  When the deal gives the player two aces the total is
    22, which the player's loop takes for 21 or more and not for a bust: no
    action is received, the dealer plays, and the player wins whatever the
    dealer's total is.  Nothing of the input is read. *)
Theorem two_aces_win (fuel : nat) (inbox : list recv_event)
    (g : BlackjackGame.t) :
  (17 <= fuel)%nat ->
  exists c1 c2 dealer_card2 g1,
    BlackjackGame.deal_initial shuffle g = Ok (dealer_card2, g1)
    /\ BlackjackGame.player_cards g1 = [c1; c2]
    /\ (fst c1 = 1 -> fst c2 = 1 ->
        exists g',
          BlackjackGame.play_round shuffle fuel inbox g
          = Some (Ok (Finished (Some (s_lit "win")), inbox, g'))
          /\ BlackjackGame.player_cards g' = [c1; c2]
          /\ BlackjackGame.player_sum g' = 22
          /\ 17 <= BlackjackGame.dealer_sum g'
          /\ Forall (fun e => e <> EvRecv)
               (added (BlackjackGame.wire g) (BlackjackGame.wire g'))).
Proof.
  intros Hf.
  destruct (deal_initial_round shuffle shuffle_perm g)
    as (rest & c1 & c2 & d1 & d2 & Hdeal & I & H1 & H2 & H3 & H4).
  cbv zeta in Hdeal, I.
  match type of I with in_round _ ?x => set (g1 := x) in * end.
  exists c1, c2, d2, g1. split; [exact Hdeal|]. split; [reflexivity|].
  intros A1 A2.
  assert (BlackjackGame.player_sum g1 = 22) as Hsum.
  { subst g1. gsimpl. unfold BlackjackGame.calculate_sum. cbn [fold_left].
    now rewrite A1, A2. }
  unfold BlackjackGame.play_round. rewrite Hdeal.
  unfold BlackjackGame.play_hand.
  rewrite player_turn_done by lia.
  destruct (dealer_turn_trace shuffle _ fuel d2 g1 I H4 Hf)
    as (drawn & g3 & Er & _ & Hd & _ & _ & _ & Hw & Hpc & Hps).
  rewrite Er.
  assert (BlackjackGame.determine_winner g3 = (s_lit "win", RESULT_WIN))
    as Ew.
  { destruct (determine_winner_cases g3)
      as [(_ & E)|[(_ & _ & E)|[(Hle & Hlt & _)|(Hle & Heq & _)]]];
      try exact E; cbv zeta in *; lia. }
  rewrite Ew. cbn [fst snd]. eexists. split; [reflexivity|]. gsimpl.
  split; [exact Hpc|]. split; [lia|]. split; [exact Hd|].
  rewrite Hw. subst g1. gsimpl. rewrite <- !app_assoc, added_app.
  repeat (apply Forall_app; split); repeat constructor; try discriminate.
  apply Forall_map, Forall_forall. intros c _. discriminate.
Qed.

End TwoAces.

Section RoundResult.

Variable shuffle : nat -> list card -> list card.
Hypothesis shuffle_perm : forall n l, Permutation (shuffle n l) l.

(** How the player's loop is left. *)
Lemma player_turn_ends (k : nat) (inbox : list recv_event) :
  forall g : BlackjackGame.t,
    in_round k g ->
    BlackjackGame.player_sum g <= 22 ->
    exists e inbox' g',
      BlackjackGame.player_turn shuffle inbox g = Ok (e, inbox', g')
      /\ in_round k g'
      /\ BlackjackGame.dealer_cards g' = BlackjackGame.dealer_cards g
      /\ match e with
         | TurnReturn (Some r) =>
             r = s_lit "loss" /\ 21 < BlackjackGame.player_sum g'
         | TurnReturn None => BlackjackGame.player_sum g' < 21
         | TurnOver => BlackjackGame.player_sum g' <= 22
         | AwaitAction => BlackjackGame.player_sum g' < 21 /\ inbox' = []
         end.
Proof.
  induction inbox as [|ev rest IH]; intros g I Hle;
    destruct (Z_lt_ge_dec (BlackjackGame.player_sum g) 21) as [Hlt|Hge];
    try (rewrite player_turn_done by lia; eexists _, _, _;
         split; [reflexivity|]; split; [exact I|]; now split).
  - cbn [BlackjackGame.player_turn]. rewrite (proj2 (Z.ltb_lt _ _) Hlt).
    eexists _, _, _. split; [reflexivity|]. split; [exact I|]. now split.
  - cbn [BlackjackGame.player_turn]. rewrite (proj2 (Z.ltb_lt _ _) Hlt).
    destruct (player_step_trace shuffle k ev g I Hlt)
      as [(_ & H)|[(data & _ & _ & H)
                  |(data & c & r & _ & _ & _ & Hc & I'
                    & [(Hb & H)|(Hok & H)])]];
      rewrite H.
    + eexists _, _, _. split; [reflexivity|]. split; [exact I|]. now split.
    + eexists _, _, _. split; [reflexivity|]. split; [exact I|].
      split; [reflexivity|]. gsimpl. lia.
    + eexists _, _, _. split; [reflexivity|]. split; [exact I'|].
      split; [reflexivity|]. now split.
    + destruct (IH _ (in_round_log k (sent RESULT_ROUND_NOT_OVER c) _ I'))
        as (e & inbox' & g' & Ht & I'' & Hd & He);
        [gsimpl; unfold after_hit in *; gsimpl; lia|].
      exists e, inbox', g'. split; [exact Ht|]. split; [exact I''|].
      split; [now rewrite Hd|exact He].
Qed.

(** X19. How a round can end.  Whatever the client sends, a round ends in
    one of four ways.  The player asked for a card and went over 21: the
    result is a loss and the dealer holds the two cards of the deal.  Or
    the dealer played: the player's total is at most 22, the dealer's total
    is the sum of the dealer's cards and lies between 17 and 27, the result
    is the one the two totals give, and it is the last thing sent, without
    card.  Or no action arrived while the player's total was below 21, and
    the round is given up.  Or the input ran out while the total was below
    21, and the server is waiting with all the input read. *)
Theorem round_result_sound (fuel : nat) (inbox : list recv_event)
    (g : BlackjackGame.t) :
  (17 <= fuel)%nat ->
  exists e inbox' g',
    BlackjackGame.play_round shuffle fuel inbox g = Some (Ok (e, inbox', g'))
    /\ (2 <= length (BlackjackGame.dealer_cards g'))%nat
    /\ match e with
       | Finished (Some r) =>
           (r = s_lit "loss"
            /\ 21 < BlackjackGame.player_sum g'
            /\ length (BlackjackGame.dealer_cards g') = 2%nat)
           \/ (r = fst (BlackjackGame.determine_winner g')
               /\ BlackjackGame.player_sum g' <= 22
               /\ 17 <= BlackjackGame.dealer_sum g' <= 27
               /\ BlackjackGame.dealer_sum g'
                  = BlackjackGame.calculate_sum
                      (BlackjackGame.dealer_cards g')
               /\ exists before,
                    BlackjackGame.wire g'
                    = before
                      ++ [sent (snd (BlackjackGame.determine_winner g'))
                            no_card])
       | Finished None => BlackjackGame.player_sum g' < 21
       | Waiting => BlackjackGame.player_sum g' < 21 /\ inbox' = []
       end.
Proof.
  intros Hf. unfold BlackjackGame.play_round.
  destruct (deal_initial_round shuffle shuffle_perm g)
    as (rest & c1 & c2 & d1 & d2 & Hdeal & I & H1 & H2 & H3 & H4).
  cbv zeta in Hdeal, I. rewrite Hdeal.
  match type of I with in_round _ ?x => set (g1 := x) in * end.
  assert (BlackjackGame.player_sum g1 <= 22) as Hle.
  { subst g1. gsimpl. unfold BlackjackGame.calculate_sum. cbn [fold_left].
    pose proof (valid_card_value c1 H1). pose proof (valid_card_value c2 H2).
    lia. }
  unfold BlackjackGame.play_hand.
  destruct (player_turn_ends _ inbox g1 I Hle)
    as (e & inbox' & g2 & Ht & I2 & Hd & He).
  rewrite Ht. destruct e as [[r|]| |].
  - eexists _, _, _. split; [reflexivity|]. rewrite Hd.
    split; [cbn; lia|]. left. destruct He as [-> Hb]. now repeat split.
  - eexists _, _, _. split; [reflexivity|]. rewrite Hd.
    split; [cbn; lia|exact He].
  - destruct (dealer_turn_trace shuffle _ fuel d2 g2 I2 H4 Hf)
      as (drawn & g3 & Er & I3 & H17 & Hsum & Hcards & _ & Hw & _ & Hps).
    rewrite Er. eexists _, _, _. split; [reflexivity|]. gsimpl.
    rewrite Hcards, Hd, length_app.
    split; [cbn; lia|]. right.
    destruct I3 as (_ & _ & _ & _ & B27).
    split; [reflexivity|]. split; [lia|]. split; [lia|].
    split; [now rewrite Hsum, Hcards, Hd|].
    eexists. reflexivity.
  - eexists _, _, _. split; [reflexivity|]. rewrite Hd.
    split; [cbn; lia|exact He].
Qed.

End RoundResult.

Section StandStep.

Variable shuffle : nat -> list card -> list card.
Hypothesis shuffle_perm : forall n l, Permutation (shuffle n l) l.

(** X20. A stand in the player's turn.  With the player's total below 21
    and a Stand payload received, the server acknowledges with a payload
    without card and NOT_OVER, draws nothing for the player, whose total
    stays, sends the dealer's second card, plays the dealer's loop and
    sends the result the two totals give.  What the client has sent after
    the stand is left unread. *)
Theorem stand_step (fuel : nat) (dealer_card2 : card) (data : bytes)
    (rest : list recv_event) (g : BlackjackGame.t) :
  deck_ok (BlackjackGame.deck g) ->
  Forall (fun c => In c full_deck) (BlackjackGame.dealer_cards g) ->
  In dealer_card2 full_deck ->
  (17 <= fuel)%nat ->
  BlackjackGame.player_sum g < 21 ->
  unpack_client_payload data = Ok (Some (s_lit "stand")) ->
  exists drawn g1 g',
    BlackjackGame.play_hand shuffle fuel dealer_card2
      (RecvData data :: rest) g
    = Some (Ok (Finished (Some (fst (BlackjackGame.determine_winner g1))),
                rest, g'))
    /\ BlackjackGame.wire g'
       = BlackjackGame.wire g
         ++ [EvRecv; sent RESULT_ROUND_NOT_OVER no_card;
             sent RESULT_ROUND_NOT_OVER dealer_card2]
         ++ map (sent RESULT_ROUND_NOT_OVER) drawn
         ++ [sent (snd (BlackjackGame.determine_winner g1)) no_card]
    /\ BlackjackGame.player_sum g1 = BlackjackGame.player_sum g
    /\ BlackjackGame.player_sum g' = BlackjackGame.player_sum g
    /\ 17 <= BlackjackGame.dealer_sum g1
    /\ BlackjackGame.dealer_sum g' = BlackjackGame.dealer_sum g1.
Proof.
  intros Hd Hv Hc2 Hf Hlt Hu.
  unfold BlackjackGame.play_hand. cbn [BlackjackGame.player_turn].
  rewrite (proj2 (Z.ltb_lt _ _) Hlt).
  unfold BlackjackGame.player_step.
  rewrite (receive_action_data _ _ g Hu).
  change (pystr_eqb (s_lit "stand") (s_lit "stand")) with true. cbv iota.
  rewrite send_card_ok; [|unfold RESULT_ROUND_NOT_OVER; lia|now right].
  cbn [bind].
  match goal with
  | |- context [BlackjackGame.dealer_turn shuffle fuel dealer_card2 ?g0] =>
      destruct (dealer_turn_runs shuffle shuffle_perm fuel dealer_card2 g0)
        as (drawn & g1 & H17 & _ & Hps & Hw & Er)
  end; gsimpl; try assumption.
  rewrite Er. exists drawn, g1. eexists. split; [reflexivity|]. gsimpl.
  rewrite Hw, Hps. rewrite <- !app_assoc. cbn [app].
  now repeat split.
Qed.

End StandStep.

(* ================================================================== *)
(** * Client and server together *)

Local Ltac csimpl :=
  cbn [BlackjackClient.player_cards BlackjackClient.dealer_visible_cards
       BlackjackClient.player_sum BlackjackClient.dealer_sum
       BlackjackClient.stdin BlackjackClient.wire BlackjackClient.log] in *.

Lemma receive_card_sent (code : Z) (c : card) :
  0 <= code <= 255 -> card_or_none c ->
  BlackjackClient.receive_card (RecvData (card_payload code c))
  = Some (code, fst c, suit_char c).
Proof.
  intros Hcode Hc. destruct (sent_decodes code c Hcode Hc) as [L U].
  unfold BlackjackClient.receive_card.
  destruct (card_payload code c) as [|x p] eqn:E; [discriminate|].
  rewrite L, Nat.ltb_irrefl, U. reflexivity.
Qed.

Lemma decision_cases (player_sum : Z) (lines : list pystr) :
  exists a lines',
    BlackjackClient.get_player_decision player_sum lines = (a, lines')
    /\ (a = s_lit "hit" \/ a = s_lit "stand").
Proof.
  induction lines as [|line rest IH]; cbn [BlackjackClient.get_player_decision].
  - destruct (player_sum >=? 17); eexists _, _; split; try reflexivity; tauto.
  - destruct (str_in _ _); [eexists _, _; split; [reflexivity|tauto]|].
    destruct (str_in _ _); [eexists _, _; split; [reflexivity|tauto]|].
    exact IH.
Qed.

Lemma send_action_ok (a : pystr) (w : BlackjackClient.world) :
  a = s_lit "hit" \/ a = s_lit "stand" ->
  BlackjackClient.send_action a w
  = Ok (BlackjackClient.log (EvSend (action_payload a)) w)
  /\ unpack_client_payload (action_payload a) = Ok (Some a).
Proof.
  intros [-> | ->]; (split; [|vm_compute; reflexivity]);
    unfold BlackjackClient.send_action.
  - assert (pack_client_payload (s_lit "hit")
            = Ok (action_payload (s_lit "hit"))) as E
      by (vm_compute; reflexivity).
    now rewrite E.
  - assert (pack_client_payload (s_lit "stand")
            = Ok (action_payload (s_lit "stand"))) as E
      by (vm_compute; reflexivity).
    now rewrite E.
Qed.

Lemma card_sum_wire (l : list card) :
  BlackjackClient.card_sum (map wire_card l) = BlackjackGame.calculate_sum l.
Proof.
  unfold BlackjackClient.card_sum, BlackjackGame.calculate_sum.
  generalize 0. induction l as [|c l IH]; intros acc; [reflexivity|].
  cbn [map fold_left]. now rewrite IH.
Qed.

Lemma sends_recvs (n : nat) : sends (repeat EvRecv n) = [].
Proof. induction n; [reflexivity|exact IHn]. Qed.

Lemma sends_sent (code : Z) (l : list card) :
  sends (map (sent code) l) = map (card_payload code) l.
Proof. induction l as [|c l IH]; [reflexivity|]. cbn. now f_equal. Qed.

(** The client's loop, left at once at 21 or more. *)
Lemma player_loop_done (incoming : list recv_event)
    (w : BlackjackClient.world) (h : BlackjackClient.hands) :
  21 <= BlackjackClient.player_sum h ->
  BlackjackClient.player_loop incoming w h = Ok (ClientOver, incoming, w, h).
Proof.
  intros H. destruct incoming; cbn [BlackjackClient.player_loop];
    now rewrite (proj2 (Z.ltb_ge _ _) H).
Qed.

(** One run of the body of the client's loop. *)
Lemma player_loop_step (incoming : list recv_event)
    (w : BlackjackClient.world) (h : BlackjackClient.hands) :
  BlackjackClient.player_sum h < 21 ->
  exists a lines,
    BlackjackClient.get_player_decision (BlackjackClient.player_sum h)
      (BlackjackClient.stdin w) = (a, lines)
    /\ (a = s_lit "hit" \/ a = s_lit "stand")
    /\ BlackjackClient.player_loop incoming w h
       = let w1 :=
           BlackjackClient.log (EvSend (action_payload a))
             (BlackjackClient.mk_world lines (BlackjackClient.wire w)) in
         match incoming with
         | [] => Ok (ClientAwait, [], w1, h)
         | ev :: rest =>
             let w2 := BlackjackClient.log EvRecv w1 in
             if pystr_eqb a (s_lit "stand") then Ok (ClientOver, rest, w2, h)
             else
               match BlackjackClient.receive_card ev with
               | None => Ok (ClientReturn None, rest, w2, h)
               | Some (result, rank, suit) =>
                   let h1 := BlackjackClient.take_player_card rank suit h in
                   if result =? RESULT_LOSS then
                     Ok (ClientReturn (Some (s_lit "loss")), rest, w2, h1)
                   else if result =? RESULT_WIN then
                     Ok (ClientReturn (Some (s_lit "win")), rest, w2, h1)
                   else if result =? RESULT_TIE then
                     Ok (ClientReturn (Some (s_lit "tie")), rest, w2, h1)
                   else BlackjackClient.player_loop rest w2 h1
               end
         end.
Proof.
  intros H.
  destruct (decision_cases (BlackjackClient.player_sum h)
              (BlackjackClient.stdin w)) as (a & lines & E & Ha).
  exists a, lines. split; [exact E|]. split; [exact Ha|].
  destruct (send_action_ok a
              (BlackjackClient.mk_world lines (BlackjackClient.wire w)) Ha)
    as [Es _].
  destruct incoming as [|ev rest]; cbn [BlackjackClient.player_loop];
    rewrite (proj2 (Z.ltb_lt _ _) H), E, Es; reflexivity.
Qed.

(** The client's loop adds to the wire, beginning with the action it sends
    when the total is below 21. *)
Lemma player_loop_wire (incoming : list recv_event) :
  forall (w : BlackjackClient.world) (h : BlackjackClient.hands)
         ce incoming' w' h',
    BlackjackClient.player_loop incoming w h = Ok (ce, incoming', w', h') ->
    exists dc,
      BlackjackClient.wire w' = BlackjackClient.wire w ++ dc
      /\ (BlackjackClient.player_sum h < 21 ->
          exists a dc1,
            (a = s_lit "hit" \/ a = s_lit "stand")
            /\ fst (BlackjackClient.get_player_decision
                      (BlackjackClient.player_sum h)
                      (BlackjackClient.stdin w)) = a
            /\ dc = EvSend (action_payload a) :: dc1).
Proof.
  induction incoming as [|ev rest IH]; intros w h ce incoming' w' h' H;
    destruct (Z_lt_ge_dec (BlackjackClient.player_sum h) 21) as [Hlt|Hge];
    try (rewrite player_loop_done in H by lia; apply Ok_inj in H;
         injection H as _ _ <- _; exists []; rewrite app_nil_r;
         split; [reflexivity|lia]).
  - destruct (player_loop_step [] w h Hlt) as (a & lines & E & Ha & Hs).
    rewrite Hs in H. cbv zeta in H. apply Ok_inj in H.
    injection H as _ _ <- _. eexists. split; [reflexivity|].
    intros _. exists a, []. rewrite E. now repeat split.
  - destruct (player_loop_step (ev :: rest) w h Hlt)
      as (a & lines & E & Ha & Hs).
    rewrite Hs in H. cbv zeta in H. clear Hs.
    assert (forall dc1,
              BlackjackClient.wire w'
              = BlackjackClient.wire w
                ++ EvSend (action_payload a) :: dc1 ->
              exists dc,
                BlackjackClient.wire w' = BlackjackClient.wire w ++ dc
                /\ (BlackjackClient.player_sum h < 21 ->
                    exists a dc1,
                      (a = s_lit "hit" \/ a = s_lit "stand")
                      /\ fst (BlackjackClient.get_player_decision
                                (BlackjackClient.player_sum h)
                                (BlackjackClient.stdin w)) = a
                      /\ dc = EvSend (action_payload a) :: dc1)) as Done.
    { intros dc1 Hw. eexists. split; [exact Hw|]. intros _.
      exists a, dc1. rewrite E. now repeat split. }
    destruct (pystr_eqb a (s_lit "stand")).
    { apply Ok_inj in H. injection H as _ _ <- _. apply (Done [EvRecv]).
      csimpl. now rewrite <- app_assoc. }
    destruct (BlackjackClient.receive_card ev) as [[[result rank] suit]|].
    2:{ apply Ok_inj in H. injection H as _ _ <- _. apply (Done [EvRecv]).
        csimpl. now rewrite <- app_assoc. }
    destruct (result =? RESULT_LOSS);
      [apply Ok_inj in H; injection H as _ _ <- _; apply (Done [EvRecv]);
       csimpl; now rewrite <- app_assoc|].
    destruct (result =? RESULT_WIN);
      [apply Ok_inj in H; injection H as _ _ <- _; apply (Done [EvRecv]);
       csimpl; now rewrite <- app_assoc|].
    destruct (result =? RESULT_TIE);
      [apply Ok_inj in H; injection H as _ _ <- _; apply (Done [EvRecv]);
       csimpl; now rewrite <- app_assoc|].
    destruct (IH _ _ _ _ _ _ H) as (dc & Hw & _).
    apply (Done (EvRecv :: dc)). rewrite Hw. csimpl.
    now rewrite <- !app_assoc.
Qed.

Lemma app_delta {A} (l a b : list A) : l ++ a = l ++ b -> a = b.
Proof. apply app_inv_head. Qed.

Lemma app_delta_nil {A} (l a : list A) : l = l ++ a -> a = [].
Proof.
  intros H. rewrite <- (app_nil_r l) in H at 1.
  now apply app_inv_head in H.
Qed.

Lemma received_send (p : bytes) (l : list event) (later : list recv_event) :
  as_received (sends (EvSend p :: l)) ++ later
  = RecvData p :: (as_received (sends l) ++ later).
Proof. reflexivity. Qed.

Lemma received_recv (l : list event) (later : list recv_event) :
  as_received (sends (EvRecv :: l)) ++ later
  = as_received (sends l) ++ later.
Proof. reflexivity. Qed.

Lemma received_none (later : list recv_event) :
  as_received (sends []) ++ later = later.
Proof. reflexivity. Qed.

Lemma take_player_card_agrees (c : card) (rest : list card)
    (h : BlackjackClient.hands) (g : BlackjackGame.t) (e : event) :
  In c full_deck -> hands_agree h g ->
  hands_agree (BlackjackClient.take_player_card (fst c) (suit_char c) h)
    (BlackjackGame.log e (after_hit c rest g))
  /\ BlackjackClient.dealer_visible_cards
       (BlackjackClient.take_player_card (fst c) (suit_char c) h)
     = BlackjackClient.dealer_visible_cards h
  /\ BlackjackClient.dealer_sum
       (BlackjackClient.take_player_card (fst c) (suit_char c) h)
     = BlackjackClient.dealer_sum h.
Proof.
  intros Hc [Ac As]. unfold BlackjackClient.take_player_card.
  apply full_deck_in in Hc as (rank & suit & -> & Hk & _). cbn [fst].
  rewrite (proj2 (Z.gtb_lt _ _)) by lia.
  assert (BlackjackClient.player_cards h
          ++ [(rank, suit_char (rank, SuitInt suit))]
          = map wire_card
              (BlackjackGame.player_cards g ++ [(rank, SuitInt suit)])) as E
    by (rewrite Ac, map_app; reflexivity).
  unfold hands_agree, after_hit. csimpl. gsimpl.
  rewrite E, card_sum_wire. now repeat split.
Qed.

Section PlayerPhase.

Variable shuffle : nat -> list card -> list card.
Hypothesis shuffle_perm : forall n l, Permutation (shuffle n l) l.

(** The player's turn on both sides, each reading what the other sends:
    they make the same steps and leave their loops together. *)
Lemma player_phase_agrees (k : nat) (inbox : list recv_event) :
  forall (g : BlackjackGame.t) (w : BlackjackClient.world)
         (h : BlackjackClient.hands) (incoming later_c later_s : list recv_event)
         se inbox' g' ce incoming' w' h' ds dc,
    in_round k g -> hands_agree h g ->
    BlackjackGame.player_turn shuffle inbox g = Ok (se, inbox', g') ->
    BlackjackClient.player_loop incoming w h = Ok (ce, incoming', w', h') ->
    BlackjackGame.wire g' = BlackjackGame.wire g ++ ds ->
    BlackjackClient.wire w' = BlackjackClient.wire w ++ dc ->
    inbox = as_received (sends dc) ++ later_c ->
    incoming = as_received (sends ds) ++ later_s ->
    inbox' = later_c /\ incoming' = later_s
    /\ in_round k g' /\ hands_agree h' g'
    /\ BlackjackClient.dealer_visible_cards h'
       = BlackjackClient.dealer_visible_cards h
    /\ BlackjackClient.dealer_sum h' = BlackjackClient.dealer_sum h
    /\ BlackjackGame.dealer_cards g' = BlackjackGame.dealer_cards g
    /\ ((se = TurnOver /\ ce = ClientOver)
        \/ (se = TurnReturn (Some (s_lit "loss"))
            /\ ce = ClientReturn (Some (s_lit "loss"))
            /\ 21 < BlackjackGame.player_sum g')).
Proof.
  induction inbox as [|ev rest IH];
    intros g w h incoming later_c later_s se inbox' g' ce incoming' w' h'
           ds dc I A Hs Hc Hwg Hww Hin Hinc;
    destruct (Z_lt_ge_dec (BlackjackGame.player_sum g) 21) as [Hlt|Hge];
    try (rewrite player_turn_done in Hs by lia;
         rewrite player_loop_done in Hc by (destruct A as [_ ->]; lia);
         apply Ok_inj in Hs; injection Hs as <- <- <-;
         apply Ok_inj in Hc; injection Hc as <- <- <- <-;
         apply app_delta_nil in Hwg, Hww; subst ds dc;
         cbn in Hin, Hinc; subst;
         repeat (split; [assumption || reflexivity|]); now left).
  - (* the client sends an action: the inbox is not empty *)
    destruct (player_loop_wire _ _ _ _ _ _ _ Hc) as (dc0 & Hw0 & Hd).
    destruct Hd as (a & dc1 & _ & _ & ->); [destruct A as [_ ->]; lia|].
    rewrite Hww in Hw0. apply app_delta in Hw0. subst dc. discriminate Hin.
  - assert (BlackjackClient.player_sum h < 21) as Hlt'
      by (destruct A as [_ ->]; lia).
    destruct (player_loop_wire _ _ _ _ _ _ _ Hc) as (dc0 & Hw0 & Hd).
    destruct (Hd Hlt') as (a & dc1 & Ha & Ea & ->). clear Hd.
    rewrite Hww in Hw0. apply app_delta in Hw0. subst dc.
    rewrite received_send in Hin. injection Hin as -> ->.
    destruct (send_action_ok a w Ha) as [_ Ua].
    destruct (player_loop_step incoming w h Hlt')
      as (a' & lines & E & _ & Hstep).
    rewrite E in Ea. cbn [fst] in Ea. subst a'.
    rewrite Hstep in Hc. cbv zeta in Hc. clear Hstep.
    cbn [BlackjackGame.player_turn] in Hs.
    rewrite (proj2 (Z.ltb_lt _ _) Hlt) in Hs.
    destruct (player_step_trace shuffle k (RecvData (action_payload a)) g
                I Hlt)
      as [(Hn & _)|[(data & Ed & Ud & Hp)
                   |(data & c & r & Ed & Ud & Edeck & Hcard & I'
                     & [(Hbust & Hp)|(Hok & Hp)])]].
    + rewrite (receive_action_data _ _ g Ua) in Hn. discriminate Hn.
    + (* stand *)
      injection Ed as <-. rewrite Ua in Ud. apply Ok_inj in Ud.
      injection Ud as ->.
      rewrite Hp in Hs. apply Ok_inj in Hs. injection Hs as <- <- <-.
      gsimpl. rewrite <- app_assoc in Hwg. apply app_delta in Hwg. subst ds.
      cbn [app] in Hinc. unfold sent in Hinc.
      rewrite received_recv, received_send, ?received_none in Hinc.
      subst incoming.
      change (pystr_eqb (s_lit "stand") (s_lit "stand")) with true in Hc.
      cbv iota in Hc. apply Ok_inj in Hc. injection Hc as <- <- <- <-.
      csimpl. rewrite <- app_assoc in Hww. apply app_delta in Hww.
      injection Hww as <-. rewrite received_recv, received_none.
      repeat (split; [assumption || reflexivity|]). now left.
    + (* hit, over 21 *)
      injection Ed as <-. rewrite Ua in Ud. apply Ok_inj in Ud.
      injection Ud as ->.
      rewrite Hp in Hs. apply Ok_inj in Hs. injection Hs as <- <- <-.
      unfold after_hit in Hwg. gsimpl.
      rewrite <- app_assoc in Hwg. apply app_delta in Hwg. subst ds.
      cbn [app] in Hinc. unfold sent in Hinc.
      rewrite received_recv, received_send, ?received_none in Hinc.
      subst incoming.
      change (pystr_eqb (s_lit "hit") (s_lit "stand")) with false in Hc.
      cbv iota in Hc.
      rewrite receive_card_sent in Hc
        by (unfold RESULT_LOSS; try lia; now left).
      change (RESULT_LOSS =? RESULT_LOSS) with true in Hc. cbv iota in Hc.
      apply Ok_inj in Hc. injection Hc as <- <- <- <-.
      csimpl. rewrite <- app_assoc in Hww. apply app_delta in Hww.
      injection Hww as <-. rewrite received_recv, received_none.
      destruct (take_player_card_agrees c r h g (sent RESULT_LOSS c) Hcard A)
        as (A' & Dv & Dsum).
      split; [reflexivity|]. split; [reflexivity|].
      split; [exact I'|]. split; [exact A'|].
      split; [exact Dv|]. split; [exact Dsum|].
      split; [reflexivity|]. right. now repeat split.
    + (* hit, at most 21 *)
      injection Ed as <-. rewrite Ua in Ud. apply Ok_inj in Ud.
      injection Ud as ->.
      rewrite Hp in Hs.
      destruct (player_turn_trace shuffle k
                  (as_received (sends dc1) ++ later_c) _
                  (in_round_log k (sent RESULT_ROUND_NOT_OVER c) _ I'))
        as (e1 & i1 & g1 & ds1 & Ht & _ & _ & Hw1 & _).
      rewrite Ht in Hs. apply Ok_inj in Hs. injection Hs as <- <- <-.
      rewrite Hw1 in Hwg. unfold after_hit in Hwg. gsimpl.
      rewrite <- !app_assoc in Hwg. apply app_delta in Hwg. subst ds.
      cbn [app] in Hinc. unfold sent in Hinc.
      rewrite received_recv, received_send, ?received_none in Hinc.
      subst incoming.
      change (pystr_eqb (s_lit "hit") (s_lit "stand")) with false in Hc.
      cbv iota in Hc.
      rewrite receive_card_sent in Hc
        by (unfold RESULT_ROUND_NOT_OVER; try lia; now left).
      change (RESULT_ROUND_NOT_OVER =? RESULT_LOSS) with false in Hc.
      change (RESULT_ROUND_NOT_OVER =? RESULT_WIN) with false in Hc.
      change (RESULT_ROUND_NOT_OVER =? RESULT_TIE) with false in Hc.
      cbv iota in Hc.
      destruct (player_loop_wire _ _ _ _ _ _ _ Hc) as (dc2 & Hw2 & _).
      csimpl. rewrite Hw2 in Hww. rewrite <- !app_assoc in Hww.
      apply app_delta in Hww. injection Hww as <-.
      destruct (take_player_card_agrees c r h g
                  (sent RESULT_ROUND_NOT_OVER c) Hcard A)
        as (A' & Dv & Dsum).
      destruct (IH _ _ _ _ later_c later_s _ _ _ _ _ _ _ ds1 dc2
                  (in_round_log k (sent RESULT_ROUND_NOT_OVER c) _ I') A'
                  Ht Hc Hw1 Hw2 eq_refl eq_refl)
        as (R1 & R2 & R3 & R4 & R5 & R6 & R7 & R8).
      rewrite R5, R6, R7, Dv, Dsum.
      repeat (split; [assumption || reflexivity|]). exact R8.
Qed.

End PlayerPhase.

Lemma winner_name (g : BlackjackGame.t) :
  result_name (snd (BlackjackGame.determine_winner g))
  = fst (BlackjackGame.determine_winner g).
Proof.
  destruct (determine_winner_cases g)
    as [(_ & E)|[(_ & _ & E)|[(_ & _ & E)|(_ & _ & E)]]];
    rewrite E; reflexivity.
Qed.

Lemma winner_names (g : BlackjackGame.t) :
  let r := fst (BlackjackGame.determine_winner g) in
  r = s_lit "win" \/ r = s_lit "loss" \/ r = s_lit "tie".
Proof.
  destruct (determine_winner_cases g)
    as [(_ & E)|[(_ & _ & E)|[(_ & _ & E)|(_ & _ & E)]]];
    rewrite E; cbn [fst]; tauto.
Qed.

(** Once the result is final the client's second loop is left. *)
Lemma dealer_loop_final (result : Z) (incoming : list recv_event)
    (w : BlackjackClient.world) (h : BlackjackClient.hands) :
  result <> RESULT_ROUND_NOT_OVER ->
  BlackjackClient.dealer_loop result incoming w h
  = (Finished (Some (result_name result)), incoming, w, h).
Proof.
  intros H. apply Z.eqb_neq in H.
  destruct incoming; cbn [BlackjackClient.dealer_loop]; now rewrite H.
Qed.

(** The client calls [recv] and nothing else on the socket from the
    dealer's hidden card on. *)
Lemma dealer_loop_wire (incoming : list recv_event) :
  forall (result : Z) (w : BlackjackClient.world) (h : BlackjackClient.hands)
         e incoming' w' h',
    BlackjackClient.dealer_loop result incoming w h = (e, incoming', w', h') ->
    exists n, BlackjackClient.wire w'
              = BlackjackClient.wire w ++ repeat EvRecv n
              /\ BlackjackClient.stdin w' = BlackjackClient.stdin w.
Proof.
  induction incoming as [|ev rest IH]; intros result w h e incoming' w' h';
    cbn [BlackjackClient.dealer_loop];
    destruct (result =? RESULT_ROUND_NOT_OVER);
    try (intros [= _ _ <- _]; exists 0%nat; now rewrite app_nil_r).
  destruct (BlackjackClient.receive_card ev) as [[[result' rank] suit]|].
  - intros H. apply IH in H as (n & Hw & Hs). exists (S n).
    rewrite Hw, Hs. csimpl. now rewrite <- app_assoc.
  - intros [= _ _ <- _]. exists 1%nat. split; reflexivity.
Qed.

Lemma dealer_phase_wire (incoming : list recv_event)
    (w : BlackjackClient.world) (h : BlackjackClient.hands)
    e incoming' w' h' :
  BlackjackClient.dealer_phase incoming w h = (e, incoming', w', h') ->
  exists n, BlackjackClient.wire w'
            = BlackjackClient.wire w ++ repeat EvRecv n
            /\ BlackjackClient.stdin w' = BlackjackClient.stdin w.
Proof.
  unfold BlackjackClient.dealer_phase. destruct incoming as [|ev rest].
  { intros [= _ _ <- _]. exists 0%nat. now rewrite app_nil_r. }
  destruct (BlackjackClient.receive_card ev) as [[[result rank] suit]|].
  - intros H. apply dealer_loop_wire in H as (n & Hw & Hs). exists (S n).
    rewrite Hw, Hs. csimpl. now rewrite <- app_assoc.
  - intros [= _ _ <- _]. exists 1%nat. split; reflexivity.
Qed.

Lemma dealer_takes_card (c : card) (h : BlackjackClient.hands) :
  In c full_deck ->
  BlackjackClient.set_dealer_sum
    (BlackjackClient.take_dealer_card (fst c) (suit_char c) h)
  = BlackjackClient.mk_hands (BlackjackClient.player_cards h)
      (BlackjackClient.dealer_visible_cards h ++ [wire_card c])
      (BlackjackClient.player_sum h)
      (BlackjackClient.card_sum
         (BlackjackClient.dealer_visible_cards h ++ [wire_card c]))
  /\ (fst c >? 0) = true.
Proof.
  intros Hc. apply full_deck_in in Hc as (rank & suit & -> & Hk & _).
  cbn [fst]. unfold BlackjackClient.take_dealer_card.
  rewrite (proj2 (Z.gtb_lt _ _)) by lia. split; reflexivity.
Qed.

(** The client's second loop on the cards the dealer drew and the final
    result. *)
Lemma dealer_loop_cards (drawn : list card) :
  forall (w : BlackjackClient.world) (h : BlackjackClient.hands)
         (code : Z) (later : list recv_event),
    Forall (fun c => In c full_deck) drawn ->
    1 <= code <= 3 ->
    BlackjackClient.dealer_sum h
    = BlackjackClient.card_sum (BlackjackClient.dealer_visible_cards h) ->
    exists w',
      BlackjackClient.dealer_loop RESULT_ROUND_NOT_OVER
        (as_received
           (sends (map (sent RESULT_ROUND_NOT_OVER) drawn
                   ++ [sent code no_card])) ++ later) w h
      = (Finished (Some (result_name code)), later, w',
         BlackjackClient.mk_hands (BlackjackClient.player_cards h)
           (BlackjackClient.dealer_visible_cards h ++ map wire_card drawn)
           (BlackjackClient.player_sum h)
           (BlackjackClient.card_sum
              (BlackjackClient.dealer_visible_cards h
               ++ map wire_card drawn))).
Proof.
  induction drawn as [|c drawn IH]; intros w h code later Hv Hcode Hsum.
  - cbn [map app]. unfold sent. rewrite received_send, received_none.
    cbn [BlackjackClient.dealer_loop].
    change (RESULT_ROUND_NOT_OVER =? RESULT_ROUND_NOT_OVER) with true.
    cbv iota. rewrite receive_card_sent by (try lia; now right).
    cbn [fst no_card]. change (0 >? 0) with false. cbv iota.
    rewrite dealer_loop_final by (unfold RESULT_ROUND_NOT_OVER; lia).
    eexists. rewrite app_nil_r, <- Hsum. now destruct h.
  - inversion Hv as [|c' l' Hc Hv']; subst.
    cbn [map app]. unfold sent at 1. rewrite received_send.
    cbn [BlackjackClient.dealer_loop].
    change (RESULT_ROUND_NOT_OVER =? RESULT_ROUND_NOT_OVER) with true.
    cbv iota.
    rewrite receive_card_sent
      by (unfold RESULT_ROUND_NOT_OVER; try lia; now left).
    destruct (dealer_takes_card c h Hc) as [E ->]. rewrite E.
    match goal with
    | |- context [BlackjackClient.dealer_loop _ _ ?w1 ?h1] =>
        destruct (IH w1 h1 code later Hv' Hcode eq_refl) as (w' & Hl)
    end.
    rewrite Hl. csimpl. exists w'. now rewrite <- !app_assoc.
Qed.

(** The client's part of the round from the dealer's hidden card on, on
    what the server sends in its part. *)
Lemma dealer_phase_cards (dealer_card2 : card) (drawn : list card)
    (w : BlackjackClient.world) (h : BlackjackClient.hands) (code : Z)
    (later : list recv_event) :
  In dealer_card2 full_deck ->
  Forall (fun c => In c full_deck) drawn ->
  1 <= code <= 3 ->
  exists w',
    BlackjackClient.dealer_phase
      (as_received
         (sends (sent RESULT_ROUND_NOT_OVER dealer_card2
                 :: map (sent RESULT_ROUND_NOT_OVER) drawn
                 ++ [sent code no_card])) ++ later) w h
    = (Finished (Some (result_name code)), later, w',
       BlackjackClient.mk_hands (BlackjackClient.player_cards h)
         (BlackjackClient.dealer_visible_cards h
          ++ map wire_card (dealer_card2 :: drawn))
         (BlackjackClient.player_sum h)
         (BlackjackClient.card_sum
            (BlackjackClient.dealer_visible_cards h
             ++ map wire_card (dealer_card2 :: drawn)))).
Proof.
  intros Hc Hv Hcode. unfold sent at 1. rewrite received_send.
  unfold BlackjackClient.dealer_phase.
  rewrite receive_card_sent
    by (unfold RESULT_ROUND_NOT_OVER; try lia; now left).
  destruct (dealer_takes_card dealer_card2 h Hc) as [E _]. rewrite E.
  match goal with
  | |- context [BlackjackClient.dealer_loop _ _ ?w1 ?h1] =>
      destruct (dealer_loop_cards drawn w1 h1 code later Hv Hcode eq_refl)
        as (w' & Hl)
  end.
  rewrite Hl. csimpl. exists w'. cbn [map]. now rewrite <- !app_assoc.
Qed.

Lemma received_app (a b : list event) (later : list recv_event) :
  as_received (sends (a ++ b)) ++ later
  = as_received (sends a) ++ (as_received (sends b) ++ later).
Proof. now rewrite sends_app, as_received_app, <- app_assoc. Qed.

Lemma Some_inj {A} (a b : A) : Some a = Some b -> a = b.
Proof. now intros [= ->]. Qed.

Section RoundAgreement.

Variable shuffle : nat -> list card -> list card.
Hypothesis shuffle_perm : forall n l, Permutation (shuffle n l) l.

(** A round on both sides, each reading what the other sends. *)
Lemma round_agrees (fuel : nat) (g : BlackjackGame.t)
    (w : BlackjackClient.world) (later_c later_s : list recv_event)
    sres inbox' g' cres incoming' w' h ds dc :
  (17 <= fuel)%nat ->
  BlackjackGame.play_round shuffle fuel (as_received (sends dc) ++ later_c) g
  = Some (Ok (sres, inbox', g')) ->
  BlackjackClient.play_round (as_received (sends ds) ++ later_s) w
  = Ok (cres, incoming', w', h) ->
  BlackjackGame.wire g' = BlackjackGame.wire g ++ ds ->
  BlackjackClient.wire w' = BlackjackClient.wire w ++ dc ->
  exists r,
    sres = Finished (Some r) /\ cres = Finished (Some r)
    /\ inbox' = later_c /\ incoming' = later_s
    /\ in_round (S (Deck.shuffles (BlackjackGame.deck g))) g'
    /\ hands_agree h g'
    /\ ((r = s_lit "loss" /\ 21 < BlackjackGame.player_sum g'
         /\ BlackjackClient.dealer_visible_cards h
            = firstn 1 (map wire_card (BlackjackGame.dealer_cards g')))
        \/ (r = fst (BlackjackGame.determine_winner g')
            /\ BlackjackClient.dealer_visible_cards h
               = map wire_card (BlackjackGame.dealer_cards g')
            /\ BlackjackClient.dealer_sum h = BlackjackGame.dealer_sum g')).
Proof.
  intros Hf Hs Hc Hwg Hww.
  unfold BlackjackGame.play_round in Hs.
  destruct (deal_initial_round shuffle shuffle_perm g)
    as (rest & c1 & c2 & d1 & d2 & Hdeal & I & H1 & H2 & H3 & H4).
  cbv zeta in Hdeal, I. rewrite Hdeal in Hs.
  match type of I with in_round _ ?x => set (g1 := x) in * end.
  unfold BlackjackGame.play_hand in Hs.
  destruct (player_turn_trace shuffle _ (as_received (sends dc) ++ later_c)
              g1 I)
    as (e & i1 & g2 & ds2 & Ht & I2 & Hd & Hw2 & _).
  rewrite Ht in Hs.
  (* what the server adds after the player's turn *)
  assert (exists ds3, BlackjackGame.wire g' = BlackjackGame.wire g2 ++ ds3)
    as (ds3 & Hw3).
  { destruct e as [r0| |].
    - apply Some_inj, Ok_inj in Hs. injection Hs as _ _ <-.
      exists []. now rewrite app_nil_r.
    - destruct (dealer_turn_trace shuffle _ fuel d2 g2 I2 H4 Hf)
        as (drawn & g3 & Er & _ & _ & _ & _ & _ & Hw & _).
      rewrite Er in Hs. apply Some_inj, Ok_inj in Hs.
      injection Hs as _ _ <-. eexists. gsimpl. rewrite Hw.
      rewrite <- app_assoc. reflexivity.
    - apply Some_inj, Ok_inj in Hs. injection Hs as _ _ <-.
      exists []. now rewrite app_nil_r. }
  assert (ds = [sent RESULT_ROUND_NOT_OVER c1; sent RESULT_ROUND_NOT_OVER c2;
                sent RESULT_ROUND_NOT_OVER d1] ++ ds2 ++ ds3) as Eds.
  { rewrite Hw3, Hw2 in Hwg. subst g1. gsimpl.
    rewrite <- !app_assoc in Hwg. apply app_delta in Hwg. now rewrite <- Hwg. }
  (* the client gets its three cards *)
  unfold BlackjackClient.play_round in Hc.
  rewrite Eds in Hc. cbn [app] in Hc. unfold sent at 1 2 3 in Hc.
  rewrite !received_send, received_app in Hc.
  cbn [BlackjackClient.receive_cards] in Hc.
  rewrite !receive_card_sent in Hc
    by (unfold RESULT_ROUND_NOT_OVER; try lia; now left).
  cbn [BlackjackClient.receive_cards app] in Hc.
  match type of Hc with
  | context [BlackjackClient.player_loop ?inc ?x ?y] =>
      set (w3 := x) in *; set (h0 := y) in *;
      destruct (BlackjackClient.player_loop inc w3 h0)
        as [[[[ce inc1] w4] h4]|ex] eqn:Hpl; [|discriminate Hc]
  end.
  destruct (player_loop_wire _ _ _ _ _ _ _ Hpl) as (dc4 & Hw4 & _).
  assert (exists n,
             BlackjackClient.wire w'
             = BlackjackClient.wire w4 ++ repeat EvRecv n) as (n & Hw5).
  { destruct ce as [r0| |].
    - apply Ok_inj in Hc. injection Hc as _ _ <- _.
      exists 0%nat. now rewrite app_nil_r.
    - apply Ok_inj in Hc. apply dealer_phase_wire in Hc as (n & Hn & _).
      now exists n.
    - apply Ok_inj in Hc. injection Hc as _ _ <- _.
      exists 0%nat. now rewrite app_nil_r. }
  assert (sends dc = sends dc4) as Edc.
  { rewrite Hw5, Hw4 in Hww. subst w3. csimpl.
    rewrite <- !app_assoc in Hww. apply app_delta in Hww. rewrite <- Hww.
    rewrite !sends_app, sends_recvs, app_nil_r. reflexivity. }
  rewrite Edc in Ht.
  assert (hands_agree h0 g1) as A by (split; reflexivity).
  destruct (player_phase_agrees shuffle _ _ g1 w3 h0 _
              later_c (as_received (sends ds3) ++ later_s)
              _ _ _ _ _ _ _ ds2 dc4 I A Ht Hpl Hw2 Hw4 eq_refl eq_refl)
    as (R1 & R2 & R3 & R4 & R5 & R6 & R7 & R8).
  subst i1 inc1.
  destruct R8 as [(-> & ->)|(-> & -> & Hbust)].
  - (* the dealer's turn *)
    destruct (dealer_turn_trace shuffle _ fuel d2 g2 I2 H4 Hf)
      as (drawn & g3 & Er & I3 & _ & Hsum & Hcards & Hv & Hw & Hpc & Hps).
    rewrite Er in Hs. apply Some_inj, Ok_inj in Hs.
    injection Hs as <- <- <-.
    gsimpl. rewrite Hw, <- app_assoc in Hw3. apply app_delta in Hw3.
    subst ds3. cbn [app] in Hc.
    pose proof (determine_winner_code g3) as Hcode.
    destruct (dealer_phase_cards d2 drawn w4 h4 _ later_s H4 Hv Hcode)
      as (w5 & Hph).
    rewrite Hph in Hc. apply Ok_inj in Hc. injection Hc as <- <- _ <-.
    exists (fst (BlackjackGame.determine_winner g3)).
    rewrite winner_name.
    repeat (split; [assumption || reflexivity|]).
    split.
    { destruct R4 as [Ac As]. split; csimpl; gsimpl; congruence. }
    right. split; [reflexivity|]. csimpl. gsimpl.
    rewrite R5, Hcards, R7. subst h0 g1. csimpl. gsimpl.
    rewrite Hsum, Hcards, R7. gsimpl.
    split; [reflexivity|]. apply (card_sum_wire ([d1; d2] ++ drawn)).
  - apply Some_inj, Ok_inj in Hs. injection Hs as <- <- <-.
    apply app_delta_nil in Hw3. subst ds3. rewrite received_none in Hc.
    apply Ok_inj in Hc. injection Hc as <- <- _ <-.
    exists (s_lit "loss").
    split; [reflexivity|]. split; [reflexivity|].
    split; [reflexivity|]. split; [reflexivity|].
    split; [exact R3|]. split; [exact R4|].
    left. split; [reflexivity|]. split; [exact Hbust|].
    rewrite R5, R7. reflexivity.
Qed.

End RoundAgreement.

(** The client's loop does not raise. *)
Lemma player_loop_ok (incoming : list recv_event) :
  forall (w : BlackjackClient.world) (h : BlackjackClient.hands),
  exists r, BlackjackClient.player_loop incoming w h = Ok r.
Proof.
  induction incoming as [|ev rest IH]; intros w h;
    destruct (Z_lt_ge_dec (BlackjackClient.player_sum h) 21) as [Hlt|Hge];
    try (rewrite player_loop_done by lia; now eexists).
  - destruct (player_loop_step [] w h Hlt) as (a & lines & _ & _ & ->).
    now eexists.
  - destruct (player_loop_step (ev :: rest) w h Hlt)
      as (a & lines & _ & _ & ->).
    cbv zeta. destruct (pystr_eqb a (s_lit "stand")); [now eexists|].
    destruct (BlackjackClient.receive_card ev) as [[[result rank] suit]|];
      [|now eexists].
    destruct (result =? RESULT_LOSS); [now eexists|].
    destruct (result =? RESULT_WIN); [now eexists|].
    destruct (result =? RESULT_TIE); [now eexists|].
    apply IH.
Qed.

Lemma receive_cards_wire (n : nat) :
  forall (incoming : list recv_event) (w : BlackjackClient.world)
         (cards : list BlackjackClient.card) e incoming' w' cards',
    BlackjackClient.receive_cards n incoming w cards
    = (e, incoming', w', cards') ->
    exists k, BlackjackClient.wire w'
              = BlackjackClient.wire w ++ repeat EvRecv k.
Proof.
  induction n as [|n IH]; intros incoming w cards e incoming' w' cards';
    cbn [BlackjackClient.receive_cards].
  { intros [= _ _ <- _]. exists 0%nat. now rewrite app_nil_r. }
  destruct incoming as [|ev rest].
  { intros [= _ _ <- _]. exists 0%nat. now rewrite app_nil_r. }
  destruct (BlackjackClient.receive_card ev) as [[[result rank] suit]|].
  - intros H. apply IH in H as (k & Hw). exists (S k). rewrite Hw. csimpl.
    now rewrite <- app_assoc.
  - intros [= _ _ <- _]. now exists 1%nat.
Qed.

(** A round of the client: it does not raise, and it adds to the wire. *)
Lemma client_round_wire (incoming : list recv_event)
    (w : BlackjackClient.world) :
  exists e incoming' w' h dc,
    BlackjackClient.play_round incoming w = Ok (e, incoming', w', h)
    /\ BlackjackClient.wire w' = BlackjackClient.wire w ++ dc.
Proof.
  unfold BlackjackClient.play_round.
  destruct (BlackjackClient.receive_cards 2 incoming w [])
    as [[[e1 i1] w1] p1] eqn:E1.
  apply receive_cards_wire in E1 as (k1 & Hw1).
  destruct e1 as [r| |]; try (eexists _, _, _, _, _; split; [reflexivity|eassumption]).
  destruct (BlackjackClient.receive_cards 1 i1 w1 [])
    as [[[e2 i2] w2] p2] eqn:E2.
  apply receive_cards_wire in E2 as (k2 & Hw2).
  rewrite Hw1 in Hw2. rewrite <- app_assoc in Hw2.
  destruct e2 as [r| |]; try (eexists _, _, _, _, _; split; [reflexivity|eassumption]).
  match goal with
  | |- context [BlackjackClient.player_loop i2 w2 ?h0] =>
      destruct (player_loop_ok i2 w2 h0) as ([[[e3 i3] w3] h3] & E3);
      rewrite E3; apply player_loop_wire in E3 as (dc3 & Hw3 & _)
  end.
  rewrite Hw2 in Hw3. rewrite <- app_assoc in Hw3.
  destruct e3 as [r| |]; try (eexists _, _, _, _, _; split; [reflexivity|eassumption]).
  destruct (BlackjackClient.dealer_phase i3 w3 h3)
    as [[[e4 i4] w4] h4] eqn:E4.
  apply dealer_phase_wire in E4 as (k4 & Hw4 & _).
  rewrite Hw3 in Hw4. rewrite <- app_assoc in Hw4.
  eexists _, _, _, _, _. split; [reflexivity|eassumption].
Qed.

Lemma client_rounds_wire (rounds : list Z) :
  forall wins losses ties (incoming : list recv_event)
         (w : BlackjackClient.world) e incoming' w',
    BlackjackClient.play_rounds rounds wins losses ties incoming w
    = (e, incoming', w') ->
    exists dc, BlackjackClient.wire w' = BlackjackClient.wire w ++ dc.
Proof.
  induction rounds as [|n rounds IH];
    intros wins losses ties incoming w e incoming' w';
    cbn [BlackjackClient.play_rounds].
  { intros [= _ _ <-]. exists []. now rewrite app_nil_r. }
  destruct (client_round_wire incoming w)
    as (e1 & i1 & w1 & h1 & dc1 & -> & Hw1).
  destruct e1 as [[result|]|];
    try (intros [= _ _ <-]; now exists dc1).
  destruct (pystr_eqb result (s_lit "win"));
    [|destruct (pystr_eqb result (s_lit "loss"))];
    intros H; apply IH in H as (dc & Hw); exists (dc1 ++ dc);
    now rewrite Hw, Hw1, app_assoc.
Qed.

Section RoundsAgreement.

Variable shuffle : nat -> list card -> list card.
Hypothesis shuffle_perm : forall n l, Permutation (shuffle n l) l.

(** The rounds of a game on both sides, each reading what the other
    sends: all of them are played, and what the client counts as won the
    server counts as lost by the dealer. *)
Lemma rounds_agree (fuel : nat) (rounds : list Z) :
  (17 <= fuel)%nat ->
  forall wins losses ties (g : BlackjackGame.t) (w : BlackjackClient.world)
         (later_c later_s : list recv_event) e s' inbox' g'
         ce incoming' w' ds dc,
    BlackjackGame.run_rounds shuffle fuel rounds (losses, wins, ties)
      (as_received (sends dc) ++ later_c) g
    = Some (Ok (e, s', inbox', g')) ->
    BlackjackClient.play_rounds rounds wins losses ties
      (as_received (sends ds) ++ later_s) w
    = (ce, incoming', w') ->
    BlackjackGame.wire g' = BlackjackGame.wire g ++ ds ->
    BlackjackClient.wire w' = BlackjackClient.wire w ++ dc ->
    exists wins' losses' ties',
      e = BlackjackGame.RunDone
      /\ ce = BlackjackClient.GameOver true wins' losses' ties'
      /\ s' = (losses', wins', ties')
      /\ inbox' = later_c /\ incoming' = later_s
      /\ wins <= wins' /\ losses <= losses' /\ ties <= ties'
      /\ wins' + losses' + ties'
         = wins + losses + ties + Z.of_nat (length rounds)
      /\ Deck.shuffles (BlackjackGame.deck g')
         = (Deck.shuffles (BlackjackGame.deck g) + length rounds)%nat.
Proof.
  intros Hf. induction rounds as [|n rounds IH];
    intros wins losses ties g w later_c later_s e s' inbox' g'
           ce incoming' w' ds dc Hs Hc Hwg Hww.
  - cbn [BlackjackGame.run_rounds] in Hs.
    cbn [BlackjackClient.play_rounds] in Hc.
    apply Some_inj, Ok_inj in Hs. injection Hs as <- <- <- <-.
    injection Hc as <- <- <-.
    apply app_delta_nil in Hwg, Hww. subst ds dc.
    exists wins, losses, ties. rewrite !received_none. cbn [length].
    repeat (split; [reflexivity || lia|]). lia.
  - cbn [BlackjackGame.run_rounds] in Hs.
    cbn [BlackjackClient.play_rounds] in Hc.
    destruct (play_round_trace shuffle shuffle_perm fuel
                (as_received (sends dc) ++ later_c) g Hf)
      as (e1 & i1 & g1 & ds1 & Hr & (_ & K & _) & Hw1 & _).
    rewrite Hr in Hs.
    destruct (client_round_wire (as_received (sends ds) ++ later_s) w)
      as (c1 & inc1 & w1 & h1 & dc1 & Hcr & Hv1).
    rewrite Hcr in Hc.
    (* what each side adds after the round *)
    assert (exists ds2,
               BlackjackGame.wire g' = BlackjackGame.wire g1 ++ ds2)
      as (ds2 & Hw2).
    { destruct e1 as [[result|]|].
      - destruct (run_rounds_trace shuffle shuffle_perm fuel rounds Hf
                    (BlackjackGame.count_result result (losses, wins, ties))
                    i1 g1)
          as (e2 & s2 & i2 & g2 & ds2 & H2 & _ & Hw & _).
        rewrite H2 in Hs. apply Some_inj, Ok_inj in Hs.
        injection Hs as _ _ _ <-. now exists ds2.
      - apply Some_inj, Ok_inj in Hs. injection Hs as _ _ _ <-.
        exists []. now rewrite app_nil_r.
      - apply Some_inj, Ok_inj in Hs. injection Hs as _ _ _ <-.
        exists []. now rewrite app_nil_r. }
    assert (exists dc2,
               BlackjackClient.wire w' = BlackjackClient.wire w1 ++ dc2)
      as (dc2 & Hv2).
    { destruct c1 as [[result|]|];
        try (injection Hc as _ _ <-; exists []; now rewrite app_nil_r).
      destruct (pystr_eqb result (s_lit "win"));
        [|destruct (pystr_eqb result (s_lit "loss"))];
        now apply client_rounds_wire in Hc. }
    assert (ds = ds1 ++ ds2) as ->.
    { rewrite Hw2, Hw1, <- app_assoc in Hwg. now apply app_delta in Hwg. }
    assert (dc = dc1 ++ dc2) as ->.
    { rewrite Hv2, Hv1, <- app_assoc in Hww. now apply app_delta in Hww. }
    rewrite received_app in Hr, Hcr.
    destruct (round_agrees shuffle shuffle_perm fuel g w _ _ _ _ _ _ _ _ _
                ds1 dc1 Hf Hr Hcr Hw1 Hv1)
      as (r & -> & -> & -> & -> & _).
    assert (exists wins1 losses1 ties1,
               BlackjackGame.count_result r (losses, wins, ties)
               = (losses1, wins1, ties1)
               /\ BlackjackClient.play_rounds rounds wins1 losses1 ties1
                    (as_received (sends ds2) ++ later_s) w1
                  = (ce, incoming', w')
               /\ wins <= wins1 /\ losses <= losses1 /\ ties <= ties1
               /\ wins1 + losses1 + ties1 = wins + losses + ties + 1)
      as (wins1 & losses1 & ties1 & Ecount & Hc1 & L1 & L2 & L3 & L4).
    { unfold BlackjackGame.count_result.
      destruct (pystr_eqb r (s_lit "win"));
        [|destruct (pystr_eqb r (s_lit "loss"))];
        eexists _, _, _; (split; [reflexivity|]);
        (split; [exact Hc|]); lia. }
    rewrite Ecount in Hs.
    destruct (IH wins1 losses1 ties1 g1 w1 later_c later_s _ _ _ _ _ _ _
                ds2 dc2 Hs Hc1 Hw2 Hv2)
      as (wins' & losses' & ties' & R1 & R2 & R3 & R4 & R5 & R6 & R7 & R8
          & R9 & R10).
    exists wins', losses', ties'. rewrite R10, K. cbn [length].
    repeat (split; [assumption || lia|]). lia.
Qed.

End RoundsAgreement.

Section Agreement.

Variable shuffle : nat -> list card -> list card.
Hypothesis shuffle_perm : forall n l, Permutation (shuffle n l) l.

(** X13. Client and server agree on a round.  Let the server's
    [play_round] run on what the client sends in the round, one payload for
    each [recv], and the client's [play_round] on what the server sends,
    and let both return.  Then the round was played to its end on both
    sides with the same result; nothing sent was left unread; the client
    holds the player's hand of the server with the same total; and either
    the player went over 21, the result is a loss and the client has seen
    the dealer's first card only, or the result is the one the two totals
    give and the client holds the dealer's hand with the same total. *)
Theorem round_agreement (fuel : nat) (g : BlackjackGame.t)
    (w : BlackjackClient.world) sres inbox' g' cres incoming' w' h :
  (17 <= fuel)%nat ->
  BlackjackGame.play_round shuffle fuel
    (as_received
       (sends (added (BlackjackClient.wire w) (BlackjackClient.wire w')))) g
  = Some (Ok (sres, inbox', g')) ->
  BlackjackClient.play_round
    (as_received
       (sends (added (BlackjackGame.wire g) (BlackjackGame.wire g')))) w
  = Ok (cres, incoming', w', h) ->
  exists r,
    sres = Finished (Some r) /\ cres = Finished (Some r)
    /\ inbox' = [] /\ incoming' = []
    /\ BlackjackClient.player_cards h
       = map wire_card (BlackjackGame.player_cards g')
    /\ BlackjackClient.player_sum h = BlackjackGame.player_sum g'
    /\ ((r = s_lit "loss" /\ 21 < BlackjackGame.player_sum g'
         /\ BlackjackClient.dealer_visible_cards h
            = firstn 1 (map wire_card (BlackjackGame.dealer_cards g')))
        \/ (r = fst (BlackjackGame.determine_winner g')
            /\ BlackjackClient.dealer_visible_cards h
               = map wire_card (BlackjackGame.dealer_cards g')
            /\ BlackjackClient.dealer_sum h = BlackjackGame.dealer_sum g')).
Proof.
  intros Hf Hs Hc.
  destruct (play_round_trace shuffle shuffle_perm fuel
              (as_received
                 (sends (added (BlackjackClient.wire w)
                           (BlackjackClient.wire w')))) g Hf)
    as (e1 & i1 & g1 & ds & Hr & _ & Hw & _).
  rewrite Hr in Hs. apply Some_inj, Ok_inj in Hs. injection Hs as -> -> ->.
  destruct (client_round_wire
              (as_received
                 (sends (added (BlackjackGame.wire g)
                           (BlackjackGame.wire g')))) w)
    as (c1 & inc1 & w1 & h1 & dc & Hcr & Hv).
  rewrite Hcr in Hc. apply Ok_inj in Hc. injection Hc as -> -> -> ->.
  rewrite Hv, added_app in Hr. rewrite Hw, added_app in Hcr.
  rewrite <- (app_nil_r (as_received (sends dc))) in Hr.
  rewrite <- (app_nil_r (as_received (sends ds))) in Hcr.
  destruct (round_agrees shuffle shuffle_perm fuel g w [] [] _ _ _ _ _ _ _
              ds dc Hf Hr Hcr Hw Hv)
    as (r & R1 & R2 & R3 & R4 & _ & [R5 R6] & R7).
  exists r. now repeat split.
Qed.

(** X14. Client and server agree on a game.  Let [handle_client] run on
    what [play_game] sends, one message for each [recv], and [play_game] on
    what the server sends.  If the request cannot be encoded the client
    gives up and the server has seen nothing.  Otherwise the request
    decodes to the number of rounds asked for, all the rounds are played,
    [play_game] returns [True], the client's wins are the dealer's losses
    and the other way round, the ties are the same, the counts add up to
    the number of rounds, and nothing sent is left unread. *)
Theorem game_agreement (fuel : nat) (team_name : pystr) (num_rounds : Z)
    (lines : list pystr) se inbox' ws ce incoming' w' :
  (17 <= fuel)%nat ->
  BlackjackServer.handle_client shuffle fuel
    (as_received (sends (BlackjackClient.wire w')))
  = Some (Ok (se, inbox', ws)) ->
  BlackjackClient.play_game team_name num_rounds (as_received (sends ws))
    (BlackjackClient.mk_world lines [])
  = (ce, incoming', w') ->
  (exists e,
     pack_request num_rounds team_name = Raise e
     /\ ce = BlackjackClient.GameOver false 0 0 0
     /\ se = AwaitRequest
     /\ ws = [] /\ BlackjackClient.wire w' = [])
  \/ (exists request client_name wins losses ties,
        pack_request num_rounds team_name = Ok request
        /\ unpack_request request = Ok (Some (num_rounds, client_name))
        /\ se = Played BlackjackGame.RunDone (losses, wins, ties)
        /\ ce = BlackjackClient.GameOver true wins losses ties
        /\ 0 <= wins /\ 0 <= losses /\ 0 <= ties
        /\ wins + losses + ties = num_rounds
        /\ inbox' = [] /\ incoming' = []).
Proof.
  intros Hf Hs Hc. unfold BlackjackClient.play_game in Hc.
  destruct (pack_request num_rounds team_name) as [request|e] eqn:Ep.
  - right.
    destruct (pack_request_bytes _ _ _ Ep) as (_ & _ & Hn & _).
    destruct (unpack_request_pack _ _ _ [] Ep) as (p & _ & Hl & Hu).
    rewrite app_nil_r in Hu.
    destruct (client_rounds_wire _ _ _ _ _ _ _ _ _ Hc) as (dc & Hv).
    csimpl. cbn [app] in Hv. rewrite Hv in Hs.
    change (as_received (sends (EvSend request :: dc)))
      with (RecvData request :: as_received (sends dc)) in Hs.
    unfold BlackjackServer.handle_client in Hs.
    destruct request as [|x request]; [discriminate Hl|].
    rewrite Hu in Hs. unfold BlackjackGame.run in Hs.
    destruct (run_rounds_trace shuffle shuffle_perm fuel
                (py_range 1 (num_rounds + 1)) Hf (0, 0, 0)
                (as_received (sends dc))
                (BlackjackGame.log EvRecv (BlackjackGame.init shuffle)))
      as (e1 & s1 & i1 & g1 & ds & Hr & _ & Hw & _).
    rewrite Hr in Hs. apply Some_inj, Ok_inj in Hs.
    injection Hs as <- <- <-.
    rewrite Hw in Hc. cbn [BlackjackGame.wire BlackjackGame.log
                           BlackjackGame.init app] in Hc.
    change (as_received (sends (EvRecv :: ds)))
      with (as_received (sends ds)) in Hc.
    rewrite <- (app_nil_r (as_received (sends dc))) in Hr.
    rewrite <- (app_nil_r (as_received (sends ds))) in Hc.
    destruct (rounds_agree shuffle shuffle_perm fuel _ Hf 0 0 0 _ _ [] []
                _ _ _ _ _ _ _ ds dc Hr Hc Hw Hv)
      as (wins & losses & ties & -> & -> & -> & -> & -> & L1 & L2 & L3
          & L4 & _).
    rewrite py_range_length in L4.
    exists (x :: request), (unpad_name p), wins, losses, ties.
    repeat (split; [assumption || reflexivity || lia|]). reflexivity.
  - left. injection Hc as <- <- <-. exists e.
    cbn in Hs. injection Hs as <- <- <-. now repeat split.
Qed.

End Agreement.


(* ================================================================== *)
(** * The client alone *)

(** X15. The player's decision.  Lines that are not a choice are skipped.
    The first line that reads h or hit, in any case and with white space
    around it, decides for hit, the first that reads s or stand for stand,
    and the lines after it are left for the next decision.  When the input
    ends before a choice the total decides: stand at 17 or more, hit below.
    The decision is always hit or stand, so the payload sent carries
    [Hittt] or [Stand]. *)
Theorem first_choice_decides (player_sum : Z) (skipped : list pystr) :
  Forall (fun line => says_hit line = false /\ says_stand line = false)
    skipped ->
  (forall line rest,
     says_hit line = true ->
     BlackjackClient.get_player_decision player_sum (skipped ++ line :: rest)
     = (s_lit "hit", rest))
  /\ (forall line rest,
        says_hit line = false -> says_stand line = true ->
        BlackjackClient.get_player_decision player_sum
          (skipped ++ line :: rest)
        = (s_lit "stand", rest))
  /\ BlackjackClient.get_player_decision player_sum skipped
     = (if player_sum >=? 17 then s_lit "stand" else s_lit "hit", [])
  /\ (forall lines,
        let a := fst (BlackjackClient.get_player_decision player_sum lines) in
        (a = s_lit "hit"
         /\ pack_client_payload a = Ok (payload_header ++ ACTION_HIT))
        \/ (a = s_lit "stand"
            /\ pack_client_payload a = Ok (payload_header ++ ACTION_STAND))).
Proof.
  intros Hs. repeat apply conj.
  - intros line rest Hh. induction Hs as [|l skipped [H1 H2] _ IH];
      cbn [app BlackjackClient.get_player_decision].
    + fold (says_hit line). now rewrite Hh.
    + fold (says_hit l) (says_stand l). now rewrite H1, H2.
  - intros line rest Hh Hst. induction Hs as [|l skipped [H1 H2] _ IH];
      cbn [app BlackjackClient.get_player_decision].
    + fold (says_hit line) (says_stand line). now rewrite Hh, Hst.
    + fold (says_hit l) (says_stand l). now rewrite H1, H2.
  - induction Hs as [|l skipped [H1 H2] _ IH];
      cbn [BlackjackClient.get_player_decision]; [reflexivity|].
    fold (says_hit l) (says_stand l). now rewrite H1, H2.
  - intros lines. cbv zeta.
    destruct (decision_cases player_sum lines) as (a & lines' & -> & [-> | ->]);
      cbn [fst]; [left|right]; (split; [reflexivity|vm_compute; reflexivity]).
Qed.





Lemma rest_of_refl {A} (l : list A) : rest_of l l.
Proof. now exists []. Qed.

Lemma rest_of_cons {A} (x : A) (l l' : list A) :
  rest_of l l' -> rest_of (x :: l) l'.
Proof. intros [u ->]. now exists (x :: u). Qed.

Lemma rest_of_trans {A} (a b c : list A) :
  rest_of a b -> rest_of b c -> rest_of a c.
Proof. intros [u ->] [v ->]. exists (u ++ v). now rewrite app_assoc. Qed.

Lemma decision_rest (player_sum : Z) (lines : list pystr) :
  rest_of lines
    (snd (BlackjackClient.get_player_decision player_sum lines)).
Proof.
  induction lines as [|line rest IH];
    cbn [BlackjackClient.get_player_decision].
  - destruct (player_sum >=? 17); apply rest_of_refl.
  - destruct (str_in _ _); [apply rest_of_cons, rest_of_refl|].
    destruct (str_in _ _); [apply rest_of_cons, rest_of_refl|].
    now apply rest_of_cons.
Qed.

Lemma action_payload_message (a : pystr) :
  a = s_lit "hit" \/ a = s_lit "stand" -> action_message (action_payload a).
Proof. intros [-> | ->]; [left|right]; vm_compute; reflexivity. Qed.

(** What the client's loop does on the socket and with its input. *)
Lemma player_loop_sends (incoming : list recv_event) :
  forall (w : BlackjackClient.world) (h : BlackjackClient.hands)
         ce incoming' w' h',
    BlackjackClient.player_loop incoming w h = Ok (ce, incoming', w', h') ->
    exists dc,
      BlackjackClient.wire w' = BlackjackClient.wire w ++ dc
      /\ Forall action_message (sends dc)
      /\ rest_of incoming incoming'
      /\ rest_of (BlackjackClient.stdin w) (BlackjackClient.stdin w')
      /\ (ce = ClientAwait -> incoming' = []).
Proof.
  induction incoming as [|ev rest IH]; intros w h ce incoming' w' h' H;
    destruct (Z_lt_ge_dec (BlackjackClient.player_sum h) 21) as [Hlt|Hge];
    try (rewrite player_loop_done in H by lia; apply Ok_inj in H;
         injection H as <- <- <- _; exists []; rewrite app_nil_r;
         repeat split; try apply rest_of_refl; try discriminate;
         constructor).
  - destruct (player_loop_step [] w h Hlt) as (a & lines & E & Ha & Hs).
    rewrite Hs in H. cbv zeta in H. apply Ok_inj in H.
    injection H as _ <- <- _. exists [EvSend (action_payload a)].
    pose proof (decision_rest (BlackjackClient.player_sum h)
                  (BlackjackClient.stdin w)) as Hr.
    rewrite E in Hr. csimpl.
    repeat split; try apply rest_of_refl; try assumption.
    constructor; [now apply action_payload_message|constructor].
  - destruct (player_loop_step (ev :: rest) w h Hlt)
      as (a & lines & E & Ha & Hs).
    rewrite Hs in H. cbv zeta in H. clear Hs.
    pose proof (decision_rest (BlackjackClient.player_sum h)
                  (BlackjackClient.stdin w)) as Hr.
    rewrite E in Hr. cbn [snd] in Hr.
    pose proof (action_payload_message a Ha) as Hm.
    assert (forall dc1 inc,
              BlackjackClient.wire w'
              = BlackjackClient.wire w
                ++ EvSend (action_payload a) :: EvRecv :: dc1 ->
              Forall action_message (sends dc1) ->
              rest_of rest inc ->
              rest_of lines (BlackjackClient.stdin w') ->
              (ce = ClientAwait -> inc = []) ->
              exists dc,
                BlackjackClient.wire w' = BlackjackClient.wire w ++ dc
                /\ Forall action_message (sends dc)
                /\ rest_of (ev :: rest) inc
                /\ rest_of (BlackjackClient.stdin w)
                     (BlackjackClient.stdin w')
                /\ (ce = ClientAwait -> inc = [])) as Done.
    { intros dc1 inc Hw Hf Hi Hl Hq. eexists. split; [exact Hw|].
      split; [now constructor|]. split; [now apply rest_of_cons|].
      split; [eapply rest_of_trans; eassumption|exact Hq]. }
    assert (forall r inc1 h1,
              r <> ClientAwait ->
              Ok (r, rest, BlackjackClient.log EvRecv
                             (BlackjackClient.log
                                (EvSend (action_payload a))
                                (BlackjackClient.mk_world lines
                                   (BlackjackClient.wire w))), h1)
              = Ok (ce, inc1, w', h') ->
              exists dc,
                BlackjackClient.wire w' = BlackjackClient.wire w ++ dc
                /\ Forall action_message (sends dc)
                /\ rest_of (ev :: rest) inc1
                /\ rest_of (BlackjackClient.stdin w)
                     (BlackjackClient.stdin w')
                /\ (ce = ClientAwait -> inc1 = [])) as Stop.
    { intros r inc1 h1 Hr' Hq. apply Ok_inj in Hq.
      injection Hq as <- <- <- _.
      apply (Done []); csimpl; try apply rest_of_refl;
        [now rewrite <- !app_assoc|constructor|].
      intros Hq. now destruct Hr'. }
    destruct (pystr_eqb a (s_lit "stand"));
      [now apply Stop in H|].
    destruct (BlackjackClient.receive_card ev) as [[[result rank] suit]|];
      [|now apply Stop in H].
    destruct (result =? RESULT_LOSS); [now apply Stop in H|].
    destruct (result =? RESULT_WIN); [now apply Stop in H|].
    destruct (result =? RESULT_TIE); [now apply Stop in H|].
    destruct (IH _ _ _ _ _ _ H) as (dc & Hw & Hf & Hi & Hl & Hq).
    apply (Done dc); try assumption. rewrite Hw. csimpl.
    now rewrite <- !app_assoc.
Qed.

Lemma receive_cards_rest (n : nat) :
  forall (incoming : list recv_event) (w : BlackjackClient.world)
         (cards : list BlackjackClient.card) e incoming' w' cards',
    BlackjackClient.receive_cards n incoming w cards
    = (e, incoming', w', cards') ->
    rest_of incoming incoming'
    /\ BlackjackClient.stdin w' = BlackjackClient.stdin w
    /\ (e = ClientAwait -> incoming' = []).
Proof.
  induction n as [|n IH]; intros incoming w cards e incoming' w' cards';
    cbn [BlackjackClient.receive_cards].
  { intros [= <- <- <- _]. repeat split; [apply rest_of_refl|discriminate]. }
  destruct incoming as [|ev rest].
  { intros [= <- <- <- _]. repeat split. apply rest_of_refl. }
  destruct (BlackjackClient.receive_card ev) as [[[result rank] suit]|].
  - intros H. apply IH in H as (Hi & Hl & Hq).
    split; [now apply rest_of_cons|]. now split.
  - intros [= <- <- <- _].
    repeat split; [apply rest_of_cons, rest_of_refl|discriminate].
Qed.

Lemma dealer_loop_rest (incoming : list recv_event) :
  forall (result : Z) (w : BlackjackClient.world) (h : BlackjackClient.hands)
         e incoming' w' h',
    BlackjackClient.dealer_loop result incoming w h = (e, incoming', w', h') ->
    rest_of incoming incoming' /\ (e = Waiting -> incoming' = []).
Proof.
  induction incoming as [|ev rest IH]; intros result w h e incoming' w' h';
    cbn [BlackjackClient.dealer_loop];
    destruct (result =? RESULT_ROUND_NOT_OVER);
    try (intros [= <- <- _ _];
         split; [apply rest_of_refl|discriminate || reflexivity]).
  destruct (BlackjackClient.receive_card ev) as [[[result' rank] suit]|].
  - intros H. apply IH in H as (Hi & Hq). split; [now apply rest_of_cons|].
    exact Hq.
  - intros [= <- <- _ _].
    split; [apply rest_of_cons, rest_of_refl|discriminate].
Qed.

Lemma dealer_phase_rest (incoming : list recv_event)
    (w : BlackjackClient.world) (h : BlackjackClient.hands)
    e incoming' w' h' :
  BlackjackClient.dealer_phase incoming w h = (e, incoming', w', h') ->
  rest_of incoming incoming' /\ (e = Waiting -> incoming' = []).
Proof.
  unfold BlackjackClient.dealer_phase. destruct incoming as [|ev rest].
  { intros [= <- <- _ _]. split; [apply rest_of_refl|reflexivity]. }
  destruct (BlackjackClient.receive_card ev) as [[[result rank] suit]|].
  - intros H. apply dealer_loop_rest in H as (Hi & Hq).
    split; [now apply rest_of_cons|exact Hq].
  - intros [= <- <- _ _].
    split; [apply rest_of_cons, rest_of_refl|discriminate].
Qed.

(** X17. The client's round is safe on any input.  Whatever [recv] yields,
    [play_round] does not raise; what it sends is payloads of hit or stand
    and nothing else; it reads the input and the lines of the player in
    order; and it is left waiting only when no input is left. *)
Theorem client_round_is_safe (incoming : list recv_event)
    (w : BlackjackClient.world) :
  exists e incoming' w' h,
    BlackjackClient.play_round incoming w = Ok (e, incoming', w', h)
    /\ Forall action_message
         (sends (added (BlackjackClient.wire w) (BlackjackClient.wire w')))
    /\ rest_of incoming incoming'
    /\ rest_of (BlackjackClient.stdin w) (BlackjackClient.stdin w')
    /\ (e = Waiting -> incoming' = []).
Proof.
  unfold BlackjackClient.play_round.
  destruct (BlackjackClient.receive_cards 2 incoming w [])
    as [[[e1 i1] w1] p1] eqn:E1.
  destruct (receive_cards_wire _ _ _ _ _ _ _ _ E1) as (k1 & Hw1).
  destruct (receive_cards_rest _ _ _ _ _ _ _ _ E1) as (Hi1 & Hl1 & Hq1).
  assert (forall k, Forall action_message (sends (repeat EvRecv k))) as Hk
    by (intros k; rewrite sends_recvs; constructor).
  destruct e1 as [r| |];
    try (eexists _, _, _, _; split; [reflexivity|];
         rewrite Hw1, added_app, Hl1;
         repeat split; try apply rest_of_refl; try assumption;
         try discriminate; now auto).
  destruct (BlackjackClient.receive_cards 1 i1 w1 [])
    as [[[e2 i2] w2] p2] eqn:E2.
  destruct (receive_cards_wire _ _ _ _ _ _ _ _ E2) as (k2 & Hw2).
  destruct (receive_cards_rest _ _ _ _ _ _ _ _ E2) as (Hi2 & Hl2 & Hq2).
  rewrite Hw1, <- app_assoc, <- repeat_app in Hw2. rewrite Hl1 in Hl2.
  pose proof (rest_of_trans _ _ _ Hi1 Hi2) as Hi12.
  destruct e2 as [r| |];
    try (eexists _, _, _, _; split; [reflexivity|];
         rewrite Hw2, added_app, Hl2;
         repeat split; try apply rest_of_refl; try assumption;
         try discriminate; now auto).
  match goal with
  | |- context [BlackjackClient.player_loop i2 w2 ?h0] =>
      destruct (player_loop_ok i2 w2 h0) as ([[[e3 i3] w3] h3] & E3);
      rewrite E3;
      apply player_loop_sends in E3 as (dc3 & Hw3 & Hf3 & Hi3 & Hl3 & Hq3)
  end.
  rewrite Hw2, <- app_assoc in Hw3. rewrite Hl2 in Hl3.
  pose proof (rest_of_trans _ _ _ Hi12 Hi3) as Hi123.
  assert (Forall action_message (sends (repeat EvRecv (k1 + k2) ++ dc3)))
    as Hf by (now rewrite sends_app, sends_recvs).
  destruct e3 as [r| |];
    try (eexists _, _, _, _; split; [reflexivity|];
         rewrite Hw3, added_app;
         repeat split; try assumption; try discriminate; now auto).
  destruct (BlackjackClient.dealer_phase i3 w3 h3)
    as [[[e4 i4] w4] h4] eqn:E4.
  destruct (dealer_phase_wire _ _ _ _ _ _ _ E4) as (k4 & Hw4 & Hl4).
  destruct (dealer_phase_rest _ _ _ _ _ _ _ E4) as (Hi4 & Hq4).
  rewrite Hw3, <- !app_assoc in Hw4. rewrite <- Hl4 in Hl3.
  eexists _, _, _, _. split; [reflexivity|].
  rewrite Hw4, added_app.
  split; [now rewrite !sends_app, !sends_recvs, app_nil_r|].
  split; [eapply rest_of_trans; eassumption|]. now split.
Qed.

Section Menu.

Variable int : pystr -> res Z.

Lemma ask_rounds_range (lines : list pystr) (n : Z) (rest : list pystr) :
  ClientMenu.ask_rounds int lines = Ok (Some n, rest) -> 1 <= n <= 255.
Proof.
  induction lines as [|line lines IH]; cbn [ClientMenu.ask_rounds];
    [discriminate|].
  cbv zeta.
  destruct (if pystr_eqb (strip line) [] then Ok 3 else int (strip line))
    as [v|[]]; try discriminate; try exact IH.
  destruct ((1 <=? v) && (v <=? 255)) eqn:E; [|exact IH].
  intros H. apply Ok_inj in H. injection H as <- _.
  apply andb_prop in E as [E1 E2]. lia.
Qed.

(** X18. The number of rounds the client asks for fits the request.  The
    first loop of [run] yields a number from 1 to 255, and the menu yields
    quit with 0 or play with a number from 1 to 255, whatever [int] makes
    of the lines.  A request for such a number and a name that can be
    encoded is packed into 38 bytes, which decode to the same number. *)
Theorem requested_rounds_fit (lines : list pystr) :
  (forall n rest,
     ClientMenu.initial_rounds int lines = Ok (n, rest) -> 1 <= n <= 255)
  /\ (forall choice n rest,
        ClientMenu.get_menu_choice int lines = Ok (choice, n, rest) ->
        (choice = s_lit "quit" /\ n = 0)
        \/ (choice = s_lit "play" /\ 1 <= n <= 255))
  /\ (forall n team_name,
        1 <= n <= 255 -> forallb has_utf8 team_name = true ->
        exists request,
          pack_request n team_name = Ok request
          /\ length request = REQUEST_SIZE
          /\ exists client_name,
               unpack_request request = Ok (Some (n, client_name))).
Proof.
  repeat apply conj.
  - induction lines as [|line lines IH]; intros n rest;
      cbn [ClientMenu.initial_rounds].
    + intros H. apply Ok_inj in H. injection H as <- _. lia.
    + destruct (int line) as [v|[]]; try discriminate; try apply IH.
      destruct ((1 <=? v) && (v <=? 255)) eqn:E; [|apply IH].
      intros H. apply Ok_inj in H. injection H as <- _.
      apply andb_prop in E as [E1 E2]. lia.
  - induction lines as [|line lines IH]; intros choice n rest;
      cbn [ClientMenu.get_menu_choice].
    + intros H. apply Ok_inj in H. injection H as <- <- _. now left.
    + cbv zeta. destruct (str_in _ _).
      { intros H. apply Ok_inj in H. injection H as <- <- _. now left. }
      destruct (str_in _ _); [|apply IH].
      destruct (ClientMenu.ask_rounds int lines) as [[[v|] r]|e] eqn:E;
        [| |discriminate].
      * intros H. apply Ok_inj in H. injection H as <- <- _. right.
        split; [reflexivity|]. exact (ask_rounds_range _ _ _ E).
      * intros H. apply Ok_inj in H. injection H as <- <- _. now left.
  - intros n team_name Hn Hu.
    destruct (utf8_encode_ok team_name) as [U _].
    destruct (U Hu) as [enc He].
    assert (exists p, pad_name team_name = Ok p) as [p Hp]
      by (unfold pad_name; rewrite He; now eexists).
    destruct (pack_request_ok n team_name p ltac:(lia) Hp) as [b Hb].
    destruct (unpack_request_pack _ _ _ [] Hb) as (p' & _ & L & Hd).
    rewrite app_nil_r in Hd. exists b. split; [exact Hb|].
    split; [exact L|]. eexists. exact Hd.
Qed.

End Menu.

Lemma receive_card_none (ev : recv_event) :
  BlackjackClient.receive_card ev = None <-> no_card_message ev.
Proof.
  unfold BlackjackClient.receive_card, no_card_message.
  destruct ev as [data| |]; [|tauto..].
  destruct (unpack_server_payload_spec data) as (r & U & Hr).
  destruct data as [|x data].
  { split; [|reflexivity]. intros _. left. unfold too_short. cbn. lia. }
  destruct (length (x :: data) <? SERVER_PAYLOAD_SIZE)%nat eqn:EL.
  { apply Nat.ltb_lt in EL. split; [|reflexivity]. intros _. now left. }
  rewrite U. exact Hr.
Qed.

(** X21. The client gives up when no card arrives.  If the first [recv] of
    a round raises, or yields nothing, fewer than nine bytes, or bytes that
    the decoder of server payloads rejects (no cookie, another type, a rank
    field that is no number, a suit byte outside ASCII), [play_round]
    returns [None] having sent nothing, the loop of [play_game] is left
    with the counts as they were, and [play_game] returns [False] without
    playing the rounds that are left. *)
Theorem client_gives_up_without_card (ev : recv_event)
    (rest : list recv_event) (w : BlackjackClient.world) :
  no_card_message ev ->
  BlackjackClient.play_round (ev :: rest) w
  = Ok (Finished None, rest, BlackjackClient.log EvRecv w,
        BlackjackClient.mk_hands [] [] 0 0)
  /\ (forall n rounds wins losses ties,
        BlackjackClient.play_rounds (n :: rounds) wins losses ties
          (ev :: rest) w
        = (BlackjackClient.GameOver false wins losses ties, rest,
           BlackjackClient.log EvRecv w))
  /\ (forall team_name num_rounds request,
        pack_request num_rounds team_name = Ok request ->
        1 <= num_rounds ->
        BlackjackClient.play_game team_name num_rounds (ev :: rest) w
        = (BlackjackClient.GameOver false 0 0 0, rest,
           BlackjackClient.log EvRecv
             (BlackjackClient.log (EvSend request) w))).
Proof.
  intros Hev. apply receive_card_none in Hev.
  assert (forall w0,
            BlackjackClient.play_round (ev :: rest) w0
            = Ok (Finished None, rest, BlackjackClient.log EvRecv w0,
                  BlackjackClient.mk_hands [] [] 0 0)) as Hr.
  { intros w0. unfold BlackjackClient.play_round.
    cbn [BlackjackClient.receive_cards]. now rewrite Hev. }
  split; [apply Hr|]. split.
  - intros n rounds wins losses ties.
    cbn [BlackjackClient.play_rounds]. now rewrite Hr.
  - intros team_name num_rounds request Hp Hn.
    unfold BlackjackClient.play_game. rewrite Hp.
    unfold py_range.
    destruct (Z.to_nat (num_rounds + 1 - 1)) as [|k] eqn:Ek; [lia|].
    cbn [seq map BlackjackClient.play_rounds]. now rewrite Hr.
Qed.

(* ================================================================== *)
(** * The properties at work *)

Lemma deal_sends_three_cards_witness :
  exists g',
    BlackjackGame.deal_initial flip_shuffle new_game = Ok (card_S 1, g')
    /\ BlackjackGame.player_cards g' = [card_H 1; card_D 1].
Proof.
  destruct (deal_sends_three_cards flip_shuffle flip_shuffle_perm new_game)
    as (c1 & c2 & d1 & d2 & g' & H & _).
  pose proof H as E. vm_compute in E. injection E as <- <-.
  eexists. split; [exact H|reflexivity].
Defined.

Lemma one_deck_per_round_witness :
  exists g',
    BlackjackGame.play_round flip_shuffle 17 [] new_game
    = Some (Ok (Finished (Some (s_lit "win")), [], g'))
    /\ Deck.shuffles (BlackjackGame.deck g') = 1%nat
    /\ length (Deck.cards (BlackjackGame.deck g')) = 48%nat.
Proof.
  destruct (one_deck_per_round flip_shuffle flip_shuffle_perm 17 []
              new_game (le_n 17))
    as (e & inbox' & g' & H & _).
  pose proof H as E. vm_compute in E. injection E as <- <- <-.
  eexists. split; [exact H|]. split; reflexivity.
Defined.

Lemma server_sends_card_messages_witness :
  exists g',
    BlackjackGame.play_round flip_shuffle 17
      [RecvData (action_payload (s_lit "stand"))] kings_game
    = Some (Ok (Finished (Some (s_lit "tie")), [], g'))
    /\ Forall card_message (sends (BlackjackGame.wire g')).
Proof.
  destruct (server_sends_card_messages flip_shuffle flip_shuffle_perm 17
              [RecvData (action_payload (s_lit "stand"))] kings_game
              (le_n 17))
    as (e & inbox' & g' & H & HF).
  pose proof H as E. vm_compute in E. injection E as <- <- <-.
  eexists. split; [exact H|exact HF].
Defined.

Lemma round_aborts_without_action_witness :
  exists g1,
    BlackjackGame.play_round flip_shuffle 17 [RecvData []] kings_game
    = Some (Ok (Finished None, [], g1)).
Proof.
  assert (no_action (RecvData [])) as Hev
    by (left; unfold too_short; cbn; lia).
  destruct (round_aborts_without_action flip_shuffle flip_shuffle_perm 17
              (RecvData []) [] 1 [] (0, 0, 0) kings_game Hev)
    as (d2 & g1 & Hd & Hp).
  vm_compute in Hd. injection Hd as <- <-.
  destruct Hp as [Hr _]; [vm_compute; reflexivity|].
  eexists. exact Hr.
Defined.

Lemma run_counts_rounds_witness :
  exists g',
    BlackjackGame.run flip_shuffle 17 3 [] new_game
    = Some (Ok (BlackjackGame.RunWaiting, (0, 1, 0), [], g'))
    /\ Deck.shuffles (BlackjackGame.deck g') = 2%nat.
Proof.
  destruct (run_counts_rounds flip_shuffle flip_shuffle_perm 17 3 []
              new_game (le_n 17))
    as (e & wins & losses & ties & inbox' & g' & H & _).
  pose proof H as E. vm_compute in E. injection E as <- <- <- <- <- <-.
  eexists. split; [exact H|reflexivity].
Defined.

Lemma session_needs_request_witness :
  BlackjackServer.handle_client flip_shuffle 17
    [RecvData (b_lit "hello"); RecvData sample_hit]
  = Some (Ok (NoRequest, [RecvData sample_hit], [EvRecv])).
Proof.
  assert (no_request (RecvData (b_lit "hello"))) as Hev
    by (left; unfold too_short; cbn; lia).
  destruct (session_needs_request flip_shuffle flip_shuffle_perm 17
              (RecvData (b_lit "hello")) [RecvData sample_hit] (le_n 17))
    as [Hno _].
  destruct (Hno Hev) as (e & H & _).
  pose proof H as E. vm_compute in E. injection E as <-. exact H.
Defined.

Lemma two_aces_win_witness :
  exists g',
    BlackjackGame.play_round flip_shuffle 17 [RecvData sample_hit] new_game
    = Some (Ok (Finished (Some (s_lit "win")), [RecvData sample_hit], g')).
Proof.
  destruct (two_aces_win flip_shuffle flip_shuffle_perm 17
              [RecvData sample_hit] new_game (le_n 17))
    as (c1 & c2 & d2 & g1 & Hd & Hp & Hw).
  vm_compute in Hd. injection Hd as <- <-.
  vm_compute in Hp. injection Hp as <- <-.
  destruct Hw as (g' & H & _); [reflexivity|reflexivity|].
  exists g'. exact H.
Defined.

Lemma first_choice_decides_witness :
  BlackjackClient.get_player_decision 12
    [s_lit "x"; s_lit " "; s_lit " HIT "; s_lit "s"]
  = (s_lit "hit", [s_lit "s"]).
Proof.
  destruct (first_choice_decides 12 [s_lit "x"; s_lit " "]) as (H & _).
  - repeat (constructor; [split; vm_compute; reflexivity|]). constructor.
  - apply (H (s_lit " HIT ") [s_lit "s"]). vm_compute. reflexivity.
Defined.


Lemma requested_rounds_fit_witness :
  ClientMenu.get_menu_choice py_int [s_lit "P"; s_lit "0"; s_lit " 7 "]
  = Ok (s_lit "play", 7, [])
  /\ exists request, pack_request 7 (s_lit "Byte the Dealer") = Ok request.
Proof.
  destruct (requested_rounds_fit py_int [s_lit "P"; s_lit "0"; s_lit " 7 "])
    as (_ & Hm & Hp).
  assert (ClientMenu.get_menu_choice py_int
            [s_lit "P"; s_lit "0"; s_lit " 7 "]
          = Ok (s_lit "play", 7, [])) as E by (vm_compute; reflexivity).
  destruct (Hm _ _ _ E) as [[H _]|[_ Hr]];
    [vm_compute in H; discriminate H|].
  destruct (Hp 7 (s_lit "Byte the Dealer") Hr) as (request & Hq & _);
    [vm_compute; reflexivity|].
  split; [exact E|]. exists request. exact Hq.
Defined.

Lemma round_agreement_witness :
  BlackjackGame.play_round flip_shuffle 17
    (as_received (sends stand_round)) kings_game
  = Some (Ok (Finished (Some (s_lit "tie")), [], kings_game_end))
  /\ BlackjackClient.play_round (as_received (sends kings_round))
       (BlackjackClient.mk_world [s_lit "s"] [])
     = Ok (Finished (Some (s_lit "tie")), [],
           BlackjackClient.mk_world [] stand_round, kings_hands)
  /\ BlackjackClient.dealer_sum kings_hands
     = BlackjackGame.dealer_sum kings_game_end.
Proof.
  assert (BlackjackGame.play_round flip_shuffle 17
            (as_received (sends stand_round)) kings_game
          = Some (Ok (Finished (Some (s_lit "tie")), [], kings_game_end)))
    as Hs by (vm_compute; reflexivity).
  assert (BlackjackClient.play_round (as_received (sends kings_round))
            (BlackjackClient.mk_world [s_lit "s"] [])
          = Ok (Finished (Some (s_lit "tie")), [],
                BlackjackClient.mk_world [] stand_round, kings_hands))
    as Hc by (vm_compute; reflexivity).
  destruct (round_agreement flip_shuffle flip_shuffle_perm 17 kings_game
              (BlackjackClient.mk_world [s_lit "s"] [])
              (Finished (Some (s_lit "tie"))) [] kings_game_end
              (Finished (Some (s_lit "tie"))) []
              (BlackjackClient.mk_world [] stand_round) kings_hands
              (le_n 17) Hs Hc)
    as (r & _ & _ & _ & _ & _ & _ & [(_ & Hb & _)|(_ & _ & Hd)]).
  - vm_compute in Hb. discriminate Hb.
  - split; [exact Hs|]. split; [exact Hc|exact Hd].
Defined.

Lemma game_agreement_witness :
  BlackjackServer.handle_client flip_shuffle 17
    (as_received (sends demo_client_wire))
  = Some (Ok (Played BlackjackGame.RunDone (0, 1, 2), [], demo_server_wire))
  /\ BlackjackClient.play_game (s_lit "Byte the Dealer") 3
       (as_received (sends demo_server_wire))
       (BlackjackClient.mk_world demo_lines [])
     = (BlackjackClient.GameOver true 1 0 2, [],
        BlackjackClient.mk_world [] demo_client_wire)
  /\ unpack_request sample_request
     = Ok (Some (3, s_lit "Byte the Dealer")).
Proof.
  assert (BlackjackServer.handle_client flip_shuffle 17
            (as_received (sends demo_client_wire))
          = Some (Ok (Played BlackjackGame.RunDone (0, 1, 2), [],
                      demo_server_wire)))
    as Hs by (vm_compute; reflexivity).
  assert (BlackjackClient.play_game (s_lit "Byte the Dealer") 3
            (as_received (sends demo_server_wire))
            (BlackjackClient.mk_world demo_lines [])
          = (BlackjackClient.GameOver true 1 0 2, [],
             BlackjackClient.mk_world [] demo_client_wire))
    as Hc by (vm_compute; reflexivity).
  destruct (game_agreement flip_shuffle flip_shuffle_perm 17
              (s_lit "Byte the Dealer") 3 demo_lines
              (Played BlackjackGame.RunDone (0, 1, 2)) [] demo_server_wire
              (BlackjackClient.GameOver true 1 0 2) []
              (BlackjackClient.mk_world [] demo_client_wire)
              (le_n 17) Hs Hc)
    as [(e & _ & Hq & _)
       |(request & name & wins & losses & ties & Hp & Hu & _)].
  - discriminate Hq.
  - split; [exact Hs|]. split; [exact Hc|].
    vm_compute in Hp. injection Hp as <-.
    pose proof Hu as E. vm_compute in E. injection E as <-. exact Hu.
Defined.

Lemma stand_step_witness :
  exists g',
    BlackjackGame.play_hand flip_shuffle 17 (card_H 5)
      [RecvData (action_payload (s_lit "stand")); RecvData sample_hit]
      stand_on_19
    = Some (Ok (Finished (Some (s_lit "tie")), [RecvData sample_hit], g'))
    /\ BlackjackGame.dealer_sum g' = 19.
Proof.
  destruct (stand_step flip_shuffle flip_shuffle_perm 17 (card_H 5)
              (action_payload (s_lit "stand")) [RecvData sample_hit]
              stand_on_19)
    as (drawn & g1 & g' & H & _);
    [all_in_deck|all_in_deck|in_deck|lia|cbn; lia|vm_compute; reflexivity|].
  pose proof H as E. vm_compute in E. injection E as E1 <-.
  assert (fst (BlackjackGame.determine_winner g1) = s_lit "tie") as Et
    by (symmetry; exact E1).
  rewrite Et in H. eexists. split; [exact H|reflexivity].
Defined.

Lemma round_result_sound_witness :
  exists g',
    BlackjackGame.play_round flip_shuffle 17 [RecvData sample_hit] kings_game
    = Some (Ok (Finished (Some (s_lit "loss")), [], g'))
    /\ BlackjackGame.player_sum g' = 30.
Proof.
  destruct (round_result_sound flip_shuffle flip_shuffle_perm 17
              [RecvData sample_hit] kings_game (le_n 17))
    as (e & inbox' & g' & H & _).
  pose proof H as E. vm_compute in E. injection E as <- <- <-.
  eexists. split; [exact H|reflexivity].
Defined.

Lemma client_gives_up_without_card_witness :
  BlackjackClient.play_game (s_lit "Byte the Dealer") 3
    [RecvData (payload_header ++ [x00] ++ b_lit "1xH")]
    (BlackjackClient.mk_world [] [])
  = (BlackjackClient.GameOver false 0 0 0, [],
     BlackjackClient.mk_world [] [EvSend sample_request; EvRecv]).
Proof.
  destruct (client_gives_up_without_card
              (RecvData (payload_header ++ [x00] ++ b_lit "1xH")) []
              (BlackjackClient.mk_world [] []))
    as (_ & _ & H).
  - right. right. right. left. vm_compute. reflexivity.
  - apply (H (s_lit "Byte the Dealer") 3 sample_request);
      [vm_compute; reflexivity|lia].
Defined.
